(** * Serene python client: the Octopus entity, the Karma alignment
      converter, the pattern table and the caching endpoint proxies

    A shallow embedding of [serene/elements/octopus.py] and
    [serene/endpoints.py].  Python objects that are mutated in place are
    modelled by explicit state passing: a method of an object maps the
    object's state to its new state together with either a returned value
    or the exception that was raised. *)

From Stdlib Require Import QArith Ascii.
From stdpp Require Import gmap strings list fin_maps pretty sorting.

Local Open Scope string_scope.
Local Open Scope Z_scope.

(** ** Python exceptions and results *)

Module Py.

(** The exception classes the two source files raise or let through. *)
Inductive exn : Type :=
| ValueError (msg : string)
| TypeError (msg : string)
| KeyError (key : string)
| AttributeError (msg : string)
| AssertionError
| Exception (msg : string)
| ServerError (msg : string).

Inductive result (A : Type) : Type :=
| Ok (a : A)
| Raise (e : exn).
Arguments Ok {A} a.
Arguments Raise {A} e.

#[global] Instance result_ret : MRet result := fun A a => Ok a.

#[global] Instance result_bind : MBind result := fun A B k r =>
  match r with
  | Ok a => k a
  | Raise e => Raise e
  end.

Definition is_ok {A} (r : result A) : bool :=
  match r with Ok _ => true | Raise _ => false end.

(** What a call returned, if it did. *)
Definition returned {A} (r : result A) : option A :=
  match r with Ok a => Some a | Raise _ => None end.

Definition is_value_error {A} (r : result A) : bool :=
  match r with Raise (ValueError _) => true | _ => false end.

(** ** Numbers

    A Python number is an [int] or a [float].  Finite floats are kept by
    their exact rational value: the only operations the sources apply to
    them are order comparisons, which Python evaluates exactly, also
    between an [int] and a [float]. *)
Inductive pynum : Type :=
| Fin (q : Q)
| Inf
| NegInf
| NaN.

Inductive pyval : Type :=
| VInt (z : Z)
| VFloat (f : pynum)
| VStr (s : string)
| VNone.

Definition as_num (x : pyval) : option pynum :=
  match x with
  | VInt z => Some (Fin (inject_Z z))
  | VFloat f => Some f
  | VStr _ | VNone => None
  end.

(** [a <= b] on numbers, with the IEEE rules for the special values. *)
Definition num_le (a b : pynum) : bool :=
  match a, b with
  | NaN, _ | _, NaN => false
  | NegInf, _ => true
  | _, Inf => true
  | Fin p, Fin q => Qle_bool p q
  | _, _ => false
  end.

(** [a < b] on numbers. *)
Definition num_lt (a b : pynum) : bool :=
  match a, b with
  | NaN, _ | _, NaN => false
  | NegInf, NegInf => false
  | NegInf, _ => true
  | Inf, _ => false
  | Fin _, Inf => true
  | Fin p, Fin q => negb (Qle_bool q p)
  | Fin _, NegInf => false
  end.

(** A comparison between a number and a value that is not a number raises
    [TypeError] (Python 3). *)
Definition unorderable : exn :=
  TypeError "unorderable types".

Definition py_cmp (op : pynum -> pynum -> bool) (x y : pyval)
  : result bool :=
  match as_num x, as_num y with
  | Some a, Some b => Ok (op a b)
  | _, _ => Raise unorderable
  end.

(** [list.remove(x)]: drops the first element equal to [x]; [None] stands
    for the [ValueError] raised when there is none. *)
Fixpoint list_remove {A} `{EqDecision A} (x : A) (l : list A)
  : option (list A) :=
  match l with
  | [] => None
  | y :: l' =>
      if decide (y = x) then Some l'
      else cons y <$> list_remove x l'
  end.

Definition not_in_list : exn :=
  ValueError "list.remove(x): x not in list".

(** [str.split(sep)] for a separator that is not empty: the pieces between
    the occurrences of [sep], found from the left and not overlapping.
    [skip] counts the characters of a separator just matched that are still
    to be passed over, [cur] is the piece being read. *)
Fixpoint split_go (sep : string) (skip : nat) (cur : string) (s : string)
  : list string :=
  match s with
  | EmptyString => [cur]
  | String c s' =>
      match skip with
      | S k => split_go sep k cur s'
      | O =>
          if String.prefix sep s
          then cur :: split_go sep (Nat.pred (String.length sep)) "" s'
          else split_go sep 0 (cur +:+ String c "") s'
      end
  end.

Definition split (sep s : string) : list string :=
  split_go sep 0 "" s.

End Py.

Import Py.

(** ** Entities referenced by an Octopus *)

(** Modelled from the spec: the classes [SSD] and [Ontology]
    ([serene/elements/ssd.py], [serene/elements/ontology.py], outside the two
    files modelled here).  An entity "has an integer identity once
    persisted" and a [stored] flag; [oid] is the identity of the Python
    object, so that two objects are [==] exactly when they are the same
    record. *)
Record SSD : Type := mkSSD {
  ssd_oid : nat;
  ssd_stored : bool;
  ssd_id : option Z
}.

Record Ontology : Type := mkOntology {
  onto_oid : nat;
  onto_stored : bool;
  onto_id : option Z
}.

#[global] Instance SSD_eq_dec : EqDecision SSD.
Proof. solve_decision. Defined.

#[global] Instance Ontology_eq_dec : EqDecision Ontology.
Proof. solve_decision. Defined.

(** What the user may hand to [add] and [remove]: an SSD, an Ontology, or
    an object of some other class. *)
Inductive pyobj : Type :=
| OSSD (s : SSD)
| OOntology (o : Ontology)
| OInt (z : Z)
| OStr (s : string)
| ONone.

(** The [modeling_props] argument: [None], a dict from property names to
    values, or something else (a list). *)
Inductive mprops : Type :=
| MPNone
| MPList (l : list pyval)
| MPDict (d : gmap string pyval).

(** ** The Octopus object *)

Module Octopus.

(** The attributes of the object that the modelled methods read or write.
    [ssds] and [ontologies] are [None] until a list is given: the
    constructor stores its arguments as they are, and their default is
    [None]. *)
Record t : Type := mk {
  id : option Z;
  stored : bool;
  ssds : option (list SSD);
  ontologies : option (list Ontology);
  name : option string;
  description : option string;
  model_type : string;
  resampling_strategy : string;
  num_bags : Z;
  bag_size : Z;
  modeling_props : mprops;
  model_id : option Z
}.

Definition set_stored (b : bool) (o : t) : t :=
  mk (id o) b (ssds o) (ontologies o) (name o) (description o)
     (model_type o) (resampling_strategy o) (num_bags o) (bag_size o)
     (modeling_props o) (model_id o).

Definition set_ssds (l : option (list SSD)) (o : t) : t :=
  mk (id o) (stored o) l (ontologies o) (name o) (description o)
     (model_type o) (resampling_strategy o) (num_bags o) (bag_size o)
     (modeling_props o) (model_id o).

Definition set_ontologies (l : option (list Ontology)) (o : t) : t :=
  mk (id o) (stored o) (ssds o) l (name o) (description o)
     (model_type o) (resampling_strategy o) (num_bags o) (bag_size o)
     (modeling_props o) (model_id o).

(** The keyword arguments of [__init__], with the defaults of the
    signature. *)
Record init_args : Type := mk_args {
  a_ssds : option (list SSD);
  a_name : option string;
  a_description : option string;
  a_model_type : string;
  a_resampling_strategy : string;
  a_num_bags : Z;
  a_bag_size : Z;
  a_ontologies : option (list Ontology);
  a_modeling_props : mprops
}.

Definition default_args : init_args :=
  mk_args None (Some "") (Some "") "randomForest" "NoResampling" 10 10 None
          MPNone.

Definition with_modeling_props (p : mprops) (a : init_args) : init_args :=
  mk_args (a_ssds a) (a_name a) (a_description a) (a_model_type a)
          (a_resampling_strategy a) (a_num_bags a) (a_bag_size a)
          (a_ontologies a) p.

Section Init.

(** [ModelType.values()] and [SamplingStrategy.values()] come from
    [serene/matcher], outside the two files modelled here: the two tables
    are taken as they are given. *)
Variable ModelType_values : list string.
Variable SamplingStrategy_values : list string.

(** [Octopus.__init__]: the two enum checks, then the plain stores. *)
Definition init (a : init_args) : result t :=
  if negb (bool_decide (a_model_type a ∈ ModelType_values)) then
    Raise (ValueError ("Model type " +:+ a_model_type a +:+ " is invalid"))
  else if negb (bool_decide
                  (a_resampling_strategy a ∈ SamplingStrategy_values)) then
    Raise (ValueError ("Resampling strategy type "
                         +:+ a_resampling_strategy a +:+ " is invalid"))
  else
    Ok (mk None false (a_ssds a) (a_ontologies a) (a_name a)
           (a_description a) (a_model_type a) (a_resampling_strategy a)
           (a_num_bags a) (a_bag_size a) (a_modeling_props a) None).

End Init.

(** A method of the object: from the state of [self] to its new state and
    the outcome of the call.  The state is kept when the call raises. *)
Definition meth (A : Type) : Type := t -> t * result A.

Definition only_ssd_or_ontology_added : exn :=
  ValueError "Only SSD or Ontologies can be added to the Octopus".

Definition only_ssd_or_ontology_removed : exn :=
  ValueError "Only SSD or Ontologies can be removed from the Octopus".

Definition none_has_no (attr : string) : exn :=
  AttributeError ("'NoneType' object has no attribute '" +:+ attr +:+ "'").

(** [Octopus.add]. *)
Definition add (value : pyobj) : meth unit := fun self =>
  match value with
  | OSSD s =>
      let self := set_stored false self in
      match ssds self with
      | Some l => (set_ssds (Some (l ++ [s])%list) self, Ok tt)
      | None => (self, Raise (none_has_no "append"))
      end
  | OOntology o =>
      let self := set_stored false self in
      match ontologies self with
      | Some l => (set_ontologies (Some (l ++ [o])%list) self, Ok tt)
      | None => (self, Raise (none_has_no "append"))
      end
  | _ => (self, Raise only_ssd_or_ontology_added)
  end.

(** [Octopus.remove]. *)
Definition remove (value : pyobj) : meth unit := fun self =>
  match value with
  | OSSD s =>
      let self := set_stored false self in
      match ssds self with
      | Some l =>
          match list_remove s l with
          | Some l' => (set_ssds (Some l') self, Ok tt)
          | None => (self, Raise not_in_list)
          end
      | None => (self, Raise (none_has_no "remove"))
      end
  | OOntology o =>
      let self := set_stored false self in
      match ontologies self with
      | Some l =>
          match list_remove o l with
          | Some l' => (set_ontologies (Some l') self, Ok tt)
          | None => (self, Raise not_in_list)
          end
      | None => (self, Raise (none_has_no "remove"))
      end
  | _ => (self, Raise only_ssd_or_ontology_removed)
  end.

(** *** [check_modeling_props] *)

(** The bounds the checks are called with: [0], [1] and [inf]. *)
Definition zero : pyval := VInt 0.
Definition one : pyval := VInt 1.
Definition inf : pyval := VFloat Inf.

Definition repr_bound (b : pyval) : string :=
  match b with
  | VInt z => pretty z
  | VFloat Inf => "inf"
  | _ => "?"
  end.

(** [in_range]: a chained comparison, the second half of which is only
    evaluated when the first holds. *)
Definition in_range (x a b : pyval) (inclusive : bool) : result bool :=
  if inclusive then
    c ← py_cmp num_le a x;
    if c : bool then py_cmp num_le x b else Ok false
  else
    c ← py_cmp num_lt a x;
    if c : bool then py_cmp num_lt x b else Ok false.

Definition range_message (name : string) (a b : pyval) (inclusive : bool)
  : string :=
  let sign := if inclusive then "<=" else "<" in
  "Modeling property " +:+ name +:+ " should be in range "
    +:+ repr_bound a +:+ " " +:+ sign +:+ " " +:+ name +:+ " " +:+ sign
    +:+ " " +:+ repr_bound b.

Definition prop_in_range (props : gmap string pyval) (name : string)
    (a b : pyval) (inclusive : bool) : result unit :=
  match props !! name with
  | None => Ok tt
  | Some prop =>
      ok ← in_range prop a b inclusive;
      if ok : bool then Ok tt
      else Raise (ValueError (range_message name a b inclusive))
  end.

(** The seven calls of [prop_in_range], in the order of the source. *)
Definition checked_props : list (string * (pyval * pyval * bool)) :=
  [ ("mappingBranchFactor", (zero, inf, false));
    ("numCandidateMappings", (zero, inf, false));
    ("topkSteinerTrees", (zero, inf, false));
    ("numSemanticTypes", (zero, inf, false));
    ("confidenceWeight", (zero, one, true));
    ("coherenceWeight", (zero, one, true));
    ("sizeWeight", (zero, one, true)) ].

Fixpoint run_checks (props : gmap string pyval)
    (cs : list (string * (pyval * pyval * bool))) : result unit :=
  match cs with
  | [] => Ok tt
  | (name, (a, b, inclusive)) :: cs' =>
      prop_in_range props name a b inclusive;; run_checks props cs'
  end.

Definition check_modeling_props (self : t) : result unit :=
  match modeling_props self with
  | MPDict d => run_checks d checked_props
  | _ => Ok tt
  end.

(** *** [update] *)

(** The JSON blob of a stored octopus, by the keys whose values [update]
    puts in the attributes modelled here.  The blob carries ["dateCreated"],
    ["dateModified"], ["semanticTypeMap"] and ["state"] as well, which
    [update] reads into attributes that are not modelled. *)
Record json : Type := mk_json {
  j_id : Z;
  j_name : string;
  j_description : string;
  j_ssds : list Z;
  j_ontologies : list Z;
  j_lobsterID : Z;
  j_modelingProps : mprops
}.

(** Modelled from the spec: the matcher ([serene/matcher/model.py],
    outside the two files modelled here), by the attributes [update]
    copies:
    ["model type, resampling strategy and bagging parameters"]. *)
Record Model : Type := mk_model {
  m_model_type : string;
  m_resampling_strategy : string;
  m_num_bags : Z;
  m_bag_size : Z
}.

(** What a caller may pass to [update]: a JSON blob, the session, or an
    endpoint, of which only its [get] is used. *)
Inductive arg : Type :=
| AJson (j : json)
| ASession
| ADataSetEndpoint
| AModelEndpoint (get : Z -> result Model)
| AOntologyEndpoint (get : Z -> result Ontology)
| ASSDEndpoint (get : Z -> result SSD).

Definition update_arity : exn :=
  TypeError "update() missing required positional arguments".

Definition not_subscriptable : exn :=
  TypeError "object is not subscriptable".

Definition has_no_get : exn :=
  AttributeError "object has no attribute 'get'".

(** The assignments of the body up to [self._id = json['id']]. *)
Definition set_header (j : json) (o : t) : t :=
  mk (Some (j_id j)) true (ssds o) (ontologies o) (Some (j_name j))
     (Some (j_description j)) (model_type o) (resampling_strategy o)
     (num_bags o) (bag_size o) (modeling_props o) (model_id o).

Definition set_model_id (k : Z) (o : t) : t :=
  mk (id o) (stored o) (ssds o) (ontologies o) (name o) (description o)
     (model_type o) (resampling_strategy o) (num_bags o) (bag_size o)
     (modeling_props o) (Some k).

(** The assignments that follow [self._matcher = ...]. *)
Definition set_implied (j : json) (m : Model) (o : t) : t :=
  mk (id o) (stored o) (ssds o) (ontologies o) (name o) (description o)
     (m_model_type m) (m_resampling_strategy m) (m_num_bags m)
     (m_bag_size m) (j_modelingProps j) (model_id o).

(** [[endpoint.get(o) for o in ids]]: the endpoint is asked for its [get]
    once for each identifier, so that an object without [get] only raises
    when there is an identifier to look up. *)
Definition gets {A} (get : option (Z -> result A)) (ids : list Z)
  : result (list A) :=
  match get with
  | Some g => mapM g ids
  | None => match ids with [] => Ok [] | _ :: _ => Raise has_no_get end
  end.

Definition ssd_get_of (a : arg) : option (Z -> result SSD) :=
  match a with ASSDEndpoint g => Some g | _ => None end.

Definition ontology_get_of (a : arg) : option (Z -> result Ontology) :=
  match a with AOntologyEndpoint g => Some g | _ => None end.

(** [Octopus.update(self, json, session, dataset_endpoint, model_endpoint,
    ontology_endpoint, ssd_endpoint)]: none of the six parameters has a
    default, so a call with another number of arguments raises [TypeError]
    before the body runs.  The body sets [_stored] first, then reads the
    blob and asks the endpoints; what was assigned before an exception
    stays assigned.  In the place of the SSD, the ontology or the model
    endpoint, an argument of another kind stands for an object without
    [get]. *)
Definition update (args : list arg) : meth unit := fun self =>
  match args with
  | [json; session; dataset_endpoint; model_endpoint; ontology_endpoint;
     ssd_endpoint] =>
      let self := set_stored true self in
      match json with
      | AJson j =>
          let self := set_header j self in
          match gets (ssd_get_of ssd_endpoint) (j_ssds j) with
          | Raise e => (self, Raise e)
          | Ok ss =>
              let self := set_ssds (Some ss) self in
              match gets (ontology_get_of ontology_endpoint)
                         (j_ontologies j) with
              | Raise e => (self, Raise e)
              | Ok os =>
                  let self := set_ontologies (Some os) self in
                  let self := set_model_id (j_lobsterID j) self in
                  match model_endpoint with
                  | AModelEndpoint model_get =>
                      match model_get (j_lobsterID j) with
                      | Raise e => (self, Raise e)
                      | Ok m => (set_implied j m self, Ok tt)
                      end
                  | _ => (self, Raise has_no_get)
                  end
              end
          end
      | _ => (self, Raise not_subscriptable)
      end
  | _ => (self, Raise update_arity)
  end.

(** *** Notions used to state the properties of the checks *)

(** One of the seven checked properties holds a value that [in_range]
    finds outside its range. *)
Definition out_of_range (d : gmap string pyval) : Prop :=
  ∃ name a b inclusive x,
    (name, (a, b, inclusive)) ∈ checked_props ∧ d !! name = Some x ∧
    in_range x a b inclusive = Ok false.

(** Each checked property that is present holds a value in its range. *)
Definition within_ranges (d : gmap string pyval) : Prop :=
  ∀ name a b inclusive x,
    (name, (a, b, inclusive)) ∈ checked_props → d !! name = Some x →
    in_range x a b inclusive = Ok true.

(** Each checked property that is present holds a number. *)
Definition numeric (d : gmap string pyval) : Prop :=
  ∀ name x, name ∈ checked_props.*1 → d !! name = Some x →
            is_Some (as_num x).

(** The dictionaries of the spec's example: [{"confidenceWeight": 1.5}]
    and [{"confidenceWeight": 0.5}]. *)
Definition weight_too_large : gmap string pyval :=
  {[ "confidenceWeight" := VFloat (Fin (3 # 2)) ]}.

Definition weight_in_range : gmap string pyval :=
  {[ "confidenceWeight" := VFloat (Fin (1 # 2)) ]}.

(** The enum tables restricted to the defaults of the constructor. *)
Definition default_model_types : list string := ["randomForest"].
Definition default_sampling_strategies : list string := ["NoResampling"].

(** [Octopus()], as the constructor leaves it. *)
Definition fresh : t :=
  mk None false None None (Some "") (Some "") "randomForest" "NoResampling"
     10 10 MPNone None.

(** The four properties that are checked with [0 < x < inf] and the three
    that are checked with [0 <= x <= 1]. *)
Definition count_props : list string :=
  ["mappingBranchFactor"; "numCandidateMappings"; "topkSteinerTrees";
   "numSemanticTypes"].

Definition weight_props : list string :=
  ["confidenceWeight"; "coherenceWeight"; "sizeWeight"].

(** A finite number above zero, and a number of the unit interval. *)
Definition positive_finite (x : pyval) : Prop :=
  match as_num x with
  | Some (Fin q) => (0 < q)%Q
  | _ => False
  end.

Definition unit_weight (x : pyval) : Prop :=
  match as_num x with
  | Some (Fin q) => (0 <= q)%Q ∧ (q <= 1)%Q
  | _ => False
  end.

(** The six arguments that [_get_state] passes to [update]: the blob, the
    session and the four endpoints. *)
Definition state_args (j : json) (model_get : Z -> result Model)
    (ontology_get : Z -> result Ontology) (ssd_get : Z -> result SSD)
  : list arg :=
  [AJson j; ASession; ADataSetEndpoint; AModelEndpoint model_get;
   AOntologyEndpoint ontology_get; ASSDEndpoint ssd_get].

End Octopus.

(** ** The Karma alignment graph converter *)

Module Karma.

(** The vendor JSON: [data["nodes"]] and [data["links"]].  A node carries
    ["id"], ["type"] and, when it is an internal node, ["label"]["uri"]; a
    link carries ["id"], ["type"] and ["weight"]. *)
Record knode : Type := mk_knode {
  n_id : string;
  n_type : string;
  n_label_uri : option string
}.

Record klink : Type := mk_klink {
  l_id : string;
  l_type : string;
  l_weight : Q
}.

Record kdata : Type := mk_kdata {
  nodes : list knode;
  links : list klink
}.

(** The attribute dicts of the [networkx] multigraph (networkx 1.x, where
    [add_node] and [add_edge] take the attributes as [attr_dict] and
    [g.node] gives the node attributes). *)
Record node_data : Type := mk_node_data {
  nd_type : string;
  nd_label : string;
  nd_lab : string;
  nd_prefix : string
}.

Record link_data : Type := mk_link_data {
  ld_alignId : string;
  ld_type : string;
  ld_weight : Q;
  ld_label : string;
  ld_prefix : string
}.

Record edge : Type := mk_edge {
  e_source : nat;
  e_target : nat;
  e_key : nat;
  e_data : link_data
}.

(** [nx.MultiDiGraph]: the node table and the edges in the order they were
    added; parallel edges differ by their key. *)
Record graph : Type := mk_graph {
  g_node : gmap nat node_data;
  g_edges : list edge
}.

Definition empty_graph : graph := mk_graph ∅ [].

Definition add_node (n : nat) (d : node_data) (g : graph) : graph :=
  mk_graph (<[n := d]> (g_node g)) (g_edges g).

Definition add_edge (u v key : nat) (d : link_data) (g : graph) : graph :=
  mk_graph (g_node g) (g_edges g ++ [mk_edge u v key d])%list.

(** [g.node[n]]: the attributes of a node, [KeyError] when there is none. *)
Definition node_attrs (n : nat) (g : graph) : result node_data :=
  match g_node g !! n with
  | Some d => Ok d
  | None => Raise (KeyError (pretty n))
  end.

Definition set_label (s : string) (d : node_data) : node_data :=
  mk_node_data (nd_type d) s (nd_lab d) (nd_prefix d).

Definition set_lab (s : string) (d : node_data) : node_data :=
  mk_node_data (nd_type d) (nd_label d) s (nd_prefix d).

Definition set_prefix (s : string) (d : node_data) : node_data :=
  mk_node_data (nd_type d) (nd_label d) (nd_lab d) s.

(** [g.node[n][attr] = value], as an update of the attributes of [n]. *)
Definition update_node (n : nat) (f : node_data -> node_data) (g : graph)
  : result graph :=
  d ← node_attrs n g;
  Ok (mk_graph (<[n := f d]> (g_node g)) (g_edges g)).

(** [d[key]] on a dict with string keys. *)
Definition getitem {V} (d : gmap string V) (key : string) : result V :=
  match d !! key with
  | Some v => Ok v
  | None => Raise (KeyError key)
  end.

(** A loop over a list whose body may raise. *)
Fixpoint for_each {A B} (body : B -> A -> result B) (b : B) (l : list A)
  : result B :=
  match l with
  | [] => Ok b
  | x :: l' => b' ← body b x; for_each body b' l'
  end.

Definition separator : string := "---".

Definition terminal_kinds : list string :=
  ["DataPropertyLink"; "ClassInstanceLink"].

Definition is_terminal (l : klink) : bool :=
  bool_decide (l_type l ∈ terminal_kinds).

Definition is_internal (n : knode) : bool :=
  bool_decide (n_type n = "InternalNode").

Section Converter.

(** [get_label] and [get_prefix] belong to [serene/utils.py], outside the
    two files modelled here: the converter is modelled for whatever the
    two helpers compute. *)
Variable get_label : string -> string.
Variable get_prefix : string -> string.

(** The state of the two loops: [cur_id], the lookup table being filled
    and the graph. *)
Definition loop_state : Type := nat * gmap string nat * graph.

(** [node["label"]["uri"]]; [None] stands for a node without ["label"].
    A label without ["uri"] raises [KeyError] as well, with that key. *)
Definition label_uri (node : knode) : result string :=
  match n_label_uri node with
  | Some u => Ok u
  | None => Raise (KeyError "label")
  end.

(** The [node_data] dict of a node: the kind, and for an internal node the
    label and the prefix of its URI and the label of its identifier. *)
Definition initial_data (node : knode) : result node_data :=
  label ← (if is_internal node
           then uri ← label_uri node; Ok (get_label uri) else Ok "");
  let lab := if is_internal node then get_label (n_id node) else "" in
  prefix ← (if is_internal node
            then uri ← label_uri node; Ok (get_prefix uri) else Ok "");
  Ok (mk_node_data (if is_internal node then "ClassNode" else "DataNode")
                   label lab prefix).

(** The body of [for node in nodes]. *)
Definition node_step (st : loop_state) (node : knode) : result loop_state :=
  let '(cur_id, node_map, g) := st in
  let node_map := <[n_id node := cur_id]> node_map in
  node_data ← initial_data node;
  Ok (S cur_id, node_map, add_node cur_id node_data g).

(** The propagation onto the target of a terminal link: three assignments,
    each reading the source's attribute from the graph as it then is. *)
Definition propagate (u v : nat) (label : string) (g : graph)
  : result graph :=
  src ← node_attrs u g;
  g ← update_node v (set_label (nd_label src +:+ separator +:+ label)) g;
  src ← node_attrs u g;
  g ← update_node v (set_lab (nd_lab src +:+ separator +:+ label)) g;
  src ← node_attrs u g;
  update_node v (set_prefix (nd_prefix src)) g.

(** The body of [for link in links]; [node_map] is complete by then. *)
Definition link_step (node_map : gmap string nat) (st : loop_state)
    (link : klink) : result loop_state :=
  let '(cur_id, link_map, g) := st in
  let link_map := <[l_id link := cur_id]> link_map in
  match split separator (l_id link) with
  | [source; uri; target] =>
      let link_data :=
        mk_link_data (l_id link) (l_type link) (l_weight link)
                     (get_label uri) (get_prefix uri) in
      u ← getitem node_map source;
      v ← getitem node_map target;
      let g := add_edge u v cur_id link_data g in
      g ← (if is_terminal link
           then propagate u v (ld_label link_data) g else Ok g);
      Ok (S cur_id, link_map, g)
  | _ => Raise (ValueError "wrong number of values to unpack")
  end.

(** The two loops on their own, to speak of the state between them and of
    the state before a given link. *)
Definition node_loop (ns : list knode) : result loop_state :=
  for_each node_step (O, ∅, empty_graph) ns.

Definition link_loop (node_map : gmap string nat) (g : graph)
    (ls : list klink) : result loop_state :=
  for_each (link_step node_map) (O, ∅, g) ls.

(** [Octopus.convert_karma_graph]. *)
Definition convert_karma_graph (data : kdata)
  : result (graph * gmap string nat * gmap string nat) :=
  '(_, node_map, g) ← node_loop (nodes data);
  '(_, link_map, g) ← link_loop node_map g (links data);
  Ok (g, node_map, link_map).

End Converter.

(** *** Notions used to state the properties of the converter *)

(** The source and the target that a link identifier names. *)
Definition source_of (l : klink) : option string :=
  match split separator (l_id l) with
  | [source; _; _] => Some source
  | _ => None
  end.

Definition target_of (l : klink) : option string :=
  match split separator (l_id l) with
  | [_; _; target] => Some target
  | _ => None
  end.

(** What a terminal link leaves on its target: the kind the target had,
    and the attributes of the source with the label of the edge. *)
Definition propagated (src old : node_data) (label : string) : node_data :=
  mk_node_data (nd_type old)
               (nd_label src +:+ separator +:+ label)
               (nd_lab src +:+ separator +:+ label)
               (nd_prefix src).

(** A terminal link onto the node named [t]. *)
Definition propagates_to (t : string) (l : klink) : Prop :=
  is_terminal l = true ∧ target_of l = Some t.

(** An input of the shape the converter is written for: an internal node
    carries its URI, and a link identifier reads [source---uri---target]
    with both ends among the nodes. *)
Definition well_formed (data : kdata) : Prop :=
  (∀ n, n ∈ nodes data → is_internal n = true → is_Some (n_label_uri n)) ∧
  (∀ l, l ∈ links data →
        ∃ s t, source_of l = Some s ∧ target_of l = Some t ∧
               s ∈ n_id <$> nodes data ∧ t ∈ n_id <$> nodes data).

(** A lookup table that gives every identifier of [ids] its position, and
    nothing else. *)
Definition positions (ids : list string) (m : gmap string nat) : Prop :=
  (∀ i id, ids !! i = Some id → m !! id = Some i) ∧
  (∀ id i, m !! id = Some i → ids !! i = Some id).

(** Modelled from the spec: [get_label] and [get_prefix] of
    [serene/utils.py], outside the two files modelled here.  The
    label is ["derived from the node's internal URI"], the prefix is ["a
    namespace prefix extracted from the URI"], and in the example of the
    spec ["ex:Person"] has the label ["Person"]: the prefix is taken to
    end with the last ['#'], ['/'] or [':'] of the URI, and the label to
    be what follows it. *)
Definition ends_prefix (c : ascii) : bool :=
  bool_decide (c ∈ ["#"%char; "/"%char; ":"%char]).

Fixpoint split_uri (prefix cur s : string) : string * string :=
  match s with
  | EmptyString => (prefix, cur)
  | String c s' =>
      if ends_prefix c
      then split_uri (prefix +:+ cur +:+ String c "") "" s'
      else split_uri prefix (cur +:+ String c "") s'
  end.

Definition spec_get_prefix (uri : string) : string := (split_uri "" "" uri).1.
Definition spec_get_label (uri : string) : string := (split_uri "" "" uri).2.

(** The example of the spec. *)
Definition person_example : kdata :=
  mk_kdata
    [ mk_knode "n1" "InternalNode" (Some "ex:Person");
      mk_knode "n2" "DataNode" None ]
    [ mk_klink "n1---ex:name---n2" "DataPropertyLink" 1%Q ].

(** Two classes that both attach a literal to the same data node. *)
Definition two_sources : kdata :=
  mk_kdata
    [ mk_knode "n1" "InternalNode" (Some "ex:Person");
      mk_knode "n2" "DataNode" None;
      mk_knode "n3" "InternalNode" (Some "ex:Organization") ]
    [ mk_klink "n1---ex:name---n2" "DataPropertyLink" 1%Q;
      mk_klink "n3---ex:title---n2" "DataPropertyLink" 1%Q ].

(** A terminal link onto a data node and then one from that node to
    itself; and the same nodes with the second link alone. *)
Definition self_link : kdata :=
  mk_kdata
    [ mk_knode "a" "InternalNode" (Some "ex:A");
      mk_knode "t" "DataNode" None ]
    [ mk_klink "a---ex:p---t" "DataPropertyLink" 1%Q;
      mk_klink "t---ex:q---t" "DataPropertyLink" 1%Q ].

Definition self_link_alone : kdata :=
  mk_kdata (nodes self_link)
    [ mk_klink "t---ex:q---t" "DataPropertyLink" 1%Q ].

(** Terminal links in a row: onto [d], from [d] onto [e], and from [e]
    back onto [d]. *)
Definition chained_links : kdata :=
  mk_kdata
    [ mk_knode "a" "InternalNode" (Some "ex:A");
      mk_knode "d" "DataNode" None;
      mk_knode "e" "DataNode" None ]
    [ mk_klink "a---ex:x---d" "DataPropertyLink" 1%Q;
      mk_klink "d---ex:y---e" "DataPropertyLink" 1%Q;
      mk_klink "e---ex:z---d" "DataPropertyLink" 1%Q ].

(** An array in which two nodes bear the same identifier. *)
Definition repeated_id : kdata :=
  mk_kdata
    [ mk_knode "n1" "DataNode" None; mk_knode "n1" "DataNode" None ]
    [].

(** The exception of [source, uri, target = link["id"].split("---")] when
    the identifier does not split in three. *)
Definition unpack_error : exn :=
  ValueError "wrong number of values to unpack".

(** The identifier that names a link from [source] to [target]. *)
Definition link_id (source uri target : string) : string :=
  source +:+ separator +:+ uri +:+ separator +:+ target.

(** [sep] occurs in [a]. *)
Fixpoint occurs (sep a : string) : bool :=
  match a with
  | EmptyString => String.prefix sep a
  | String _ a' => String.prefix sep a || occurs sep a'
  end.

(** The last character of [a] is [c]. *)
Fixpoint ends_with (c : ascii) (a : string) : bool :=
  match a with
  | EmptyString => false
  | String c' EmptyString => bool_decide (c' = c)
  | String _ a' => ends_with c a'
  end.

(** A source or a URI that the separator delimits as written: it holds no
    separator and does not end with a dash, which would be read as the
    first character of the separator that follows it. *)
Definition delimited (a : string) : bool :=
  negb (occurs separator a) && negb (ends_with "-" a).

End Karma.

(** ** [functools.lru_cache] and the state of an endpoint *)

Module Cache.

(** A computation over a state [W] that may raise: the state it leaves is
    kept in both cases. *)
Definition M (W A : Type) : Type := W -> result A * W.

#[global] Instance M_ret {W} : MRet (M W) := fun A a w => (Ok a, w).

#[global] Instance M_bind {W} : MBind (M W) := fun A B k m w =>
  match m w with
  | (Ok a, w') => k a w'
  | (Raise e, w') => (Raise e, w')
  end.

Definition raise {W A} (e : exn) : M W A := fun w => (Raise e, w).

(** A computation that does not touch the state. *)
Definition pure {W A} (r : result A) : M W A := fun w => (r, w).

(** [for x in l: acc.append(body(x))]. *)
Fixpoint collect {W A B} (body : A -> M W B) (l : list A) : M W (list B) :=
  match l with
  | [] => mret []
  | x :: l' => y ← body x; ys ← collect body l'; mret (y :: ys)
  end.

(** [lru_cache(maxsize=32)]. *)
Definition maxsize : nat := 32.

Section LRU.

Context {K V : Type} `{EqDecision K}.

(** The entries of a cache, the most recently used first. *)
Definition cache : Type := list (K * V).

(** The entry of a key, and the cache without it. *)
Fixpoint find (k : K) (c : cache) : option (V * cache) :=
  match c with
  | [] => None
  | (k', v) :: c' =>
      if decide (k' = k) then Some (v, c')
      else
        match find k c' with
        | Some (r, rest) => Some (r, (k', v) :: rest)
        | None => None
        end
  end.

Context {W : Type}.

(** A call of the wrapper that [lru_cache] puts around [func]: a hit makes
    the entry the most recent one and returns the stored object; a miss
    calls [func], stores what it returns as the most recent entry and
    drops the least recently used entry beyond [maxsize].  A call that
    raises stores nothing. *)
Definition cached (get_cache : W -> cache) (set_cache : cache -> W -> W)
    (func : K -> M W V) (k : K) : M W V := fun w =>
  match find k (get_cache w) with
  | Some (v, rest) => (Ok v, set_cache ((k, v) :: rest) w)
  | None =>
      match func k w with
      | (Ok v, w') =>
          (Ok v, set_cache (take maxsize ((k, v) :: get_cache w')) w')
      | (Raise e, w') => (Raise e, w')
      end
  end.

End LRU.

Arguments cache : clear implicits.

(** *** Notions used to state the properties of the cache *)

Section Recency.

Context {K V : Type} `{Countable K}.

(** The cache after a call for [k']: a hit moves the entry to the front, a
    miss whose call returns [v'] ([r = Some v']) stores it, a miss whose
    call raises ([r = None]) changes nothing. *)
Definition after_call (k' : K) (r : option V) (c : cache K V) : cache K V :=
  match find k' c with
  | Some (v, rest) => (k', v) :: rest
  | None =>
      match r with
      | Some v' => take maxsize ((k', v') :: c)
      | None => c
      end
  end.

(** The entry [(k, v)] is in the cache, and the entries that are more
    recent than it have distinct keys, all of them in [A]. *)
Definition recently_used (k : K) (v : V) (A : gset K) (c : cache K V)
  : Prop :=
  ∃ ahead rest,
    c = (ahead ++ (k, v) :: rest)%list ∧ NoDup (ahead.*1) ∧
    (k ∉ ahead.*1) ∧ (∀ x, x ∈ ahead.*1 → x ∈ A).

End Recency.

(** [IdentifiableEndpoint]: what [decache] needs of an endpoint, the cache
    behind its [items] property. *)
Class IdentifiableEndpoint (W : Type) : Type := {
  items_cache_clear : W -> W
}.

(** The [decache] decorator: [type(self).items.fget.cache_clear()], then
    the decorated method. *)
Definition decache {W A} `{IdentifiableEndpoint W} (func : M W A) : M W A :=
  fun w => func (items_cache_clear w).

End Cache.

Import Cache.

(** ** The transport client behind an endpoint *)

Module Api.

(** The calls that go over the network. *)
Inductive call : Type :=
| Keys
| Item (key : Z)
| OwlFile (key : Z)
| Post
| Delete (key : option Z).

Section Client.

Context {J : Type}.

(** Modelled from the spec: the per-entity client of the session object
    (the transport is outside the two files modelled here): ["keys() → ordered
    sequence of identifiers, item(key) → JSON blob, post(...) → JSON blob
    of resulting stored entity, delete(key) → no content on success, fails
    with a server error otherwise"].  [store] is what the server holds,
    [trace] the calls made so far, the latest last. *)
Record t : Type := mk {
  store : list (Z * J);
  trace : list call
}.

Definition log (c : call) (n : t) : t :=
  mk (store n) (trace n ++ [c])%list.

Definition keys : M t (list Z) := fun n =>
  (Ok ((store n).*1), log Keys n).

Definition lookup_store (key : Z) (s : list (Z * J)) : option J :=
  snd <$> List.find (fun e => bool_decide (e.1 = key)) s.

Definition item (key : Z) : M t J := fun n =>
  match lookup_store key (store n) with
  | Some j => (Ok j, log (Item key) n)
  | None => (Raise (ServerError "not found"), log (Item key) n)
  end.

Definition owl_file (key : Z) : M t unit := fun n =>
  match lookup_store key (store n) with
  | Some _ => (Ok tt, log (OwlFile key) n)
  | None => (Raise (ServerError "not found"), log (OwlFile key) n)
  end.

(** The identifier the server gives to the next entity it stores. *)
Definition fresh_key (s : list (Z * J)) : Z :=
  foldr (fun e m => Z.max (e.1 + 1) m) 0 s.

Definition post (mk_blob : Z -> J) : M t J := fun n =>
  let j := mk_blob (fresh_key (store n)) in
  (Ok j,
   log Post (mk (store n ++ [(fresh_key (store n), j)])%list (trace n))).

Definition delete (key : option Z) : M t unit := fun n =>
  match key with
  | Some k =>
      match lookup_store k (store n) with
      | Some _ =>
          (Ok tt,
           log (Delete key)
               (mk (filter (fun e => e.1 ≠ k) (store n)) (trace n)))
      | None => (Raise (ServerError "not found"), log (Delete key) n)
      end
  | None => (Raise (ServerError "not found"), log (Delete key) n)
  end.

End Client.

Arguments t : clear implicits.

End Api.

(** ** Endpoints *)

(** The argument of a mutating call: ["object or raw id"]. *)
Inductive target (E : Type) : Type :=
| ByKey (key : Z)
| ByObject (e : E)
| ByOther (x : pyobj).
Arguments ByKey {E} key.
Arguments ByObject {E} e.
Arguments ByOther {E} x.

(** [IdentifiableEndpoint._apply]: [func] on the key itself, or on the
    [id] of an object of the endpoint's base type. *)
Definition _apply {W E A} (id_of : E -> option Z) (func : option Z -> M W A)
    (value : target E) : M W A :=
  match value with
  | ByKey key => func (Some key)
  | ByObject e => func (id_of e)
  | ByOther _ => raise (TypeError "Illegal type found in delete")
  end.

Module DataSetEndpoint.

(** Modelled from the spec: [DataSet] and its columns
    ([serene/elements/dataset.py], outside the two files modelled here):
    ["id, description, timestamps, derived Column list"].  A [DataSet] is
    built from the JSON blob of the server; [ds_oid] is the identity of
    the Python object. *)
Record Column : Type := mk_column {
  col_id : Z;
  col_name : string
}.

Record blob : Type := mk_blob {
  b_id : Z;
  b_description : string;
  b_columns : list Column
}.

Record DataSet : Type := mk_dataset {
  ds_oid : nat;
  ds_json : blob
}.

Definition ds_id (d : DataSet) : Z := b_id (ds_json d).
Definition ds_columns (d : DataSet) : list Column := b_columns (ds_json d).

(** The endpoint object, the server behind it and the caches of its
    methods.  [lru_cache] keeps one cache per decorated function, with
    [self] in the key; one endpoint object is modelled, so the caches of
    the two properties are keyed by [()].  [files] lists the paths that
    exist on disk, with the columns the server reads from each. *)
Record t : Type := mk {
  api : Api.t blob;
  files : list (string * list Column);
  next_oid : nat;
  items_cache : cache unit (list DataSet);
  get_cache : cache Z DataSet;
  columns_cache : cache unit (gmap Z Column)
}.

Definition set_api (a : Api.t blob) (w : t) : t :=
  mk a (files w) (next_oid w) (items_cache w) (get_cache w)
     (columns_cache w).

Definition set_items_cache (c : cache unit (list DataSet)) (w : t) : t :=
  mk (api w) (files w) (next_oid w) c (get_cache w) (columns_cache w).

Definition set_get_cache (c : cache Z DataSet) (w : t) : t :=
  mk (api w) (files w) (next_oid w) (items_cache w) c (columns_cache w).

Definition set_columns_cache (c : cache unit (gmap Z Column)) (w : t) : t :=
  mk (api w) (files w) (next_oid w) (items_cache w) (get_cache w) c.

#[global] Instance endpoint : IdentifiableEndpoint t := {
  items_cache_clear := set_items_cache []
}.

(** A call of [self._api]. *)
Definition call_api {A} (m : M (Api.t blob) A) : M t A := fun w =>
  let '(r, a) := m (api w) in (r, set_api a w).

(** [DataSet(json)]: a new object. *)
Definition new_dataset (j : blob) : M t DataSet := fun w =>
  (Ok (mk_dataset (next_oid w) j),
   mk (api w) (files w) (S (next_oid w)) (items_cache w) (get_cache w)
      (columns_cache w)).

(** [upload], for a file name; a data frame is first written to a
    temporary file and then goes the same way. *)
Definition upload (filename : string) (description : option string)
  : M t DataSet :=
  decache (fun w =>
    match List.find (fun f => bool_decide (f.1 = filename)) (files w) with
    | None => (Raise (ValueError "No filename given."), w)
    | Some (_, cols) =>
        (j ← call_api
               (Api.post (fun k => mk_blob k (default "" description) cols));
         new_dataset j) w
    end).

Definition remove (dataset : target DataSet) : M t unit :=
  decache (_apply (fun d => Some (ds_id d))
                  (fun k => call_api (Api.delete k)) dataset).

Definition items : M t (list DataSet) :=
  cached items_cache set_items_cache
    (fun _ =>
       keys ← call_api Api.keys;
       collect (fun k => j ← call_api (Api.item k); new_dataset j) keys)
    tt.

(** The body of [get], under its [lru_cache]: one call of the server and
    a new object. *)
Definition fetch (key : Z) : M t DataSet :=
  j ← call_api (Api.item key); new_dataset j.

Definition get (key : Z) : M t DataSet :=
  cached get_cache set_get_cache fetch key.

(** [ReadOnlyDict({c.id: c for c in cols})]. *)
Definition column_index (cols : list Column) : gmap Z Column :=
  foldl (fun m c => <[col_id c := c]> m) ∅ cols.

Definition columns : M t (gmap Z Column) :=
  cached columns_cache set_columns_cache
    (fun _ =>
       ds ← items;
       mret (column_index (concat (ds_columns <$> ds))))
    tt.

Definition init (a : Api.t blob) (fs : list (string * list Column)) : t :=
  mk a fs O [] [] [].

(** The reads of the endpoint, and a run of reads in a row, whatever each
    of them returns or raises. *)
Inductive read : Type :=
| Get (key : Z)
| Items
| Columns.

Definition run_read (r : read) (w : t) : t :=
  match r with
  | Get key => (get key w).2
  | Items => (items w).2
  | Columns => (columns w).2
  end.

Definition run_reads (rs : list read) (w : t) : t :=
  foldl (fun w r => run_read r w) w rs.

(** The keys that a run of reads asks [get] for. *)
Definition keys_read (rs : list read) : gset Z :=
  list_to_set
    (omap (fun r => match r with Get key => Some key | _ => None end) rs).

(** Computations that leave the cache of [get] as it is. *)
Definition keeps_get_cache {A} (m : M t A) : Prop :=
  ∀ w, get_cache (m w).2 = get_cache w.

(** A server that holds the datasets [0], ..., [n - 1], each with one
    column, and an endpoint that has not been used yet. *)
Definition sample_blob (i : nat) : blob :=
  mk_blob (Z.of_nat i) "" [mk_column (Z.of_nat i) "c"].

Definition sample_server (n : nat) : Api.t blob :=
  Api.mk ((fun i => (Z.of_nat i, sample_blob i)) <$> seq 0 n) [].

Definition sample (n : nat) : t := init (sample_server n) [].

(** The calls of the endpoint, the mutating ones included, and a run of
    calls in a row, whatever each of them returns or raises. *)
Inductive op : Type :=
| Read (r : read)
| Upload (filename : string) (description : option string)
| Remove (dataset : target DataSet).

Definition run_op (o : op) (w : t) : t :=
  match o with
  | Read r => run_read r w
  | Upload filename description => (upload filename description w).2
  | Remove dataset => (remove dataset w).2
  end.

Definition run_ops (os : list op) (w : t) : t :=
  foldl (fun w o => run_op o w) w os.

(** A server whose blobs carry the key under which they are stored. *)
Definition consistent (s : list (Z * blob)) : Prop :=
  ∀ k j, (k, j) ∈ s → b_id j = k.

(** The columns with the identifier [c], in the order of the list. *)
Definition columns_with (c : Z) (cols : list Column) : list Column :=
  filter (fun x => col_id x = c) cols.

End DataSetEndpoint.

(** Of the ontology endpoint, [remove], [items] and [get] are modelled;
    [upload] and [update] read and write files and are decorated like
    [remove]. *)
Module OntologyEndpoint.

Record blob : Type := mk_blob {
  b_id : Z;
  b_description : string
}.

Record t : Type := mk {
  api : Api.t blob;
  next_oid : nat;
  items_cache : cache unit (list Ontology)
}.

Definition set_api (a : Api.t blob) (w : t) : t :=
  mk a (next_oid w) (items_cache w).

Definition set_items_cache (c : cache unit (list Ontology)) (w : t) : t :=
  mk (api w) (next_oid w) c.

#[global] Instance endpoint : IdentifiableEndpoint t := {
  items_cache_clear := set_items_cache []
}.

Definition call_api {A} (m : M (Api.t blob) A) : M t A := fun w =>
  let '(r, a) := m (api w) in (r, set_api a w).

(** [on = Ontology(file=...); on.update(json)]: a new object, stored, with
    the identifier of the blob. *)
Definition new_ontology (j : blob) : M t Ontology := fun w =>
  (Ok (mkOntology (next_oid w) true (Some (b_id j))),
   mk (api w) (S (next_oid w)) (items_cache w)).

Definition remove (ontology : target Ontology) : M t unit :=
  decache (_apply onto_id (fun k => call_api (Api.delete k)) ontology).

Definition items : M t (list Ontology) :=
  cached items_cache set_items_cache
    (fun _ =>
       keys ← call_api Api.keys;
       collect (fun k =>
                  call_api (Api.owl_file k);;
                  j ← call_api (Api.item k);
                  new_ontology j) keys)
    tt.

Definition does_not_exist : exn :=
  Exception "Ontology does not exist on server".

(** [get] is not cached itself: it scans the cached [items]. *)
Definition get (key : Z) : M t Ontology :=
  os ← items;
  match List.find (fun o => bool_decide (onto_id o = Some key)) os with
  | Some o => mret o
  | None => raise does_not_exist
  end.

Definition init (a : Api.t blob) : t := mk a O [].

Inductive read : Type :=
| Get (key : Z)
| Items.

Definition run_read (r : read) (w : t) : t :=
  match r with
  | Get key => (get key w).2
  | Items => (items w).2
  end.

Definition run_reads (rs : list read) (w : t) : t :=
  foldl (fun w r => run_read r w) w rs.

Definition sample_server (n : nat) : Api.t blob :=
  Api.mk ((fun i => (Z.of_nat i, mk_blob (Z.of_nat i) "")) <$> seq 0 n) [].

Definition sample (n : nat) : t := init (sample_server n).

(** A server whose blobs carry the key under which they are stored. *)
Definition consistent (s : list (Z * blob)) : Prop :=
  ∀ k j, (k, j) ∈ s → b_id j = k.

(** The calls that the loop of [items] makes for the keys it lists. *)
Definition listing (keys : list Z) : list Api.call :=
  concat ((fun k => [Api.OwlFile k; Api.Item k]) <$> keys).

End OntologyEndpoint.

Module OctopusEndpoint.

Record t : Type := mk {
  api : Api.t Octopus.json;
  items_cache : cache unit (list Octopus.t);
  get_cache : cache Z Octopus.t
}.

Definition set_api (a : Api.t Octopus.json) (w : t) : t :=
  mk a (items_cache w) (get_cache w).

Definition set_items_cache (c : cache unit (list Octopus.t)) (w : t) : t :=
  mk (api w) c (get_cache w).

Definition set_get_cache (c : cache Z Octopus.t) (w : t) : t :=
  mk (api w) (items_cache w) c.

#[global] Instance endpoint : IdentifiableEndpoint t := {
  items_cache_clear := set_items_cache []
}.

Definition call_api {A} (m : M (Api.t Octopus.json) A) : M t A := fun w =>
  let '(r, a) := m (api w) in (r, set_api a w).

(** The argument of [upload]: an [Octopus], or an object of another class,
    on which the [assert] fails. *)
Inductive upload_arg : Type :=
| AnOctopus (o : Octopus.t)
| NotAnOctopus (x : pyobj).

Definition not_iterable : exn :=
  TypeError "'NoneType' object is not iterable".

(** The messages of the two dependency checks name the entity by its
    [repr]; the classes being modelled, their [repr] is taken to show the
    identity of the object. *)
Definition ssd_not_stored (s : SSD) : exn :=
  ValueError ("SSD is not stored on the server: SSD(" +:+ pretty (ssd_oid s)
              +:+ "). Use <Serene>.ssd.upload(<SSD>) to update.").

Definition ontology_not_stored (o : Ontology) : exn :=
  ValueError ("Ontology is not stored on the server: Ontology("
              +:+ pretty (onto_oid o)
              +:+ "). Use <Serene>.ontologies.upload(<Ontology>) to update.").

(** [for ssd in octopus.ssds: if not ssd.stored: raise ValueError(...)]. *)
Fixpoint check_ssds (l : list SSD) : result unit :=
  match l with
  | [] => Ok tt
  | s :: l' =>
      if negb (ssd_stored s) then Raise (ssd_not_stored s) else check_ssds l'
  end.

Fixpoint check_ontologies (l : list Ontology) : result unit :=
  match l with
  | [] => Ok tt
  | o :: l' =>
      if negb (onto_stored o) then Raise (ontology_not_stored o)
      else check_ontologies l'
  end.

(** The two loops that [upload] runs before it posts. *)
Definition check_dependencies (octopus : Octopus.t) : result unit :=
  match Octopus.ssds octopus with
  | None => Raise not_iterable
  | Some ss =>
      check_ssds ss;;
      match Octopus.ontologies octopus with
      | None => Raise not_iterable
      | Some os => check_ontologies os
      end
  end.

(** The blob the server answers a [post] with: the entity as posted, under
    the key the server gives it. *)
Definition posted (octopus : Octopus.t) (key : Z) : Octopus.json :=
  Octopus.mk_json key
    (default "unknown" (Octopus.name octopus))
    (default "" (Octopus.description octopus))
    (omap ssd_id (default [] (Octopus.ssds octopus)))
    (omap onto_id (default [] (Octopus.ontologies octopus)))
    key
    (Octopus.modeling_props octopus).

(** [upload]: its outcome, the state in which it leaves the octopus it was
    given, and the state of the endpoint.  The method is decorated with
    [decache], so the cache of [items] is cleared first.  It ends with
    [octopus.update(response, self._session)], a call with two
    arguments. *)
Definition upload (octopus : upload_arg)
  : t -> result unit * option Octopus.t * t :=
  fun w =>
    let w := items_cache_clear w in
    match octopus with
    | NotAnOctopus _ => (Raise AssertionError, None, w)
    | AnOctopus o =>
        match check_dependencies o with
        | Raise e => (Raise e, Some o, w)
        | Ok _ =>
            match call_api (Api.post (posted o)) w with
            | (Raise e, w) => (Raise e, Some o, w)
            | (Ok response, w) =>
                let '(o, r) :=
                  Octopus.update [Octopus.AJson response; Octopus.ASession] o
                in (r, Some o, w)
            end
        end
    end.

Definition remove (octopus : target Octopus.t) : M t unit :=
  decache (_apply Octopus.id (fun k => call_api (Api.delete k)) octopus).

Section Items.

Variable ModelType_values : list string.
Variable SamplingStrategy_values : list string.

(** [o = Octopus().update(blob, self._session)]. *)
Definition hydrated (blob : Octopus.json) : result Octopus.t :=
  o ← Octopus.init ModelType_values SamplingStrategy_values
        Octopus.default_args;
  let '(o, r) := Octopus.update [Octopus.AJson blob; Octopus.ASession] o in
  r;; Ok o.

Definition items : M t (list Octopus.t) :=
  cached items_cache set_items_cache
    (fun _ =>
       keys ← call_api Api.keys;
       collect (fun k =>
                  blob ← call_api (Api.item k);
                  pure (hydrated blob)) keys)
    tt.

Definition does_not_exist : exn :=
  Exception "Octopus does not exist on server".

Definition get (key : Z) : M t Octopus.t :=
  cached get_cache set_get_cache
    (fun key =>
       os ← items;
       match
         List.find (fun o => bool_decide (Octopus.id o = Some key)) os
       with
       | Some o => mret o
       | None => raise does_not_exist
       end)
    key.

End Items.

Definition init (a : Api.t Octopus.json) : t := mk a [] [].

End OctopusEndpoint.

(** ** The pattern table of [get_patterns] *)

(** Of [Octopus.get_patterns], the composition of the rows that are written
    to the csv file: the two lookup tables, the list of edge keys of each
    pattern and the sort.  The alignment graph and the lines of the two
    files that the server wrote are taken as they are read. *)
Module Patterns.

Import Karma.

(** The lines of [edges.json] and of [graphs.json], as [json.loads] gives
    them, by the keys that are read: ["id"] and ["data"]["alignId"] of an
    edge, ["id"], ["data"]["support"] and ["data"]["__variable_mapping"]
    of a graph.  The identifier of an edge is a string, as are the pieces
    of the variable mapping it is looked up with. *)
Record edge_line : Type := mk_edge_line {
  el_id : string;
  el_alignId : string
}.

Record graph_line : Type := mk_graph_line {
  gl_id : Z;
  gl_support : Z;
  gl_variable_mapping : string
}.

(** A row of the table: [[pattern, support, num_edges, edge_keys]]. *)
Record row : Type := mk_row {
  r_pattern : Z;
  r_support : Z;
  r_num_edges : nat;
  r_edge_keys : list nat
}.

(** [for (_, _, key, data) in align_edges:
       uri_lookup[data["alignId"]] = key]. *)
Definition uri_lookup (align_edges : list edge) : gmap string nat :=
  foldl (fun m e => <[ld_alignId (e_data e) := e_key e]> m) ∅ align_edges.

(** The loop over the lines of [edges.json]: a line whose alignment
    identifier is unknown is logged and passed over. *)
Definition edge_lines (uri_lookup : gmap string nat)
    (lines : list edge_line) : gmap string nat :=
  foldl (fun m proc =>
           match uri_lookup !! el_alignId proc with
           | Some key => <[el_id proc := key]> m
           | None => m
           end) ∅ lines.

(** [s.replace(c, "")] for a character [c]. *)
Fixpoint remove_char (c : ascii) (s : string) : string :=
  match s with
  | EmptyString => EmptyString
  | String c' s' =>
      if bool_decide (c' = c) then remove_char c s'
      else String c' (remove_char c s')
  end.

(** The characters that [str.strip()] removes, among the code points
    below 256 that a character of a string stands for here. *)
Definition is_space (c : ascii) : bool :=
  bool_decide
    (c ∈ [" "; "009"; "010"; "011"; "012"; "013"; "028"; "029"; "030";
          "031"; "133"; "160"]%char).

Fixpoint lstrip (s : string) : string :=
  match s with
  | EmptyString => EmptyString
  | String c s' => if is_space c then lstrip s' else s
  end.

Definition strip (s : string) : string :=
  String.rev (lstrip (String.rev (lstrip s))).

(** The body of [for e in el], on the list of edges found so far; [None]
    stands for the [IndexError] of [pos[1]] on an entry that holds
    no ["="]. *)
Definition entry_step (edge_lines : gmap string nat) (edges : list nat)
    (e : string) : option (list nat) :=
  match split "=" (strip e) with
  | pos0 :: rest =>
      if String.prefix "__e" pos0 then
        match rest with
        | pos1 :: _ =>
            match edge_lines !! pos1 with
            | Some key => Some (edges ++ [key])%list
            | None => Some edges
            end
        | [] => None
        end
      else Some edges
  | [] => None
  end.

Fixpoint entries (edge_lines : gmap string nat) (edges : list nat)
    (el : list string) : option (list nat) :=
  match el with
  | [] => Some edges
  | e :: el' =>
      edges' ← entry_step edge_lines edges e;
      entries edge_lines edges' el'
  end.

(** [sorted] and [list.sort] are stable: an insertion sort that puts an
    element before the elements it is not above gives the same list. *)
Fixpoint insert_by {A} (le : A -> A -> bool) (x : A) (l : list A) : list A :=
  match l with
  | [] => [x]
  | y :: l' => if le x y then x :: l else y :: insert_by le x l'
  end.

Definition sort_by {A} (le : A -> A -> bool) (l : list A) : list A :=
  foldr (insert_by le) [] l.

(** The order of two lists of integers: by the first position at which
    they differ, a proper prefix coming first. *)
Fixpoint keys_le (a b : list nat) : bool :=
  match a, b with
  | [], _ => true
  | _ :: _, [] => false
  | x :: a', y :: b' =>
      if (x <? y)%nat then true
      else if (y <? x)%nat then false
      else keys_le a' b'
  end.

(** The body of the loop over the lines of [graphs.json]. *)
Definition graph_row (edge_lines : gmap string nat) (proc : graph_line)
  : option row :=
  let el :=
    split "," (remove_char "{" (remove_char "}" (gl_variable_mapping proc)))
  in
  edges ← entries edge_lines [] el;
  Some (mk_row (gl_id proc) (gl_support proc) (length edges)
               (sort_by Nat.leb edges)).

(** The rows of the table, in the order in which they are written. *)
Definition pattern_rows (align_edges : list edge)
    (edges_j : list edge_line) (graph_j : list graph_line)
  : option (list row) :=
  let uri_lookup := uri_lookup align_edges in
  let edge_lines := edge_lines uri_lookup edges_j in
  graph_lines ← mapM (graph_row edge_lines) graph_j;
  Some (sort_by (fun x y => keys_le (r_edge_keys x) (r_edge_keys y))
                graph_lines).

(** *** Notions used to state the properties of the table *)

Definition rows_le (x y : row) : Prop :=
  keys_le (r_edge_keys x) (r_edge_keys y) = true.

(** The rows with the list of edge keys [ks], in the order of [rows]. *)
Definition rows_with (ks : list nat) (rows : list row) : list row :=
  filter (fun r => r_edge_keys r = ks) rows.

(** An alignment with two links, and the files of two patterns: the first
    pattern holds both links, the second the first link and an edge that
    the alignment does not have. *)
Definition sample_alignment : kdata :=
  mk_kdata
    [ mk_knode "n1" "InternalNode" (Some "ex:Person");
      mk_knode "n2" "DataNode" None;
      mk_knode "n3" "InternalNode" (Some "ex:Organization") ]
    [ mk_klink "n1---ex:name---n2" "DataPropertyLink" 1%Q;
      mk_klink "n1---ex:worksFor---n3" "ObjectPropertyLink" 1%Q ].

Definition sample_edges_j : list edge_line :=
  [ mk_edge_line "7" "n1---ex:worksFor---n3";
    mk_edge_line "8" "n1---ex:name---n2";
    mk_edge_line "9" "n1---ex:knows---n1" ].

Definition sample_graph_j : list graph_line :=
  [ mk_graph_line 1 12 "{__e0=7, __v0=n1, __e1=8}";
    mk_graph_line 2 30 "{__v0=n1, __e0=8, __e1=9}" ].

End Patterns.

(** * Properties *)

(** ** Python helpers *)

Lemma list_remove_None {A} `{EqDecision A} (x : A) (l : list A) :
  x ∉ l → list_remove x l = None.
Proof.
  induction l as [|y l IH]; simpl; [done|].
  intros Hx. apply not_elem_of_cons in Hx as [Hne Hx].
  destruct (decide (y = x)); [congruence|]. by rewrite IH.
Qed.

(** ** The Octopus object *)

Section OctopusFacts.

Import Octopus.

Lemma prop_in_range_absent d name a b i :
  d !! name = None → prop_in_range d name a b i = Ok tt.
Proof. intros Hd. unfold prop_in_range. by rewrite Hd. Qed.

Lemma run_checks_agree d d' cs :
  (∀ name, name ∈ cs.*1 → d !! name = d' !! name) →
  run_checks d cs = run_checks d' cs.
Proof.
  induction cs as [|[name [[a b] i]] cs IH]; simpl; [done|].
  intros Hagree. unfold prop_in_range.
  rewrite (Hagree name) by (by left).
  rewrite IH; [done|]. intros n Hn. apply Hagree. by right.
Qed.

Lemma run_checks_in_range d cs :
  (∀ name a b i x, (name, (a, b, i)) ∈ cs → d !! name = Some x →
                   in_range x a b i = Ok true) →
  run_checks d cs = Ok tt.
Proof.
  induction cs as [|[name [[a b] i]] cs IH]; simpl; [done|].
  intros Hin. unfold prop_in_range.
  destruct (d !! name) as [x|] eqn:E.
  - rewrite (Hin name a b i x); [|by left|done]. simpl.
    apply IH. intros. eapply Hin; [by right|done].
  - simpl. apply IH. intros. eapply Hin; [by right|done].
Qed.

Lemma run_checks_out_of_range d cs name a b i x :
  (name, (a, b, i)) ∈ cs → d !! name = Some x →
  in_range x a b i = Ok false →
  is_ok (run_checks d cs) = false.
Proof.
  induction cs as [|[name' [[a' b'] i']] cs IH]; simpl.
  - intros H0. by apply elem_of_nil in H0.
  - intros [Heq|Hin]%elem_of_cons Hd Hr.
    + injection Heq as <- <- <- <-. unfold prop_in_range.
      by rewrite Hd, Hr.
    + destruct (prop_in_range d name' a' b' i') as [[]|e]; simpl; [|done].
      by apply IH.
Qed.

Lemma in_range_numeric x a b i :
  is_Some (as_num x) → is_Some (as_num a) → is_Some (as_num b) →
  ∃ r, in_range x a b i = Ok r.
Proof.
  intros [nx Hx] [na Ha] [nb Hb]. unfold in_range, py_cmp.
  rewrite Hx, Ha, Hb. destruct i; simpl.
  - destruct (num_le na nx); by eexists.
  - destruct (num_lt na nx); by eexists.
Qed.

(** With numbers everywhere a check can only fail by its own
    [ValueError]. *)
Lemma run_checks_numeric d cs :
  (∀ name a b i, (name, (a, b, i)) ∈ cs →
                 is_Some (as_num a) ∧ is_Some (as_num b)) →
  (∀ name x, name ∈ cs.*1 → d !! name = Some x → is_Some (as_num x)) →
  is_ok (run_checks d cs) = false →
  is_value_error (run_checks d cs) = true.
Proof.
  induction cs as [|[name [[a b] i]] cs IH]; simpl; [done|].
  intros Hbounds Hnum. unfold prop_in_range.
  destruct (d !! name) as [x|] eqn:E; simpl.
  - destruct (Hbounds name a b i) as [Ha Hb]; [by left|].
    destruct (in_range_numeric x a b i) as [r ->]; [|done|done|].
    { apply (Hnum name); [by left|done]. }
    simpl. destruct r; simpl; [|done].
    apply IH.
    + intros. eapply Hbounds. by right.
    + intros. eapply Hnum; [by right|done].
  - apply IH.
    + intros. eapply Hbounds. by right.
    + intros. eapply Hnum; [by right|done].
Qed.

Lemma checked_bounds_numeric name a b i :
  (name, (a, b, i)) ∈ checked_props →
  is_Some (as_num a) ∧ is_Some (as_num b).
Proof.
  unfold checked_props. rewrite !elem_of_cons, elem_of_nil.
  intros H0; repeat destruct H0 as [H0|H0]; try done;
    injection H0 as -> -> -> ->; split; by eexists.
Qed.

(** Goes through the names of the checked properties. *)
Ltac listed_key H :=
  simpl in H; rewrite !elem_of_cons, elem_of_nil in H;
  repeat destruct H as [H|H]; try done.

(** C9.  [check_modeling_props] returns without raising when
    [modeling_props] is not a dict ([None], a list).  When it is a dict,
    the outcome depends on the values of the seven named keys only: two
    dicts that agree on them are treated alike, so an unlisted key is
    accepted whatever it holds, and a listed key that is absent is passed
    over, a dict with none of them being accepted. *)
Theorem check_modeling_props_checks_seven_keys :
  checked_props.*1 =
    ["mappingBranchFactor"; "numCandidateMappings"; "topkSteinerTrees";
     "numSemanticTypes"; "confidenceWeight"; "coherenceWeight";
     "sizeWeight"] ∧
  (∀ o, (∀ d, modeling_props o ≠ MPDict d) →
        check_modeling_props o = Ok tt) ∧
  (∀ o o' d d',
     modeling_props o = MPDict d → modeling_props o' = MPDict d' →
     (∀ name, name ∈ checked_props.*1 → d !! name = d' !! name) →
     check_modeling_props o = check_modeling_props o') ∧
  (∀ d key a b inclusive,
     d !! key = None → prop_in_range d key a b inclusive = Ok tt) ∧
  (∀ o d,
     modeling_props o = MPDict d →
     (∀ name, name ∈ checked_props.*1 → d !! name = None) →
     check_modeling_props o = Ok tt).
Proof.
  split; [reflexivity|]. split; [|split; [|split]].
  - intros o Hnot. unfold check_modeling_props.
    destruct (modeling_props o) as [| |d]; [done|done|].
    by destruct (Hnot d).
  - intros o o' d d' Ho Ho' Hagree. unfold check_modeling_props.
    rewrite Ho, Ho'. by apply run_checks_agree.
  - intros. by apply prop_in_range_absent.
  - intros o d Ho Habsent. unfold check_modeling_props. rewrite Ho.
    apply run_checks_in_range. intros name a b i x Hin Hx.
    rewrite (Habsent name) in Hx; [done|].
    apply list_elem_of_fmap. by exists (name, (a, b, i)).
Qed.

Lemma check_modeling_props_checks_seven_keys_witness :
  check_modeling_props
    (mk None false None None None None "" "" 1 1 (MPList [VInt 7]) None)
  = Ok tt ∧
  check_modeling_props
    (mk None false None None None None "" "" 1 1
       (MPDict (<["unlisted" := VStr "anything"]> weight_in_range)) None)
  = check_modeling_props
      (mk None false None None None None "" "" 1 1 (MPDict weight_in_range)
         None) ∧
  check_modeling_props
    (mk None false None None None None "" "" 1 1
       (MPDict {[ "unlisted" := VInt (-5) ]}) None)
  = Ok tt.
Proof.
  destruct check_modeling_props_checks_seven_keys
    as (_ & Hnot & Hagree & _ & Habsent).
  split; [|split].
  - apply Hnot. simpl. intros d. discriminate.
  - eapply Hagree; [reflexivity|reflexivity|].
    intros name Hname. unfold weight_in_range.
    rewrite lookup_insert_ne; [done|].
    intros <-. by listed_key Hname.
  - eapply Habsent; [reflexivity|].
    intros name Hname. apply lookup_singleton_None.
    intros <-. by listed_key Hname.
Defined.

(** The constructor of an [Octopus] does not look at [modeling_props]:
    with the spec's out-of-range dictionary it returns the object. *)
Lemma init_accepts_out_of_range_props :
  init default_model_types default_sampling_strategies
       (with_modeling_props (MPDict weight_too_large) default_args)
  = Ok (mk None false None None (Some "") (Some "") "randomForest"
           "NoResampling" 10 10 (MPDict weight_too_large) None).
Proof. reflexivity. Qed.

(** C2, as the code has it.  Constructing an Octopus never validates
    [modeling_props]: whether [__init__] raises does not depend on them,
    and the object it returns holds them as given.  The ranges are checked
    when [check_modeling_props] is called: on a dict in which one of the
    seven properties is out of its range the call raises, a [ValueError]
    when the checked properties hold numbers, and on a dict whose checked
    properties are all within range it returns. *)
Theorem modeling_props_checked_on_demand
    (model_types sampling : list string) (a : init_args)
    (d : gmap string pyval) (o : t) :
  init model_types sampling (with_modeling_props (MPDict d) a) = Ok o →
  (∀ p, is_ok (init model_types sampling (with_modeling_props p a)) = true) ∧
  modeling_props o = MPDict d ∧
  (out_of_range d →
     is_ok (check_modeling_props o) = false ∧
     (numeric d → is_value_error (check_modeling_props o) = true)) ∧
  (within_ranges d → check_modeling_props o = Ok tt).
Proof.
  unfold init. simpl.
  destruct (negb (bool_decide (a_model_type a ∈ model_types))); [done|].
  destruct (negb (bool_decide (a_resampling_strategy a ∈ sampling)));
    [done|].
  intros [= <-]. split; [done|]. split; [done|].
  unfold check_modeling_props. cbn [modeling_props]. split.
  - intros (name & lo & hi & i & x & Hin & Hx & Hr).
    assert (is_ok (run_checks d checked_props) = false) as Hfail
      by (eapply run_checks_out_of_range; eauto).
    split; [done|]. intros Hnum.
    apply run_checks_numeric; [|done|done].
    intros ? ? ? ?. apply checked_bounds_numeric.
  - intros Hin. by apply run_checks_in_range.
Qed.

Lemma modeling_props_checked_on_demand_witness :
  (∃ o, init default_model_types default_sampling_strategies
             (with_modeling_props (MPDict weight_too_large) default_args)
        = Ok o ∧
        is_value_error (check_modeling_props o) = true) ∧
  (∃ o, init default_model_types default_sampling_strategies
             (with_modeling_props (MPDict weight_in_range) default_args)
        = Ok o ∧
        check_modeling_props o = Ok tt).
Proof.
  split.
  - eexists. split; [reflexivity|].
    eapply (modeling_props_checked_on_demand default_model_types
              default_sampling_strategies default_args weight_too_large);
      [reflexivity| |].
    + exists "confidenceWeight", zero, one, true, (VFloat (Fin (3 # 2))).
      split; [|split; reflexivity].
      unfold checked_props. do 4 right. by left.
    + intros name x _. unfold weight_too_large.
      intros [_ <-]%lookup_singleton_Some. by eexists.
  - eexists. split; [reflexivity|].
    eapply (modeling_props_checked_on_demand default_model_types
              default_sampling_strategies default_args weight_in_range);
      [reflexivity|].
    intros name lo hi i x Hin. unfold weight_in_range.
    intros [<- <-]%lookup_singleton_Some.
    unfold checked_props in Hin. rewrite !elem_of_cons, elem_of_nil in Hin.
    repeat destruct Hin as [Hin|Hin]; try done.
    by simplify_eq.
Defined.

(** On the object that [Octopus()] constructs, [ssds] is [None]: [add]
    of an SSD raises [AttributeError] and appends nothing. *)
Lemma add_on_default_octopus :
  init default_model_types default_sampling_strategies default_args
  = Ok fresh ∧
  add (OSSD (mkSSD 0 true (Some 1))) fresh
  = (fresh, Raise (none_has_no "append")) ∧
  ssds fresh = None.
Proof. repeat split. Qed.

(** C4, as the code has it.  On an Octopus whose [ssds] is a list, [add]
    of an SSD returns, leaves the object unstored and appends the SSD to
    [ssds], the ontologies being untouched; symmetrically for an Ontology
    on an Octopus whose [ontologies] is a list.  On every Octopus, [add]
    of a value that is neither raises the [ValueError] of the method and
    leaves the object, so also [ssds], [ontologies] and [stored], as it
    was. *)
Theorem add_appends_and_unstores (o : t) :
  (∀ s l, ssds o = Some l →
     ∃ o', add (OSSD s) o = (o', Ok tt) ∧ stored o' = false ∧
           ssds o' = Some (l ++ [s])%list ∧ ontologies o' = ontologies o) ∧
  (∀ x l, ontologies o = Some l →
     ∃ o', add (OOntology x) o = (o', Ok tt) ∧ stored o' = false ∧
           ontologies o' = Some (l ++ [x])%list ∧ ssds o' = ssds o) ∧
  (∀ v, (∀ s, v ≠ OSSD s) → (∀ x, v ≠ OOntology x) →
     add v o = (o, Raise only_ssd_or_ontology_added)).
Proof.
  split; [|split].
  - intros s l Hl. unfold add. cbn [ssds set_stored]. rewrite Hl.
    eexists. split; [reflexivity|]. done.
  - intros x l Hl. unfold add. cbn [ontologies set_stored]. rewrite Hl.
    eexists. split; [reflexivity|]. done.
  - intros v Hs Hx. destruct v as [s|x| | |]; try done.
    + by destruct (Hs s).
    + by destruct (Hx x).
Qed.

Lemma add_appends_and_unstores_witness :
  let o := mk (Some 4) true (Some [mkSSD 0 true (Some 1)]) (Some [])
              (Some "o") (Some "") "randomForest" "NoResampling" 10 10
              MPNone (Some 2) in
  (∃ o', add (OSSD (mkSSD 1 false None)) o = (o', Ok tt) ∧
         stored o' = false ∧
         ssds o' = Some [mkSSD 0 true (Some 1); mkSSD 1 false None] ∧
         ontologies o' = ontologies o) ∧
  (∃ o', add (OOntology (mkOntology 2 true (Some 3))) o = (o', Ok tt) ∧
         stored o' = false ∧
         ontologies o' = Some [mkOntology 2 true (Some 3)] ∧
         ssds o' = ssds o) ∧
  add (OStr "ssd") o = (o, Raise only_ssd_or_ontology_added).
Proof.
  intros o. destruct (add_appends_and_unstores o) as (Hs & Hx & Hv).
  split; [|split].
  - apply (Hs (mkSSD 1 false None) [mkSSD 0 true (Some 1)]). reflexivity.
  - apply (Hx (mkOntology 2 true (Some 3)) []). reflexivity.
  - apply Hv; intros ?; discriminate.
Defined.

(** C8.  [remove] of an SSD that is not in [ssds] raises, from the removal
    on the list (its [ValueError] when [ssds] is a list), and yet leaves
    the object unstored, whatever [stored] was before: the flag is cleared
    before the removal is tried.  Nothing else changes.  The same holds
    for an Ontology that is not in [ontologies]. *)
Theorem remove_missing_clears_stored (o : t) :
  (∀ v, (∀ l, ssds o = Some l → v ∉ l) →
     ∃ o' e, remove (OSSD v) o = (o', Raise e) ∧ stored o' = false ∧
             o' = set_stored false o ∧
             (is_Some (ssds o) → e = not_in_list)) ∧
  (∀ v, (∀ l, ontologies o = Some l → v ∉ l) →
     ∃ o' e, remove (OOntology v) o = (o', Raise e) ∧ stored o' = false ∧
             o' = set_stored false o ∧
             (is_Some (ontologies o) → e = not_in_list)).
Proof.
  split.
  - intros v Hv. unfold remove. cbn [ssds set_stored].
    destruct (ssds o) as [l|] eqn:Hl.
    + rewrite (list_remove_None v l) by (by apply Hv).
      eexists _, _. by repeat split.
    + eexists _, _. repeat split. by intros [? ?].
  - intros v Hv. unfold remove. cbn [ontologies set_stored].
    destruct (ontologies o) as [l|] eqn:Hl.
    + rewrite (list_remove_None v l) by (by apply Hv).
      eexists _, _. by repeat split.
    + eexists _, _. repeat split. by intros [? ?].
Qed.

Lemma remove_missing_clears_stored_witness :
  let o := mk (Some 4) true (Some [mkSSD 0 true (Some 1)]) (Some [])
              (Some "o") (Some "") "randomForest" "NoResampling" 10 10
              MPNone (Some 2) in
  stored o = true ∧
  (∃ o' e, remove (OSSD (mkSSD 1 true (Some 2))) o = (o', Raise e) ∧
           stored o' = false ∧ o' = set_stored false o ∧
           (is_Some (ssds o) → e = not_in_list)) ∧
  (∃ o' e, remove (OOntology (mkOntology 2 true (Some 3))) o
           = (o', Raise e) ∧
           stored o' = false ∧ o' = set_stored false o ∧
           (is_Some (ontologies o) → e = not_in_list)).
Proof.
  intros o. destruct (remove_missing_clears_stored o) as (Hs & Hx).
  split; [reflexivity|]. split.
  - apply Hs. intros l [= <-]. rewrite list_elem_of_singleton. discriminate.
  - apply Hx. intros l [= <-]. apply not_elem_of_nil.
Defined.

End OctopusFacts.

(** ** The converter *)

Section LoopFacts.

Import Karma.

Lemma for_each_app {A B} (body : B → A → result B) b l1 l2 :
  for_each body b (l1 ++ l2)%list
  = for_each body b l1 ≫= λ b', for_each body b' l2.
Proof.
  revert b. induction l1 as [|x l1 IH]; intros b; simpl; [done|].
  destruct (body b x) as [b'|e]; simpl; [apply IH|done].
Qed.

(** A loop that gives each element the next index under its key. *)
Context {A G : Type} (key : A → string).
Context (step : nat * gmap string nat * G → A →
                result (nat * gmap string nat * G)).
Hypothesis step_index : ∀ c m g x c' m' g',
  step (c, m, g) x = Ok (c', m', g') → c' = S c ∧ m' = <[key x := c]> m.

Lemma index_loop_frame l c m g c' m' g' id :
  for_each step (c, m, g) l = Ok (c', m', g') →
  id ∉ key <$> l → m' !! id = m !! id.
Proof.
  revert c m g. induction l as [|x l IH]; intros c m g; simpl.
  - by intros [= _ <- _].
  - destruct (step (c, m, g) x) as [[[c1 m1] g1]|e] eqn:E; simpl; [|done].
    apply step_index in E as [-> ->].
    intros Hrun [Hne Hid]%not_elem_of_cons.
    rewrite (IH _ _ _ Hrun Hid). by rewrite lookup_insert_ne.
Qed.

Lemma index_loop_sound l c m g c' m' g' id j :
  for_each step (c, m, g) l = Ok (c', m', g') →
  m' !! id = Some j →
  ((c ≤ j)%nat ∧ (key <$> l) !! (j - c)%nat = Some id) ∨
  (m !! id = Some j ∧ id ∉ key <$> l).
Proof.
  revert c m g. induction l as [|x l IH]; intros c m g; simpl.
  - intros [= _ <- _] Hj. right. split; [done|]. apply not_elem_of_nil.
  - destruct (step (c, m, g) x) as [[[c1 m1] g1]|e] eqn:E; simpl; [|done].
    apply step_index in E as [-> ->].
    intros Hrun Hj.
    destruct (IH _ _ _ Hrun Hj) as [[Hle Hl]|[Hm Hid]].
    + left. split; [lia|].
      replace (j - c)%nat with (S (j - S c)) by lia. done.
    + destruct (decide (key x = id)) as [<-|Hne].
      * rewrite lookup_insert_eq in Hm. injection Hm as <-.
        left. split; [done|]. by rewrite Nat.sub_diag.
      * rewrite lookup_insert_ne in Hm by done.
        right. split; [done|]. by apply not_elem_of_cons.
Qed.

Lemma index_loop_total l c m g c' m' g' id :
  for_each step (c, m, g) l = Ok (c', m', g') →
  id ∈ key <$> l → is_Some (m' !! id).
Proof.
  revert c m g. induction l as [|x l IH]; intros c m g; simpl.
  - intros _ H0. by apply elem_of_nil in H0.
  - destruct (step (c, m, g) x) as [[[c1 m1] g1]|e] eqn:E; simpl; [|done].
    apply step_index in E as [-> ->].
    intros Hrun Hid.
    destruct (decide (id ∈ key <$> l)) as [Hin|Hout].
    + by apply (IH _ _ _ Hrun).
    + apply elem_of_cons in Hid as [->|Hid]; [|done].
      rewrite (index_loop_frame _ _ _ _ _ _ _ _ Hrun Hout).
      rewrite lookup_insert_eq. by eexists.
Qed.

Lemma index_loop_positions l c m g c' m' g' i id :
  for_each step (c, m, g) l = Ok (c', m', g') →
  NoDup (key <$> l) →
  (key <$> l) !! i = Some id → m' !! id = Some (c + i)%nat.
Proof.
  revert c m g i. induction l as [|x l IH]; intros c m g i; simpl; [done|].
  destruct (step (c, m, g) x) as [[[c1 m1] g1]|e] eqn:E; simpl; [|done].
  apply step_index in E as [-> ->].
  intros Hrun [Hx Hnd]%NoDup_cons Hi. destruct i as [|i]; simpl in Hi.
  - injection Hi as <-.
    rewrite (index_loop_frame _ _ _ _ _ _ _ _ Hrun Hx).
    rewrite lookup_insert_eq. f_equal. lia.
  - rewrite (IH _ _ _ _ Hrun Hnd Hi). f_equal. lia.
Qed.

(** With a repeated key the table keeps the index given last: no element
    after position [j - c] has the key that is mapped to [j]. *)
Lemma index_loop_last l c m g c' m' g' id i j :
  for_each step (c, m, g) l = Ok (c', m', g') →
  m' !! id = Some j → (key <$> l) !! i = Some id → (c + i ≤ j)%nat.
Proof.
  revert c m g i. induction l as [|x l IH]; intros c m g i; simpl; [done|].
  destruct (step (c, m, g) x) as [[[c1 m1] g1]|e] eqn:E; simpl; [|done].
  pose proof E as [-> ->]%step_index.
  intros Hrun Hj Hi. destruct i as [|i]; simpl in Hi.
  - injection Hi as <-.
    assert (for_each step (c, m, g) (x :: l) = Ok (c', m', g')) as Hall
      by (simpl; by rewrite E).
    destruct (index_loop_sound _ _ _ _ _ _ _ _ _ Hall Hj)
      as [[Hle _]|[_ Hout]]; [lia|].
    destruct Hout. simpl. by left.
  - specialize (IH _ _ _ _ Hrun Hj Hi). lia.
Qed.

End LoopFacts.

Section KarmaFacts.

Import Karma.

Variable get_label : string → string.
Variable get_prefix : string → string.

#[local] Arguments Karma.link_step : simpl never.
#[local] Arguments Karma.node_step : simpl never.

Local Abbreviation node_step := (Karma.node_step get_label get_prefix).
Local Abbreviation link_step := (Karma.link_step get_label get_prefix).
Local Abbreviation initial_data := (Karma.initial_data get_label get_prefix).
Local Abbreviation node_loop := (Karma.node_loop get_label get_prefix).
Local Abbreviation link_loop := (Karma.link_loop get_label get_prefix).
Local Abbreviation convert_karma_graph :=
  (Karma.convert_karma_graph get_label get_prefix).

Lemma node_step_index c m g x c' m' g' :
  node_step (c, m, g) x = Ok (c', m', g') →
  c' = S c ∧ m' = <[n_id x := c]> m.
Proof.
  unfold Karma.node_step.
  destruct (initial_data x) as [d|e]; simpl; [|done].
  by intros [= <- <- _].
Qed.

Lemma link_step_index nm c m g x c' m' g' :
  link_step nm (c, m, g) x = Ok (c', m', g') →
  c' = S c ∧ m' = <[l_id x := c]> m.
Proof.
  unfold Karma.link_step.
  destruct (split separator (l_id x)) as [|s [|uri [|t [|]]]]; try done.
  destruct (getitem nm s) as [u|]; simpl; [|done].
  destruct (getitem nm t) as [v|]; simpl; [|done].
  destruct (if is_terminal x then _ else _) as [g1|]; simpl; [|done].
  by intros [= <- <- _].
Qed.

Lemma initial_data_ok n :
  (is_internal n = true → is_Some (n_label_uri n)) →
  ∃ d, initial_data n = Ok d.
Proof.
  unfold Karma.initial_data, label_uri. intros Huri.
  destruct (is_internal n); simpl; [|by eexists].
  destruct Huri as [uri ->]; [done|]. simpl. by eexists.
Qed.

Lemma node_step_inv c m g x st' :
  node_step (c, m, g) x = Ok st' →
  ∃ d, initial_data x = Ok d ∧
       st' = (S c, <[n_id x := c]> m, add_node c d g).
Proof.
  unfold Karma.node_step.
  destruct (initial_data x) as [d|e]; simpl; [|done].
  intros [= <-]. by exists d.
Qed.

Lemma node_step_ok c m g x d :
  initial_data x = Ok d →
  node_step (c, m, g) x = Ok (S c, <[n_id x := c]> m, add_node c d g).
Proof. unfold Karma.node_step. by intros ->. Qed.

Lemma node_loop_graph ns c m g c' m' g' :
  for_each node_step (c, m, g) ns = Ok (c', m', g') →
  g_edges g' = g_edges g ∧
  (∀ j, (j < c)%nat → g_node g' !! j = g_node g !! j) ∧
  (∀ i n, ns !! i = Some n →
     ∃ d, initial_data n = Ok d ∧ g_node g' !! (c + i)%nat = Some d).
Proof.
  revert c m g. induction ns as [|x ns IH]; intros c m g; simpl.
  - intros [= _ _ <-]. by split_and!.
  - destruct (node_step (c, m, g) x) as [st1|] eqn:E; simpl; [|done].
    apply node_step_inv in E as (d & Hd & ->).
    intros Hrun. destruct (IH _ _ _ Hrun) as (He & Hlow & Hnew).
    split; [done|]. split.
    + intros j Hj. rewrite Hlow by lia. simpl.
      rewrite lookup_insert_ne; [done|lia].
    + intros [|i] n Hn; simpl in Hn.
      * injection Hn as <-. exists d. split; [done|].
        rewrite Nat.add_0_r, Hlow by lia. simpl. by rewrite lookup_insert_eq.
      * destruct (Hnew i n Hn) as (d' & Hd' & Hg). exists d'. split; [done|].
        by replace (c + S i)%nat with (S c + i)%nat by lia.
Qed.

Lemma node_loop_total ns st :
  (∀ n, n ∈ ns → is_internal n = true → is_Some (n_label_uri n)) →
  ∃ st', for_each node_step st ns = Ok st'.
Proof.
  revert st. induction ns as [|x ns IH]; intros [[c m] g] Hwf; simpl.
  - by eexists.
  - destruct (initial_data_ok x) as [d Hd]; [apply Hwf; by left|].
    rewrite (node_step_ok c m g x d Hd). simpl.
    apply IH. intros n Hn. apply Hwf. by right.
Qed.

(** The three assignments together. *)
Lemma propagate_eq u v label g src old :
  g_node g !! u = Some src → g_node g !! v = Some old →
  propagate u v label g
  = Ok (mk_graph (<[v := propagated src old label]> (g_node g)) (g_edges g)).
Proof.
  intros Hu Hv. unfold propagate, update_node, node_attrs. simpl.
  rewrite Hu, Hv. simpl.
  destruct (decide (u = v)) as [->|Hne].
  - rewrite Hu in Hv. injection Hv as <-.
    repeat (rewrite lookup_insert_eq; simpl).
    by rewrite !insert_insert_eq.
  - repeat (first [ rewrite lookup_insert_eq
                  | rewrite lookup_insert_ne by done
                  | rewrite Hu ]; simpl).
    by rewrite !insert_insert_eq.
Qed.

Lemma propagate_inv u v label g g' :
  propagate u v label g = Ok g' →
  ∃ src old, g_node g !! u = Some src ∧ g_node g !! v = Some old.
Proof.
  intros Hp.
  destruct (g_node g !! u) as [src|] eqn:Hu;
    [|by unfold propagate, node_attrs in Hp; rewrite Hu in Hp].
  destruct (g_node g !! v) as [old|] eqn:Hv; [by eexists _, _|].
  unfold propagate, update_node, node_attrs in Hp. by rewrite Hu, Hv in Hp.
Qed.

(** A step of the link loop, read backwards. *)
Lemma link_step_inv nm c m g l st' :
  link_step nm (c, m, g) l = Ok st' →
  ∃ s uri t u v g',
    split separator (l_id l) = [s; uri; t] ∧
    nm !! s = Some u ∧ nm !! t = Some v ∧
    st' = (S c, <[l_id l := c]> m, g') ∧
    g_edges g' = (g_edges g
                  ++ [mk_edge u v c
                        (mk_link_data (l_id l) (l_type l) (l_weight l)
                                      (get_label uri) (get_prefix uri))])%list ∧
    (if is_terminal l
     then ∃ src old, g_node g !! u = Some src ∧ g_node g !! v = Some old ∧
                     g_node g' = <[v := propagated src old (get_label uri)]>
                                   (g_node g)
     else g_node g' = g_node g).
Proof.
  unfold Karma.link_step.
  destruct (split separator (l_id l)) as [|s [|uri [|t [|]]]]; try done.
  unfold getitem.
  destruct (nm !! s) as [u|] eqn:Hs; simpl; [|done].
  destruct (nm !! t) as [v|] eqn:Ht; simpl; [|done].
  destruct (is_terminal l).
  - destruct (propagate _ _ _ _) as [g1|] eqn:Hp; simpl; [|done].
    intros [= <-].
    pose proof Hp as (src & old & Hu & Hv)%propagate_inv.
    simpl in Hu, Hv.
    rewrite (propagate_eq u v _ _ src old) in Hp by done.
    injection Hp as <-. simpl.
    eexists s, uri, t, u, v, _. split_and!; try done.
    by eexists src, old.
  - simpl. intros [= <-]. eexists s, uri, t, u, v, _.
    by split_and!.
Qed.

(** A step of the link loop, read forwards. *)
Lemma link_step_ok nm c m g l s uri t u v src old :
  split separator (l_id l) = [s; uri; t] →
  nm !! s = Some u → nm !! t = Some v →
  g_node g !! u = Some src → g_node g !! v = Some old →
  ∃ g', link_step nm (c, m, g) l = Ok (S c, <[l_id l := c]> m, g').
Proof.
  intros Hsplit Hs Ht Hu Hv. unfold Karma.link_step. rewrite Hsplit.
  unfold getitem. rewrite Hs, Ht. simpl.
  destruct (is_terminal l).
  - rewrite (propagate_eq u v _ _ src old) by done. simpl. by eexists.
  - simpl. by eexists.
Qed.

(** The link loop keeps the set of nodes of the graph. *)
Lemma link_step_dom nm c m g l c' m' g' j :
  link_step nm (c, m, g) l = Ok (c', m', g') →
  is_Some (g_node g' !! j) ↔ is_Some (g_node g !! j).
Proof.
  intros (s & uri & t & u & v & g1 & _ & _ & _ & [= -> -> ->] & _ & Hg)
           %link_step_inv.
  destruct (is_terminal l).
  - destruct Hg as (src & old & Hu & Hv & ->).
    destruct (decide (v = j)) as [<-|Hne].
    + rewrite lookup_insert_eq, Hv. split; by eexists.
    + by rewrite lookup_insert_ne.
  - by rewrite Hg.
Qed.

(** A link that does not propagate to the node named [t] leaves the
    attributes of that node alone. *)
Lemma link_step_frame nm c m g l c' m' g' t v :
  (∀ id id' j, nm !! id = Some j → nm !! id' = Some j → id = id') →
  link_step nm (c, m, g) l = Ok (c', m', g') →
  ¬ propagates_to t l → nm !! t = Some v →
  g_node g' !! v = g_node g !! v.
Proof.
  intros Hinj
         (s & uri & t' & u & v' & g1 & Hsplit & _ & Ht' & [= -> -> ->] & _
          & Hg)%link_step_inv Hnot Ht.
  destruct (is_terminal l) eqn:Hterm.
  - destruct Hg as (src & old & Hu & Hv & ->).
    rewrite lookup_insert_ne; [done|]. intros ->.
    apply Hnot. split; [done|]. unfold target_of. rewrite Hsplit.
    f_equal. by apply (Hinj _ _ _ Ht' Ht).
  - by rewrite Hg.
Qed.

Lemma link_loop_frame nm ls c m g c' m' g' t v :
  (∀ id id' j, nm !! id = Some j → nm !! id' = Some j → id = id') →
  for_each (link_step nm) (c, m, g) ls = Ok (c', m', g') →
  (∀ l, l ∈ ls → ¬ propagates_to t l) → nm !! t = Some v →
  g_node g' !! v = g_node g !! v.
Proof.
  intros Hinj. revert c m g. induction ls as [|l ls IH]; intros c m g; simpl.
  - by intros [= _ _ <-].
  - destruct (link_step nm (c, m, g) l) as [[[c1 m1] g1]|] eqn:E; simpl;
      [|done].
    intros Hrun Hnot Ht.
    rewrite (IH _ _ _ Hrun); [|intros; apply Hnot; by right|done].
    eapply link_step_frame; eauto. apply Hnot. by left.
Qed.

Lemma link_loop_total nm ls st :
  (∀ id j, nm !! id = Some j → is_Some (g_node st.2 !! j)) →
  (∀ l, l ∈ ls → ∃ s t, source_of l = Some s ∧ target_of l = Some t ∧
                        is_Some (nm !! s) ∧ is_Some (nm !! t)) →
  ∃ st', for_each (link_step nm) st ls = Ok st'.
Proof.
  revert st. induction ls as [|l ls IH]; intros [[c m] g] Hdom Hwf; simpl.
  - by eexists.
  - destruct (Hwf l) as (s & t & Hs & Ht & [u Hu] & [v Hv]); [by left|].
    unfold source_of in Hs. unfold target_of in Ht.
    destruct (split separator (l_id l)) as [|s' [|uri [|t' [|]]]] eqn:Hsplit;
      try done.
    injection Hs as ->. injection Ht as ->.
    destruct (Hdom s u Hu) as [src Hsrc]. destruct (Hdom t v Hv) as [old Hold].
    simpl in Hsrc, Hold.
    destruct (link_step_ok nm c m g l s uri t u v src old) as [g' Hstep];
      try done.
    rewrite Hstep. simpl. apply IH.
    + intros id j Hj. simpl. rewrite (link_step_dom _ _ _ _ _ _ _ _ j Hstep).
      by apply (Hdom id j).
    + intros l' Hl'. apply Hwf. by right.
Qed.

(** The kind of a node is never touched by the link loop. *)
Lemma link_loop_kind nm ls c m g c' m' g' j d' :
  for_each (link_step nm) (c, m, g) ls = Ok (c', m', g') →
  g_node g' !! j = Some d' →
  ∃ d, g_node g !! j = Some d ∧ nd_type d = nd_type d'.
Proof.
  revert c m g. induction ls as [|l ls IH]; intros c m g; simpl.
  - intros [= _ _ <-] Hj. by exists d'.
  - destruct (link_step nm (c, m, g) l) as [st1|] eqn:E; simpl; [|done].
    apply link_step_inv in E
      as (s & uri & t & u & v & g1 & _ & _ & _ & -> & _ & Hg).
    intros Hrun Hj. destruct (IH _ _ _ Hrun Hj) as (d1 & Hd1 & Hk).
    destruct (is_terminal l).
    + destruct Hg as (src & old & Hu & Hv & Hg). rewrite Hg in Hd1.
      destruct (decide (v = j)) as [<-|Hne].
      * rewrite lookup_insert_eq in Hd1. injection Hd1 as <-.
        exists old. by split.
      * rewrite lookup_insert_ne in Hd1 by done. by exists d1.
    + rewrite Hg in Hd1. by exists d1.
Qed.

(** The two loops of a conversion that returns. *)
Lemma convert_inv data g nm lm :
  convert_karma_graph data = Ok (g, nm, lm) →
  ∃ n g0 c, node_loop (nodes data) = Ok (n, nm, g0) ∧
            link_loop nm g0 (links data) = Ok (c, lm, g).
Proof.
  unfold Karma.convert_karma_graph, Karma.node_loop, Karma.link_loop.
  destruct (for_each node_step _ (nodes data)) as [[[n nm'] g0]|]; simpl;
    [|done].
  destruct (for_each (link_step nm') _ (links data)) as [[[c lm'] g']|]
    eqn:Hl; simpl; [|done].
  intros [= <- <- <-]. by exists n, g0, c.
Qed.

(** An index of the node table is the position of a node with that
    identifier, whose attributes the node loop has put in the graph. *)
Lemma node_loop_attrs ns n nm g0 id j :
  node_loop ns = Ok (n, nm, g0) → nm !! id = Some j →
  ∃ node d, ns !! j = Some node ∧ n_id node = id ∧
            initial_data node = Ok d ∧ g_node g0 !! j = Some d.
Proof.
  unfold Karma.node_loop. intros Hrun Hj.
  destruct (index_loop_sound n_id node_step node_step_index _ _ _ _ _ _ _
              id j Hrun Hj) as [[_ Hpos]|[Hempty _]]; [|done].
  rewrite Nat.sub_0_r, list_lookup_fmap in Hpos.
  destruct (ns !! j) as [node|] eqn:Hnode; [|done].
  injection Hpos as Hid.
  destruct (node_loop_graph _ _ _ _ _ _ _ Hrun) as (_ & _ & Hnew).
  destruct (Hnew j node Hnode) as (d & Hd & Hg).
  by exists node, d.
Qed.

Lemma node_map_inj ns n nm g0 id id' j :
  node_loop ns = Ok (n, nm, g0) →
  nm !! id = Some j → nm !! id' = Some j → id = id'.
Proof.
  intros Hrun Hj Hj'.
  destruct (node_loop_attrs _ _ _ _ _ _ Hrun Hj) as (x & _ & Hx & <- & _).
  destruct (node_loop_attrs _ _ _ _ _ _ Hrun Hj') as (y & _ & Hy & <- & _).
  congruence.
Qed.

(** The state of the link loop before and after a given link. *)
Lemma link_loop_split nm g0 pre l post c lm g :
  link_loop nm g0 (pre ++ l :: post)%list = Ok (c, lm, g) →
  ∃ c1 lm1 g_pre st,
    link_loop nm g0 pre = Ok (c1, lm1, g_pre) ∧
    link_step nm (c1, lm1, g_pre) l = Ok st ∧
    for_each (link_step nm) st post = Ok (c, lm, g).
Proof.
  unfold Karma.link_loop. rewrite for_each_app.
  destruct (for_each (link_step nm) _ pre) as [[[c1 lm1] g_pre]|]; simpl;
    [|done].
  destruct (link_step nm (c1, lm1, g_pre) l) as [st|] eqn:E; simpl; [|done].
  intros Hpost. by exists c1, lm1, g_pre, st.
Qed.

(** What the last terminal link onto a node leaves there is what the link
    loop ends with for that node. *)
Lemma link_loop_last_propagation
    (nm : gmap string nat) (g0 : graph) (pre post : list klink) (l : klink)
    (c : nat) (lm : gmap string nat) (g : graph) (s uri t : string) :
  (∀ id id' j, nm !! id = Some j → nm !! id' = Some j → id = id') →
  link_loop nm g0 (pre ++ l :: post)%list = Ok (c, lm, g) →
  is_terminal l = true →
  split separator (l_id l) = [s; uri; t] →
  (∀ l', l' ∈ post → ¬ propagates_to t l') →
  ∃ c1 lm1 g_pre u v src old,
    link_loop nm g0 pre = Ok (c1, lm1, g_pre) ∧
    nm !! s = Some u ∧ nm !! t = Some v ∧
    g_node g_pre !! u = Some src ∧ g_node g_pre !! v = Some old ∧
    g_node g !! v = Some (propagated src old (get_label uri)).
Proof.
  intros Hinj Hlinks Hterm Hsplit Hlast.
  apply link_loop_split in Hlinks
    as (c1 & lm1 & g_pre & [[c2 lm2] g2] & Hpre & Hl & Hpost).
  apply link_step_inv in Hl
    as (s' & uri' & t' & u & v & g' & Hsplit' & Hs & Ht & [= -> -> ->]
        & _ & Hg).
  rewrite Hsplit in Hsplit'. injection Hsplit' as <- <- <-.
  rewrite Hterm in Hg. destruct Hg as (src & old & Hu & Hv & Hg).
  exists c1, lm1, g_pre, u, v, src, old. split_and!; try done.
  rewrite (link_loop_frame nm post _ _ _ _ _ _ t v Hinj Hpost Hlast Ht).
  by rewrite Hg, lookup_insert_eq.
Qed.

(** C10, as the code has it.  Let [l] be the last terminal link onto the
    node named [t], in input order, and let it come from the node named
    [s].  After a conversion that returns, the attributes of [t] are those
    that [l] derives: the kind that [t] had from the node loop, and the
    label, lab and prefix that [s] has when [l] is read, the first two with
    the separator and the label of the edge of [l].  When no terminal link
    before [l] goes onto [s], these are the attributes that the node loop
    gave to [s]: the attributes of [t] are then a function of the two nodes
    and of [l] alone, and what earlier links put on [t] is lost.  When a
    terminal link before [l] goes onto [s], and [l1] is the last one, the
    attributes of [s] are those that [l1] derived, so that the label and
    the lab of [t] end with the labels of both edges: what was propagated
    before is kept and extended.  The case [s = t] is included: a terminal
    link from [t] to itself extends what the terminal link before it put
    on [t]. *)
Theorem last_terminal_link_wins
    (data : kdata) (g : graph) (nm lm : gmap string nat)
    (pre post : list klink) (l : klink) (s uri t : string) :
  convert_karma_graph data = Ok (g, nm, lm) →
  links data = (pre ++ l :: post)%list →
  is_terminal l = true →
  split separator (l_id l) = [s; uri; t] →
  (∀ l', l' ∈ post → ¬ propagates_to t l') →
  ∃ n g0 c lm0 g_pre u v cd td src,
    node_loop (nodes data) = Ok (n, nm, g0) ∧
    link_loop nm g0 pre = Ok (c, lm0, g_pre) ∧
    nm !! s = Some u ∧ nm !! t = Some v ∧
    g_node g0 !! u = Some cd ∧ g_node g0 !! v = Some td ∧
    g_node g_pre !! u = Some src ∧
    g_node g !! v = Some (propagated src td (get_label uri)) ∧
    ((∀ l', l' ∈ pre → ¬ propagates_to s l') →
     src = cd ∧
     g_node g !! v = Some (propagated cd td (get_label uri))) ∧
    (∀ pre1 l1 pre2 s1 uri1,
       pre = (pre1 ++ l1 :: pre2)%list →
       is_terminal l1 = true →
       split separator (l_id l1) = [s1; uri1; s] →
       (∀ l', l' ∈ pre2 → ¬ propagates_to s l') →
       ∃ c1 lm1 g1 u1 src1,
         link_loop nm g0 pre1 = Ok (c1, lm1, g1) ∧
         nm !! s1 = Some u1 ∧ g_node g1 !! u1 = Some src1 ∧
         src = propagated src1 cd (get_label uri1) ∧
         g_node g !! v
         = Some (mk_node_data (nd_type td)
                   ((nd_label src1 +:+ "---" +:+ get_label uri1)
                      +:+ "---" +:+ get_label uri)
                   ((nd_lab src1 +:+ "---" +:+ get_label uri1)
                      +:+ "---" +:+ get_label uri)
                   (nd_prefix src1))).
Proof.
  intros (n & g0 & c & Hnodes & Hlinks)%convert_inv Hdata Hterm Hsplit Hlast.
  rewrite Hdata in Hlinks.
  assert (∀ id id' j, nm !! id = Some j → nm !! id' = Some j → id = id')
    as Hinj.
  { intros id id' j Hj Hj'. by apply (node_map_inj _ _ _ _ id id' j Hnodes). }
  destruct (link_loop_last_propagation nm g0 pre post l c lm g s uri t
              Hinj Hlinks Hterm Hsplit Hlast)
    as (c1 & lm1 & g_pre & u & v & src & old & Hpre & Hs & Ht & Hu & Hv
        & Hfinal).
  destruct (node_loop_attrs _ _ _ _ _ _ Hnodes Hs)
    as (cnode & cd & _ & _ & _ & Hg0u).
  destruct (node_loop_attrs _ _ _ _ _ _ Hnodes Ht)
    as (tnode & td & _ & _ & _ & Hg0v).
  assert (nd_type old = nd_type td) as Hkind.
  { unfold Karma.link_loop in Hpre.
    destruct (link_loop_kind _ _ _ _ _ _ _ _ _ _ Hpre Hv) as (d & Hd & <-).
    congruence. }
  assert (g_node g !! v = Some (propagated src td (get_label uri)))
    as Hfinal'.
  { rewrite Hfinal. unfold propagated. by rewrite Hkind. }
  exists n, g0, c1, lm1, g_pre, u, v, cd, td, src.
  split_and!; try done.
  - intros Hfirst.
    assert (src = cd) as ->; [|done].
    unfold Karma.link_loop in Hpre.
    rewrite (link_loop_frame nm pre _ _ _ _ _ _ s u Hinj Hpre Hfirst Hs)
      in Hu.
    congruence.
  - intros pre1 l1 pre2 s1 uri1 Hsplit_pre Hterm1 Hsplit1 Hlast1.
    rewrite Hsplit_pre in Hpre.
    destruct (link_loop_last_propagation nm g0 pre1 pre2 l1 c1 lm1 g_pre
                s1 uri1 s Hinj Hpre Hterm1 Hsplit1 Hlast1)
      as (c2 & lm2 & g1 & u1 & u' & src1 & old1 & Hpre1 & Hs1 & Hs' & Hu1
          & Hold1 & Hsrc).
    rewrite Hs in Hs'. injection Hs' as <-.
    assert (nd_type old1 = nd_type cd) as Hkind1.
    { unfold Karma.link_loop in Hpre1.
      destruct (link_loop_kind _ _ _ _ _ _ _ _ _ _ Hpre1 Hold1)
        as (d & Hd & <-).
      congruence. }
    assert (src = propagated src1 cd (get_label uri1)) as Hsrc'.
    { rewrite Hu in Hsrc. injection Hsrc as ->.
      unfold propagated. by rewrite Hkind1. }
    exists c2, lm2, g1, u1, src1. split_and!; try done.
    by rewrite Hfinal', Hsrc'.
Qed.

(** C6, as the code has it.  Let a terminal link go from the node named
    [s] to the node named [t], with no terminal link onto [t] after it.
    After a conversion that returns, the label of the target is the label
    that the source has when the link is read, the separator and the label
    of the edge, its lab is the lab of the source with the same suffix,
    and its prefix is that of the source; the kind of the target is its
    own.  When no terminal link onto [s] comes before, what the source has
    then is its own [node_data]: for an internal node, the label and
    prefix of its URI and the label of its identifier.  The source itself
    ends with these attributes when no terminal link reaches it at all. *)
Theorem terminal_link_labels_target
    (data : kdata) (g : graph) (nm lm : gmap string nat)
    (pre post : list klink) (l : klink) (s uri t : string) :
  convert_karma_graph data = Ok (g, nm, lm) →
  links data = (pre ++ l :: post)%list →
  is_terminal l = true →
  split separator (l_id l) = [s; uri; t] →
  (∀ l', l' ∈ post → ¬ propagates_to t l') →
  ∃ n g0 c lm0 g_pre u v cnode tnode cd td src,
    node_loop (nodes data) = Ok (n, nm, g0) ∧
    link_loop nm g0 pre = Ok (c, lm0, g_pre) ∧
    nm !! s = Some u ∧ nm !! t = Some v ∧
    nodes data !! u = Some cnode ∧ n_id cnode = s ∧
    nodes data !! v = Some tnode ∧ n_id tnode = t ∧
    initial_data cnode = Ok cd ∧ initial_data tnode = Ok td ∧
    g_node g_pre !! u = Some src ∧
    g_node g !! v
    = Some (mk_node_data (nd_type td)
              (nd_label src +:+ "---" +:+ get_label uri)
              (nd_lab src +:+ "---" +:+ get_label uri)
              (nd_prefix src)) ∧
    ((∀ l', l' ∈ pre → ¬ propagates_to s l') → src = cd) ∧
    (∀ curi, is_internal cnode = true → n_label_uri cnode = Some curi →
             nd_label cd = get_label curi ∧ nd_lab cd = get_label s ∧
             nd_prefix cd = get_prefix curi) ∧
    (s ≠ t → (∀ l', l' ∈ (pre ++ post)%list → ¬ propagates_to s l') →
     g_node g !! u = Some cd).
Proof.
  intros Hconv Hdata Hterm Hsplit Hlast.
  pose proof Hconv as (n & g0 & c' & Hnodes & Hlinks)%convert_inv.
  rewrite Hdata in Hlinks.
  assert (∀ id id' j, nm !! id = Some j → nm !! id' = Some j → id = id')
    as Hinj by (intros; by eapply node_map_inj).
  destruct (link_loop_last_propagation nm g0 pre post l c' lm g s uri t
              Hinj Hlinks Hterm Hsplit Hlast)
    as (c & lm0 & g_pre & u & v & src & old & Hpre & Hs & Ht & Hu & Hv
        & Hfinal).
  destruct (node_loop_attrs _ _ _ _ _ _ Hnodes Hs)
    as (cnode & cd & Hcn & Hcid & Hcd & Hg0u).
  destruct (node_loop_attrs _ _ _ _ _ _ Hnodes Ht)
    as (tnode & td & Htn & Htid & Htd & Hg0v).
  assert (nd_type old = nd_type td) as Hkind.
  { unfold Karma.link_loop in Hpre.
    destruct (link_loop_kind _ _ _ _ _ _ _ _ _ _ Hpre Hv) as (d & Hd & <-).
    congruence. }
  exists n, g0, c, lm0, g_pre, u, v, cnode, tnode, cd, td, src.
  split_and!; try done.
  - rewrite Hfinal. unfold propagated. by rewrite Hkind.
  - intros Hfirst. unfold Karma.link_loop in Hpre.
    rewrite (link_loop_frame nm pre _ _ _ _ _ _ s u Hinj Hpre Hfirst Hs)
      in Hu.
    congruence.
  - intros curi Hint Huri. unfold Karma.initial_data, label_uri in Hcd.
    rewrite Hint, Huri in Hcd. simpl in Hcd. injection Hcd as <-.
    by rewrite Hcid.
  - intros Hne Hnone.
    unfold Karma.link_loop in Hlinks.
    rewrite <- Hg0u.
    apply (link_loop_frame nm (pre ++ l :: post) _ _ _ _ _ _ s u Hinj
             Hlinks); [|done].
    intros l' [Hl'|[->|Hl']%elem_of_cons]%elem_of_app.
    + apply Hnone. apply elem_of_app. by left.
    + intros [_ Htgt]. unfold target_of in Htgt. rewrite Hsplit in Htgt.
      congruence.
    + apply Hnone. apply elem_of_app. by right.
Qed.

(** C5, as the code has it.  On an input of the shape the converter is
    written for, the conversion returns.  Whenever it returns, an index in
    the node table is the position, in the nodes array, of a node with
    that identifier, the last one with it, and every identifier of the
    array has an index; likewise for the link table and the links array.
    When the identifiers
    of an array are pairwise distinct its table gives the [i]-th
    identifier the index [i] and holds nothing else, so that the indices
    are [0], ..., [n - 1].  What is returned depends on the two arrays
    only. *)
Theorem lookup_tables_follow_positions (data : kdata) :
  (well_formed data → is_ok (convert_karma_graph data) = true) ∧
  (∀ g nm lm,
     convert_karma_graph data = Ok (g, nm, lm) →
     (∀ id i, nm !! id = Some i → (n_id <$> nodes data) !! i = Some id) ∧
     (∀ id, id ∈ n_id <$> nodes data → is_Some (nm !! id)) ∧
     (∀ id i j, nm !! id = Some j → (n_id <$> nodes data) !! i = Some id →
                (i ≤ j)%nat) ∧
     (∀ id j, lm !! id = Some j → (l_id <$> links data) !! j = Some id) ∧
     (∀ id, id ∈ l_id <$> links data → is_Some (lm !! id)) ∧
     (∀ id i j, lm !! id = Some j → (l_id <$> links data) !! i = Some id →
                (i ≤ j)%nat) ∧
     (NoDup (n_id <$> nodes data) → positions (n_id <$> nodes data) nm) ∧
     (NoDup (l_id <$> links data) → positions (l_id <$> links data) lm)) ∧
  (∀ data', nodes data' = nodes data → links data' = links data →
            convert_karma_graph data' = convert_karma_graph data).
Proof.
  split; [|split].
  - intros [Hnodes Hlinks].
    destruct (node_loop_total (nodes data) (O, ∅, empty_graph) Hnodes)
      as [[[n nm] g0] Hrun].
    destruct (link_loop_total nm (links data) (O, ∅, g0)) as [[[c lm] g] Hl].
    + intros id j Hj. simpl.
      destruct (node_loop_attrs _ _ _ _ _ _ Hrun Hj)
        as (? & d & _ & _ & _ & ->).
      by eexists.
    + intros l Hl. destruct (Hlinks l Hl) as (s & t & Hs & Ht & Hsin & Htin).
      exists s, t. split_and!; try done.
      * eapply (index_loop_total n_id node_step node_step_index); eauto.
      * eapply (index_loop_total n_id node_step node_step_index); eauto.
    + unfold Karma.convert_karma_graph, Karma.node_loop, Karma.link_loop.
      rewrite Hrun. simpl. by rewrite Hl.
  - intros g nm lm (n & g0 & c & Hnodes & Hlinks)%convert_inv.
    unfold Karma.node_loop in Hnodes. unfold Karma.link_loop in Hlinks.
    assert (∀ id i, nm !! id = Some i →
                    (n_id <$> nodes data) !! i = Some id) as Hn.
    { intros id i Hi.
      destruct (index_loop_sound n_id node_step node_step_index _ _ _ _ _
                  _ _ id i Hnodes Hi) as [[_ Hpos]|[? _]]; [|done].
      by rewrite Nat.sub_0_r in Hpos. }
    assert (∀ id j, lm !! id = Some j →
                    (l_id <$> links data) !! j = Some id) as Hl.
    { intros id j Hj.
      destruct (index_loop_sound l_id (link_step nm) (link_step_index nm)
                  _ _ _ _ _ _ _ id j Hlinks Hj) as [[_ Hpos]|[? _]]; [|done].
      by rewrite Nat.sub_0_r in Hpos. }
    split_and!; try done.
    + intros id. by apply (index_loop_total n_id node_step node_step_index
                             _ _ _ _ _ _ _ id Hnodes).
    + intros id i j Hj Hi.
      by apply (index_loop_last n_id node_step node_step_index
                  _ _ _ _ _ _ _ id i j Hnodes Hj Hi).
    + intros id. by apply (index_loop_total l_id (link_step nm)
                             (link_step_index nm) _ _ _ _ _ _ _ id Hlinks).
    + intros id i j Hj Hi.
      by apply (index_loop_last l_id (link_step nm) (link_step_index nm)
                  _ _ _ _ _ _ _ id i j Hlinks Hj Hi).
    + intros Hnd. split; [|done]. intros i id Hi.
      by apply (index_loop_positions n_id node_step node_step_index
                  _ _ _ _ _ _ _ i id Hnodes Hnd).
    + intros Hnd. split; [|done]. intros i id Hi.
      by apply (index_loop_positions l_id (link_step nm)
                  (link_step_index nm) _ _ _ _ _ _ _ i id Hlinks Hnd).
  - intros [ns ls] Hn Hl. simpl in Hn, Hl. subst. by destruct data.
Qed.

End KarmaFacts.

(** *** The converter on the examples *)

Section KarmaExamples.

Import Karma.

(** Names the result of a conversion that returns. *)
Ltac converted data :=
  let H := fresh "Hok" in
  assert (is_ok (convert_karma_graph spec_get_label spec_get_prefix data)
          = true) as H by reflexivity;
  destruct (convert_karma_graph spec_get_label spec_get_prefix data)
    as [[[g nm] lm]|e] eqn:E; [clear H|discriminate H].

(** The node table of an array with a repeated identifier: the identifier
    of the node at position [0] has the index [1], and no identifier has
    the index [0]. *)
Lemma repeated_id_takes_last_index :
  ∃ g nm lm,
    convert_karma_graph spec_get_label spec_get_prefix repeated_id
    = Ok (g, nm, lm) ∧
    (n_id <$> nodes repeated_id) !! 0%nat = Some "n1" ∧
    nm !! "n1" = Some 1%nat ∧
    Some 1%nat ≠ Some 0%nat.
Proof. eexists _, _, _. split_and!; [reflexivity..|discriminate]. Qed.

Lemma person_example_well_formed : well_formed person_example.
Proof.
  split.
  - intros n Hn Hint. simpl in Hn.
    rewrite !elem_of_cons, elem_of_nil in Hn.
    destruct Hn as [->|[->|[]]]; [by eexists|done].
  - intros l Hl. simpl in Hl. rewrite elem_of_cons, elem_of_nil in Hl.
    destruct Hl as [->|[]]. exists "n1", "n2".
    split_and!; [reflexivity|reflexivity| |]; simpl;
      rewrite !elem_of_cons; auto.
Defined.

Lemma lookup_tables_follow_positions_witness :
  well_formed person_example ∧
  ∃ g nm lm,
    convert_karma_graph spec_get_label spec_get_prefix person_example
    = Ok (g, nm, lm) ∧
    positions ["n1"; "n2"] nm ∧
    positions ["n1---ex:name---n2"] lm.
Proof.
  split; [exact person_example_well_formed|].
  destruct (lookup_tables_follow_positions spec_get_label spec_get_prefix
              person_example) as (_ & Htables & _).
  converted person_example.
  exists g, nm, lm. split; [reflexivity|].
  destruct (Htables g nm lm eq_refl) as (_ & _ & _ & _ & _ & _ & Hn & Hl).
  split.
  - apply Hn. apply (bool_decide_unpack _). by vm_compute.
  - apply Hl. apply (bool_decide_unpack _). by vm_compute.
Defined.

(** The example of the spec, evaluated: [n1] has the label ["Person"] and
    [n2] the label ["Person---name"]. *)
Lemma person_example_labels :
  ∃ g nm lm,
    convert_karma_graph spec_get_label spec_get_prefix person_example
    = Ok (g, nm, lm) ∧
    nm !! "n1" = Some 0%nat ∧ nm !! "n2" = Some 1%nat ∧
    g_node g !! 0%nat = Some (mk_node_data "ClassNode" "Person" "n1" "ex:") ∧
    g_node g !! 1%nat
    = Some (mk_node_data "DataNode" "Person---name" "n1---name" "ex:").
Proof. eexists _, _, _. split_and!; reflexivity. Qed.

Lemma terminal_link_labels_target_witness :
  ∃ g nm lm,
    convert_karma_graph spec_get_label spec_get_prefix person_example
    = Ok (g, nm, lm) ∧
    ∃ n g0 c lm0 g_pre u v cnode tnode cd td src,
      node_loop spec_get_label spec_get_prefix (nodes person_example)
      = Ok (n, nm, g0) ∧
      link_loop spec_get_label spec_get_prefix nm g0 [] = Ok (c, lm0, g_pre) ∧
      nm !! "n1" = Some u ∧ nm !! "n2" = Some v ∧
      nodes person_example !! u = Some cnode ∧ n_id cnode = "n1" ∧
      nodes person_example !! v = Some tnode ∧ n_id tnode = "n2" ∧
      initial_data spec_get_label spec_get_prefix cnode = Ok cd ∧
      initial_data spec_get_label spec_get_prefix tnode = Ok td ∧
      g_node g_pre !! u = Some src ∧
      g_node g !! v
      = Some (mk_node_data (nd_type td)
                (nd_label src +:+ "---" +:+ spec_get_label "ex:name")
                (nd_lab src +:+ "---" +:+ spec_get_label "ex:name")
                (nd_prefix src)) ∧
      ((∀ l', l' ∈ [] → ¬ propagates_to "n1" l') → src = cd) ∧
      (∀ curi, is_internal cnode = true → n_label_uri cnode = Some curi →
               nd_label cd = spec_get_label curi ∧
               nd_lab cd = spec_get_label "n1" ∧
               nd_prefix cd = spec_get_prefix curi) ∧
      ("n1" ≠ "n2" →
       (∀ l', l' ∈ ([] ++ [])%list → ¬ propagates_to "n1" l') →
       g_node g !! u = Some cd).
Proof.
  converted person_example.
  exists g, nm, lm. split; [reflexivity|].
  apply (terminal_link_labels_target spec_get_label spec_get_prefix
           person_example g nm lm [] []
           (mk_klink "n1---ex:name---n2" "DataPropertyLink" 1%Q)
           "n1" "ex:name" "n2");
    [exact E|reflexivity|reflexivity|reflexivity|].
  intros l' Hl'. by apply elem_of_nil in Hl'.
Defined.

(** Two terminal links onto [n2]: the label that the first one gave it is
    gone after the conversion. *)
Lemma earlier_propagation_is_overwritten :
  ∃ g nm lm d,
    convert_karma_graph spec_get_label spec_get_prefix two_sources
    = Ok (g, nm, lm) ∧
    links two_sources !! 0%nat
    = Some (mk_klink "n1---ex:name---n2" "DataPropertyLink" 1%Q) ∧
    nm !! "n1" = Some 0%nat ∧ nm !! "n2" = Some 1%nat ∧
    g_node g !! 0%nat = Some (mk_node_data "ClassNode" "Person" "n1" "ex:") ∧
    g_node g !! 1%nat = Some d ∧
    nd_label d = "Organization---title" ∧
    nd_label d ≠ "Person---name".
Proof.
  eexists _, _, _, (mk_node_data "DataNode" "Organization---title"
                                 "n3---title" "ex:").
  split_and!; [reflexivity..|discriminate].
Qed.

(** A terminal link from [t] to itself after one onto [t]: the label
    that the first link put on [t] is kept and extended, where the second
    link alone gives [t] the label of its own edge only. *)
Lemma self_link_accumulates :
  ∃ g nm lm d g' nm' lm' d',
    convert_karma_graph spec_get_label spec_get_prefix self_link
    = Ok (g, nm, lm) ∧
    links self_link
    = [ mk_klink "a---ex:p---t" "DataPropertyLink" 1%Q;
        mk_klink "t---ex:q---t" "DataPropertyLink" 1%Q ] ∧
    propagates_to "t" (mk_klink "a---ex:p---t" "DataPropertyLink" 1%Q) ∧
    propagates_to "t" (mk_klink "t---ex:q---t" "DataPropertyLink" 1%Q) ∧
    nm !! "t" = Some 1%nat ∧
    g_node g !! 1%nat = Some d ∧
    d = mk_node_data "DataNode" "A---p---q" "a---p---q" "ex:" ∧
    convert_karma_graph spec_get_label spec_get_prefix self_link_alone
    = Ok (g', nm', lm') ∧
    nm' !! "t" = Some 1%nat ∧
    g_node g' !! 1%nat = Some d' ∧
    d' = mk_node_data "DataNode" "---q" "---q" "" ∧
    d ≠ d'.
Proof.
  eexists _, _, _, _, _, _, _, _.
  split_and!; [reflexivity|reflexivity|by split|by split|reflexivity..
              |discriminate].
Qed.

(** The chain, evaluated: [d] ends with the labels of the three edges. *)
Lemma chained_links_labels :
  ∃ g nm lm,
    convert_karma_graph spec_get_label spec_get_prefix chained_links
    = Ok (g, nm, lm) ∧
    nm !! "d" = Some 1%nat ∧ nm !! "e" = Some 2%nat ∧
    g_node g !! 1%nat
    = Some (mk_node_data "DataNode" "A---x---y---z" "a---x---y---z" "ex:") ∧
    g_node g !! 2%nat
    = Some (mk_node_data "DataNode" "A---x---y" "a---x---y" "ex:").
Proof. eexists _, _, _. split_and!; reflexivity. Qed.

Lemma last_terminal_link_wins_witness :
  ∃ g nm lm,
    convert_karma_graph spec_get_label spec_get_prefix chained_links
    = Ok (g, nm, lm) ∧
    ∃ n g0 c lm0 g_pre u v cd td src,
      node_loop spec_get_label spec_get_prefix (nodes chained_links)
      = Ok (n, nm, g0) ∧
      link_loop spec_get_label spec_get_prefix nm g0
        [mk_klink "a---ex:x---d" "DataPropertyLink" 1%Q;
         mk_klink "d---ex:y---e" "DataPropertyLink" 1%Q]
      = Ok (c, lm0, g_pre) ∧
      nm !! "e" = Some u ∧ nm !! "d" = Some v ∧
      g_node g0 !! u = Some cd ∧ g_node g0 !! v = Some td ∧
      g_node g_pre !! u = Some src ∧
      g_node g !! v = Some (propagated src td (spec_get_label "ex:z")) ∧
      ((∀ l', l' ∈ [mk_klink "a---ex:x---d" "DataPropertyLink" 1%Q;
                    mk_klink "d---ex:y---e" "DataPropertyLink" 1%Q] →
              ¬ propagates_to "e" l') →
       src = cd ∧
       g_node g !! v = Some (propagated cd td (spec_get_label "ex:z"))) ∧
      (∀ pre1 l1 pre2 s1 uri1,
         [mk_klink "a---ex:x---d" "DataPropertyLink" 1%Q;
          mk_klink "d---ex:y---e" "DataPropertyLink" 1%Q]
         = (pre1 ++ l1 :: pre2)%list →
         is_terminal l1 = true →
         split separator (l_id l1) = [s1; uri1; "e"] →
         (∀ l', l' ∈ pre2 → ¬ propagates_to "e" l') →
         ∃ c1 lm1 g1 u1 src1,
           link_loop spec_get_label spec_get_prefix nm g0 pre1
           = Ok (c1, lm1, g1) ∧
           nm !! s1 = Some u1 ∧ g_node g1 !! u1 = Some src1 ∧
           src = propagated src1 cd (spec_get_label uri1) ∧
           g_node g !! v
           = Some (mk_node_data (nd_type td)
                     ((nd_label src1 +:+ "---" +:+ spec_get_label uri1)
                        +:+ "---" +:+ spec_get_label "ex:z")
                     ((nd_lab src1 +:+ "---" +:+ spec_get_label uri1)
                        +:+ "---" +:+ spec_get_label "ex:z")
                     (nd_prefix src1))).
Proof.
  converted chained_links.
  exists g, nm, lm. split; [reflexivity|].
  apply (last_terminal_link_wins spec_get_label spec_get_prefix chained_links
           g nm lm
           [mk_klink "a---ex:x---d" "DataPropertyLink" 1%Q;
            mk_klink "d---ex:y---e" "DataPropertyLink" 1%Q] []
           (mk_klink "e---ex:z---d" "DataPropertyLink" 1%Q)
           "e" "ex:z" "d");
    [exact E|reflexivity|reflexivity|reflexivity|].
  intros l' Hl'. by apply elem_of_nil in Hl'.
Defined.

End KarmaExamples.

(** ** The cache *)

Section LruFacts.

Context {K V : Type} `{Countable K}.

Lemma find_head (k : K) (v : V) c : find k ((k, v) :: c) = Some (v, c).
Proof. simpl. by rewrite decide_True. Qed.

Lemma find_None (k : K) (c : cache K V) :
  find k c = None ↔ k ∉ c.*1.
Proof.
  induction c as [|[k' v'] c IH]; simpl.
  - split; [intros _; apply not_elem_of_nil|done].
  - destruct (decide (k' = k)) as [->|Hne].
    + split; [done|]. intros Hk. destruct Hk. by left.
    + destruct (find k c) as [[r rest]|].
      * split; [done|]. intros [_ Hk]%not_elem_of_cons. by apply IH in Hk.
      * split; [|done]. intros _. apply not_elem_of_cons. split; [done|].
        by apply IH.
Qed.

(** Looking up a key that comes before the entry of [k]. *)
Lemma find_Some_keys (k : K) (c : cache K V) v rest :
  find k c = Some (v, rest) →
  NoDup (c.*1) →
  (k ∉ rest.*1) ∧ NoDup (rest.*1) ∧ (∀ x, x ∈ rest.*1 → x ∈ c.*1) ∧
  (length rest < length c)%nat.
Proof.
  revert rest. induction c as [|[k' v'] c IH]; intros rest; simpl; [done|].
  destruct (decide (k' = k)) as [->|Hne].
  - intros [= <- <-] [Hk Hnd]%NoDup_cons. split_and!; try done.
    + intros x Hx. by right.
    + lia.
  - destruct (find k c) as [[r rest']|] eqn:E; [|done].
    intros [= <- <-] [Hk Hnd]%NoDup_cons.
    destruct (IH rest' eq_refl Hnd) as (Hk' & Hnd' & Hsub & Hlen).
    simpl. split_and!.
    + apply not_elem_of_cons. by split.
    + apply NoDup_cons. split; [|done]. intros Hin. apply Hk. by apply Hsub.
    + intros x [->|Hx]%elem_of_cons; [by left|]. right. by apply Hsub.
    + lia.
Qed.

Lemma find_app (k : K) (a b : cache K V) :
  find k (a ++ b)%list
  = match find k a with
    | Some (v, a') => Some (v, (a' ++ b)%list)
    | None =>
        match find k b with
        | Some (v, b') => Some (v, (a ++ b')%list)
        | None => None
        end
    end.
Proof.
  induction a as [|[k' v'] a IH]; simpl.
  - by destruct (find k b) as [[? ?]|].
  - destruct (decide (k' = k)); [done|]. rewrite IH.
    destruct (find k a) as [[? ?]|]; [done|].
    by destruct (find k b) as [[? ?]|].
Qed.

Lemma recently_used_mono k v (A B : gset K) (c : cache K V) :
  A ⊆ B → recently_used k v A c → recently_used k v B c.
Proof.
  intros Hsub (ahead & rest & -> & Hnd & Hk & HA).
  exists ahead, rest. split_and!; try done. intros x Hx. apply Hsub. by apply HA.
Qed.

Lemma recently_used_length k v (A : gset K) (c : cache K V) ahead rest :
  c = (ahead ++ (k, v) :: rest)%list → NoDup (ahead.*1) →
  (∀ x, x ∈ ahead.*1 → x ∈ A) → (length ahead ≤ size A)%nat.
Proof.
  intros _ Hnd HA. rewrite <- (length_fmap fst ahead).
  rewrite <- (size_list_to_set (C := gset K) (ahead.*1)) by done.
  apply subseteq_size. intros x Hx. apply HA. by apply elem_of_list_to_set in Hx.
Qed.

Lemma recently_used_step k v (A : gset K) (c : cache K V) k' r :
  k' ≠ k → (size (A ∪ {[k']}) < maxsize)%nat →
  recently_used k v A c →
  recently_used k v (A ∪ {[k']}) (after_call k' r c).
Proof.
  intros Hne Hsize (ahead & rest & -> & Hnd & Hk & HA).
  unfold after_call. rewrite find_app.
  destruct (find k' ahead) as [[v' ahead']|] eqn:Ea.
  - destruct (find_Some_keys _ _ _ _ Ea Hnd) as (Hk' & Hnd' & Hsub & _).
    exists ((k', v') :: ahead'), rest. split_and!; try done.
    + simpl. apply NoDup_cons. by split.
    + simpl. apply not_elem_of_cons. split; [done|].
      intros Hin. apply Hk. by apply Hsub.
    + simpl. intros x [->|Hx]%elem_of_cons; [set_solver|].
      apply elem_of_union_l, HA. by apply Hsub.
  - apply find_None in Ea. simpl. rewrite decide_False by done.
    destruct (find k' rest) as [[v' rest']|] eqn:Er.
    + exists ((k', v') :: ahead), rest'. split_and!; try done.
      * simpl. apply NoDup_cons. by split.
      * simpl. apply not_elem_of_cons. by split.
      * simpl. intros x [->|Hx]%elem_of_cons; [set_solver|].
        by apply elem_of_union_l, HA.
    + destruct r as [v'|].
      * assert (length ((k', v') :: ahead) ≤ size (A ∪ {[k']}))%nat as Hlen.
        { apply (recently_used_length k v _
                   (((k', v') :: ahead) ++ (k, v) :: rest)%list
                   ((k', v') :: ahead) rest); [done| |].
          - simpl. apply NoDup_cons. by split.
          - simpl. intros x [->|Hx]%elem_of_cons; [set_solver|].
            by apply elem_of_union_l, HA. }
        simpl in Hlen.
        exists ((k', v') :: ahead), (take (maxsize - S (length ahead) - 1) rest).
        split_and!.
        -- unfold maxsize in *. simpl. f_equal.
           rewrite take_app, take_ge by lia. f_equal.
           destruct (31 - length ahead)%nat as [|n] eqn:En; [lia|].
           simpl. do 2 f_equal. lia.
        -- simpl. apply NoDup_cons. by split.
        -- simpl. apply not_elem_of_cons. by split.
        -- simpl. intros x [->|Hx]%elem_of_cons; [set_solver|].
           by apply elem_of_union_l, HA.
      * exists ahead, rest. split_and!; try done.
        intros x Hx. by apply elem_of_union_l, HA.
Qed.

Lemma recently_used_find k v (A : gset K) (c : cache K V) :
  recently_used k v A c → ∃ rest, find k c = Some (v, rest).
Proof.
  intros (ahead & rest & -> & Hnd & Hk & HA). rewrite find_app.
  apply find_None in Hk. rewrite Hk. rewrite find_head. by eexists.
Qed.

Lemma recently_used_front k v (A : gset K) (c : cache K V) :
  recently_used k v A ((k, v) :: c).
Proof.
  exists [], c. split_and!; try done.
  - constructor.
  - apply not_elem_of_nil.
  - intros x Hx. by apply elem_of_nil in Hx.
Qed.

End LruFacts.

(** ** The dataset endpoint *)

Section DataSetFacts.

Import DataSetEndpoint.

Lemma set_get_cache_same w : set_get_cache (get_cache w) w = w.
Proof. by destruct w. Qed.

Lemma fetch_get_cache key w : get_cache (fetch key w).2 = get_cache w.
Proof.
  unfold fetch, mbind, M_bind, call_api, Api.item, new_dataset.
  destruct (Api.lookup_store key (Api.store (api w))); done.
Qed.

Lemma get_unfold key w :
  get key w
  = match find key (get_cache w) with
    | Some (v, rest) => (Ok v, set_get_cache ((key, v) :: rest) w)
    | None =>
        match fetch key w with
        | (Ok v, w') =>
            (Ok v, set_get_cache (take maxsize ((key, v) :: get_cache w')) w')
        | (Raise e, w') => (Raise e, w')
        end
    end.
Proof. reflexivity. Qed.

Lemma get_get_cache key w :
  get_cache (get key w).2
  = after_call key (returned (fetch key w).1) (get_cache w).
Proof.
  rewrite get_unfold. unfold after_call.
  destruct (find key (get_cache w)) as [[v rest]|]; [done|].
  pose proof (fetch_get_cache key w) as Hc.
  destruct (fetch key w) as [[v|e] w']; simpl in *; by rewrite ?Hc.
Qed.

Lemma get_returns_front key w d w1 :
  get key w = (Ok d, w1) → ∃ rest, get_cache w1 = (key, d) :: rest.
Proof.
  rewrite get_unfold.
  destruct (find key (get_cache w)) as [[v rest]|].
  - intros [= <- <-]. by eexists.
  - destruct (fetch key w) as [[v|e] w']; [|done].
    intros [= <- <-]. simpl. by eexists.
Qed.

Lemma get_hit key w d rest :
  find key (get_cache w) = Some (d, rest) →
  get key w = (Ok d, set_get_cache ((key, d) :: rest) w).
Proof. intros Hf. rewrite get_unfold. by rewrite Hf. Qed.

Lemma keeps_bind {A B} (m : M t A) (k : A → M t B) :
  keeps_get_cache m → (∀ a, keeps_get_cache (k a)) →
  keeps_get_cache (m ≫= k).
Proof.
  intros Hm Hk w. unfold mbind, M_bind. specialize (Hm w).
  destruct (m w) as [[a|e] w']; simpl in *; [|done].
  by rewrite Hk.
Qed.

Lemma keeps_ret {A} (a : A) : keeps_get_cache (mret a).
Proof. done. Qed.

Lemma keeps_call_api {A} (m : M (Api.t blob) A) : keeps_get_cache (call_api m).
Proof. intros w. unfold call_api. by destruct (m (api w)). Qed.

Lemma keeps_new_dataset j : keeps_get_cache (new_dataset j).
Proof. done. Qed.

Lemma keeps_collect {A B} (body : A → M t B) l :
  (∀ x, keeps_get_cache (body x)) → keeps_get_cache (collect body l).
Proof.
  intros Hbody. induction l as [|x l IH]; simpl; [done|].
  apply keeps_bind; [done|]. intros y.
  apply keeps_bind; [done|]. intros ys. done.
Qed.

Lemma keeps_cached {K V} `{EqDecision K} (get_c : t → cache K V) set_c
    (func : K → M t V) key :
  (∀ c w, get_cache (set_c c w) = get_cache w) →
  (∀ k, keeps_get_cache (func k)) →
  keeps_get_cache (cached get_c set_c func key).
Proof.
  intros Hset Hfunc w. unfold cached.
  destruct (find key (get_c w)) as [[v rest]|]; simpl; [by rewrite Hset|].
  specialize (Hfunc key w).
  destruct (func key w) as [[v|e] w']; simpl in *; by rewrite ?Hset.
Qed.

Lemma keeps_items : keeps_get_cache items.
Proof.
  apply keeps_cached; [done|]. intros _.
  apply keeps_bind; [apply keeps_call_api|]. intros keys.
  apply keeps_collect. intros k.
  apply keeps_bind; [apply keeps_call_api|]. intros j. apply keeps_new_dataset.
Qed.

Lemma keeps_columns : keeps_get_cache columns.
Proof.
  apply keeps_cached; [done|]. intros _.
  apply keeps_bind; [apply keeps_items|]. intros ds. apply keeps_ret.
Qed.

Lemma keeps_decache {A} (m : M t A) :
  keeps_get_cache m → keeps_get_cache (decache m).
Proof. intros Hm w. unfold decache. by rewrite Hm. Qed.

Lemma keeps_remove tgt : keeps_get_cache (remove tgt).
Proof.
  apply keeps_decache. destruct tgt as [key|d|x]; simpl;
    [apply keeps_call_api|apply keeps_call_api|done].
Qed.

(** What [decache] does do: the list of datasets is fetched anew after a
    removal. *)
Lemma remove_clears_items_cache tgt w : items_cache (remove tgt w).2 = [].
Proof.
  unfold remove, decache, _apply.
  destruct tgt as [key|d|x]; simpl; [| |done]; unfold call_api;
    match goal with |- context [Api.delete ?k ?a] =>
      by destruct (Api.delete k a) end.
Qed.

Lemma run_reads_recently_used k d rs w (A : gset Z) :
  recently_used k d A (get_cache w) →
  (size (A ∪ (keys_read rs ∖ {[k]})) < maxsize)%nat →
  recently_used k d (A ∪ (keys_read rs ∖ {[k]})) (get_cache (run_reads rs w)).
Proof.
  revert w A. induction rs as [|r rs IH]; intros w A Hru Hsize.
  - simpl. eapply recently_used_mono; [|done]. set_solver.
  - change (run_reads (r :: rs) w) with (run_reads rs (run_read r w)).
    destruct r as [k'| |].
    + change (keys_read (Get k' :: rs)) with ({[k']} ∪ keys_read rs) in *.
      assert (get_cache (run_read (Get k') w)
              = after_call k' (returned (fetch k' w).1) (get_cache w)) as Hc
        by apply get_get_cache.
      destruct (decide (k' = k)) as [->|Hne].
      * replace (A ∪ ({[k]} ∪ keys_read rs) ∖ {[k]})
          with (A ∪ keys_read rs ∖ {[k]}) in * by set_solver.
        apply IH; [|done]. rewrite Hc. unfold after_call.
        destruct (recently_used_find _ _ _ _ Hru) as [rest ->].
        apply recently_used_front.
      * replace (A ∪ ({[k']} ∪ keys_read rs) ∖ {[k]})
          with ((A ∪ {[k']}) ∪ keys_read rs ∖ {[k]}) in * by set_solver.
        apply IH; [|done]. rewrite Hc.
        apply recently_used_step; [done| |done].
        eapply Nat.le_lt_trans; [|exact Hsize].
        apply subseteq_size. set_solver.
    + change (keys_read (Items :: rs)) with (keys_read rs) in *.
      apply IH; [|done]. simpl. by rewrite keeps_items.
    + change (keys_read (Columns :: rs)) with (keys_read rs) in *.
      apply IH; [|done]. simpl. by rewrite keeps_columns.
Qed.

Lemma lookup_store_filter {J} key (s : list (Z * J)) :
  Api.lookup_store key (filter (λ e, e.1 ≠ key) s) = None.
Proof.
  unfold Api.lookup_store. induction s as [|[k j] s IH]; [done|].
  rewrite filter_cons. simpl. destruct (decide (k ≠ key)) as [Hne|Heq]; [|done].
  simpl. by rewrite bool_decide_eq_false_2.
Qed.

Lemma remove_by_key_ok key w w2 :
  remove (ByKey key) w = (Ok tt, w2) →
  get_cache w2 = get_cache w ∧ items_cache w2 = [] ∧
  Api.lookup_store key (Api.store (api w2)) = None.
Proof.
  unfold remove, decache, _apply, call_api, Api.delete. simpl.
  destruct (Api.lookup_store key (Api.store (api w))); [|done].
  intros [= <-]. simpl. split_and!; try done. apply lookup_store_filter.
Qed.

(** C1, what the code does.  [decache] clears the cache of [items] and
    no other: once [get key] has returned a dataset, and [remove] has
    deleted that very dataset on the server, [get key] still returns the
    object of before the removal, from its own cache and without a call of
    the server. *)
Theorem get_serves_removed_dataset
    (w : t) (key : Z) (d : DataSet) (w1 w2 : t) :
  get key w = (Ok d, w1) →
  remove (ByKey key) w1 = (Ok tt, w2) →
  Api.lookup_store key (Api.store (api w2)) = None ∧
  get key w2 = (Ok d, w2).
Proof.
  intros [rest Hc]%get_returns_front (Hg & _ & Hs)%remove_by_key_ok.
  split; [done|].
  rewrite (get_hit key w2 d rest) by (rewrite Hg, Hc; apply find_head).
  by rewrite <- Hc, <- Hg, set_get_cache_same.
Qed.

Lemma get_serves_removed_dataset_witness :
  ∃ w1 w2,
    get 1 (sample 2) = (Ok (mk_dataset 0 (sample_blob 1)), w1) ∧
    remove (ByKey 1) w1 = (Ok tt, w2) ∧
    Api.lookup_store 1 (Api.store (api w2)) = None ∧
    get 1 w2 = (Ok (mk_dataset 0 (sample_blob 1)), w2).
Proof.
  eexists _, _. split; [reflexivity|]. split; [reflexivity|].
  eapply (get_serves_removed_dataset (sample 2)); reflexivity.
Defined.

(** After a [get] that returned, and reads that ask [get] for fewer than
    [maxsize] other keys, [get] returns the same object and leaves the
    server and the object counter as they are. *)
Lemma dataset_get_again
    (w : t) (key : Z) (d : DataSet) (w1 : t) (rs : list read) :
  get key w = (Ok d, w1) →
  (size (keys_read rs ∖ {[key]}) < maxsize)%nat →
  ∃ w3, get key (run_reads rs w1) = (Ok d, w3) ∧
        api w3 = api (run_reads rs w1) ∧
        next_oid w3 = next_oid (run_reads rs w1).
Proof.
  intros [rest Hc]%get_returns_front Hsize.
  assert (recently_used key d ∅ (get_cache w1)) as Hru
    by (rewrite Hc; apply recently_used_front).
  apply (run_reads_recently_used _ _ rs) in Hru;
    [|by replace (∅ ∪ keys_read rs ∖ {[key]})
         with (keys_read rs ∖ {[key]}) by set_solver].
  destruct (recently_used_find _ _ _ _ Hru) as [rest' Hf].
  eexists. split; [by apply get_hit|]. done.
Qed.

(** With thirty-two other keys looked up in between, the entry of the first
    [get] is evicted: the second [get] of the same key asks the server
    again and returns a new object. *)
Lemma get_after_eviction_fetches_again :
  ∃ w1 w3,
    get 0 (sample 33) = (Ok (mk_dataset 0 (sample_blob 0)), w1) ∧
    get 0 (run_reads (Get <$> (Z.of_nat <$> seq 1 32)) w1)
    = (Ok (mk_dataset 33 (sample_blob 0)), w3) ∧
    Api.trace (api w3)
    = (Api.trace (api (run_reads (Get <$> (Z.of_nat <$> seq 1 32)) w1))
       ++ [Api.Item 0])%list.
Proof.
  exists (get 0 (sample 33)).2,
         (get 0 (run_reads (Get <$> (Z.of_nat <$> seq 1 32))
                   (get 0 (sample 33)).2)).2.
  split_and!; by vm_compute.
Qed.

(** The column index is as stale: after the removal of dataset [1] the
    cached index still has its column, which the datasets listed anew do
    not have. *)
Lemma columns_serve_removed_dataset :
  ∃ idx w1 w2 ds w3,
    columns (sample 2) = (Ok idx, w1) ∧
    remove (ByKey 1) w1 = (Ok tt, w2) ∧
    items w2 = (Ok ds, w3) ∧
    ds_id <$> ds = [0] ∧
    columns w3 = (Ok idx, w3) ∧
    idx !! 1 = Some (mk_column 1 "c").
Proof.
  exists (column_index [mk_column 0 "c"; mk_column 1 "c"]),
         (columns (sample 2)).2,
         (remove (ByKey 1) (columns (sample 2)).2).2,
         [mk_dataset 2 (sample_blob 0)],
         (items (remove (ByKey 1) (columns (sample 2)).2).2).2.
  split_and!; by vm_compute.
Qed.

End DataSetFacts.

(** ** The ontology and octopus endpoints *)

Section OntologyFacts.

Import OntologyEndpoint.

Lemma set_items_cache_same w : set_items_cache (items_cache w) w = w.
Proof. by destruct w. Qed.

Lemma items_returns_front w os w1 :
  items w = (Ok os, w1) → ∃ rest, items_cache w1 = (tt, os) :: rest.
Proof.
  unfold items, cached.
  destruct (find tt (items_cache w)) as [[v rest]|].
  - intros [= <- <-]. by eexists.
  - match goal with |- context [match ?m w with _ => _ end] =>
      destruct (m w) as [[v|e] w'] end; [|done].
    intros [= <- <-]. simpl. by eexists.
Qed.

Lemma items_hit w os rest :
  items_cache w = (tt, os) :: rest → items w = (Ok os, w).
Proof.
  intros Hc. unfold items, cached. rewrite Hc. simpl.
  by rewrite <- Hc, set_items_cache_same.
Qed.

Lemma get_inv key w o w1 :
  get key w = (Ok o, w1) →
  ∃ os, items w = (Ok os, w1) ∧
        List.find (λ o, bool_decide (onto_id o = Some key)) os = Some o.
Proof.
  unfold get, mbind, M_bind.
  destruct (items w) as [[os|e] w']; [|done].
  destruct (List.find _ os) as [o'|] eqn:Hf; [|done].
  intros [= <- <-]. by exists os.
Qed.

Lemma run_reads_hit w os rest rs :
  items_cache w = (tt, os) :: rest → run_reads rs w = w.
Proof.
  intros Hc. induction rs as [|r rs IH]; [done|].
  change (run_reads (r :: rs) w) with (run_reads rs (run_read r w)).
  assert (run_read r w = w) as ->; [|done].
  destruct r as [key|]; unfold run_read, get, mbind, M_bind;
    rewrite (items_hit w os rest Hc); [|done].
  by destruct (List.find _ os).
Qed.

(** After a [get] that returned, reads change nothing and [get] returns
    the same object. *)
Lemma ontology_get_again
    (w : t) (key : Z) (o : Ontology) (w1 : t) (rs : list read) :
  get key w = (Ok o, w1) →
  run_reads rs w1 = w1 ∧ get key w1 = (Ok o, w1).
Proof.
  intros (os & Hitems & Hfind)%get_inv.
  destruct (items_returns_front _ _ _ Hitems) as [rest Hc].
  split; [by eapply run_reads_hit|].
  unfold get, mbind, M_bind. rewrite (items_hit w1 os rest Hc).
  by rewrite Hfind.
Qed.

End OntologyFacts.

Section OctopusEndpointFacts.

Import OctopusEndpoint.

Lemma check_ssds_stored ss :
  (∀ s, s ∈ ss → ssd_stored s = true) → check_ssds ss = Ok tt.
Proof.
  induction ss as [|s ss IH]; simpl; [done|].
  intros Hs. rewrite (Hs s) by (by left). simpl. apply IH.
  intros. apply Hs. by right.
Qed.

Lemma check_ontologies_stored os :
  (∀ o, o ∈ os → onto_stored o = true) → check_ontologies os = Ok tt.
Proof.
  induction os as [|o os IH]; simpl; [done|].
  intros Ho. rewrite (Ho o) by (by left). simpl. apply IH.
  intros. apply Ho. by right.
Qed.

(** The first loop stops at the first SSD that is not stored. *)
Lemma check_ssds_unstored ss :
  (∃ s, s ∈ ss ∧ ssd_stored s = false) →
  ∃ s, s ∈ ss ∧ ssd_stored s = false ∧ check_ssds ss = Raise (ssd_not_stored s).
Proof.
  induction ss as [|s ss IH]; simpl.
  - intros (s & Hs & _). by apply elem_of_nil in Hs.
  - intros (s' & Hs' & Hun). destruct (ssd_stored s) eqn:E; simpl.
    + apply elem_of_cons in Hs' as [->|Hs']; [congruence|].
      destruct IH as (s0 & Hin & Hs0 & Hr); [by exists s'|].
      exists s0. split_and!; try done. by right.
    + exists s. split_and!; try done. by left.
Qed.

Lemma check_ssds_raises ss e :
  check_ssds ss = Raise e →
  ∃ s, s ∈ ss ∧ ssd_stored s = false ∧ e = ssd_not_stored s.
Proof.
  induction ss as [|s ss IH]; simpl; [done|].
  destruct (ssd_stored s) eqn:E; simpl.
  - intros (s0 & Hin & Hs0 & ->)%IH. exists s0. split_and!; try done.
    by right.
  - intros [= <-]. exists s. split_and!; try done. by left.
Qed.

Lemma check_ontologies_unstored os :
  (∃ o, o ∈ os ∧ onto_stored o = false) →
  ∃ o, o ∈ os ∧ onto_stored o = false ∧
       check_ontologies os = Raise (ontology_not_stored o).
Proof.
  induction os as [|o os IH]; simpl.
  - intros (o & Ho & _). by apply elem_of_nil in Ho.
  - intros (o' & Ho' & Hun). destruct (onto_stored o) eqn:E; simpl.
    + apply elem_of_cons in Ho' as [->|Ho']; [congruence|].
      destruct IH as (o0 & Hin & Ho0 & Hr); [by exists o'|].
      exists o0. split_and!; try done. by right.
    + exists o. split_and!; try done. by left.
Qed.

(** An upload with an unstored dependency raises the [ValueError] that
    names it, without a call of the server: only the cache of [items] is
    cleared. *)
Lemma upload_rejects_unstored_dependency w o ss os :
  Octopus.ssds o = Some ss → Octopus.ontologies o = Some os →
  (∃ s, s ∈ ss ∧ ssd_stored s = false) ∨
  (∃ x, x ∈ os ∧ onto_stored x = false) →
  ∃ e, upload (AnOctopus o) w = (Raise e, Some o, set_items_cache [] w) ∧
       ((∃ s, s ∈ ss ∧ ssd_stored s = false ∧ e = ssd_not_stored s) ∨
        (∃ x, x ∈ os ∧ onto_stored x = false ∧ e = ontology_not_stored x)).
Proof.
  intros Hss Hos Hun. unfold upload, check_dependencies. simpl.
  rewrite Hss, Hos.
  destruct (check_ssds ss) as [[]|e] eqn:Es; simpl.
  - destruct Hun as [Hun|Hun].
    + apply check_ssds_unstored in Hun as (s & _ & _ & Hr). congruence.
    + apply check_ontologies_unstored in Hun as (x & Hin & Hx & ->).
      eexists. split; [done|]. right. by exists x.
  - eexists. split; [done|]. left.
    by apply check_ssds_raises.
Qed.

(** C3, what the code does.  When all the SSDs and ontologies of the
    octopus are stored, [upload] posts the octopus and then raises: its
    last statement calls [update] with two arguments where six are
    required, so the [TypeError] of the call is what the caller gets, not
    the hydrated object, and the octopus is left as it was given. *)
Theorem upload_posts_then_raises
    (w : t) (o : Octopus.t) (ss : list SSD) (os : list Ontology) :
  Octopus.ssds o = Some ss → Octopus.ontologies o = Some os →
  (∀ s, s ∈ ss → ssd_stored s = true) →
  (∀ x, x ∈ os → onto_stored x = true) →
  ∃ w', upload (AnOctopus o) w = (Raise Octopus.update_arity, Some o, w') ∧
        Api.trace (api w') = (Api.trace (api w) ++ [Api.Post])%list.
Proof.
  intros Hss Hos Hs Ho. unfold upload, check_dependencies. simpl.
  rewrite Hss, Hos, (check_ssds_stored ss Hs). simpl.
  rewrite (check_ontologies_stored os Ho). 
  unfold call_api, Api.post. simpl. by eexists.
Qed.

Lemma upload_posts_then_raises_witness :
  let o := Octopus.mk None false (Some []) (Some []) (Some "octopus")
                      (Some "") "randomForest" "NoResampling" 10 10 MPNone
                      None in
  ∃ w', upload (AnOctopus o) (init (Api.mk [] []))
        = (Raise Octopus.update_arity, Some o, w') ∧
        Api.trace (api w') = [Api.Post].
Proof.
  intros o.
  apply (upload_posts_then_raises (init (Api.mk [] [])) o [] []);
    [reflexivity|reflexivity| |]; intros x Hx; by apply elem_of_nil in Hx.
Defined.

End OctopusEndpointFacts.

(** *** Reads of the octopus endpoint *)

Section OctopusReads.

Import OctopusEndpoint.

Variable model_types sampling : list string.

(** No blob is ever hydrated: [Octopus()] raises, or [update] does for the
    number of its arguments. *)
Lemma hydrated_raises blob :
  is_ok (hydrated model_types sampling blob) = false.
Proof.
  unfold hydrated.
  by destruct (Octopus.init model_types sampling Octopus.default_args).
Qed.

Lemma collect_hydrated_empty keys w os w' :
  collect (λ k, blob ← call_api (Api.item k);
                pure (hydrated model_types sampling blob)) keys w
  = (Ok os, w') → os = [].
Proof.
  destruct keys as [|k keys]; simpl.
  - by intros [= <- _].
  - unfold mbind at 1, M_bind at 1. unfold mbind at 1, M_bind at 1.
    destruct (call_api (Api.item k) w) as [[blob|e] w1]; [|done].
    unfold pure. pose proof (hydrated_raises blob) as Hh.
    by destruct (hydrated model_types sampling blob).
Qed.

(** [items] returns the empty tuple or raises, and so [get] never returns,
    on an endpoint whose caches hold nothing else. *)
Lemma octopus_get_never_returns key w :
  get_cache w = [] →
  (∀ e, e ∈ items_cache w → e.2 = []) →
  is_ok (get model_types sampling key w).1 = false.
Proof.
  intros Hg Hi. unfold get, cached. rewrite Hg. simpl.
  unfold mbind, M_bind.
  destruct (items model_types sampling w) as [[os|e] w1] eqn:E; [|done].
  assert (os = []) as ->; [|done].
  unfold items, cached in E.
  destruct (find tt (items_cache w)) as [[v rest]|] eqn:Ef.
  - injection E as <- _.
    destruct (items_cache w) as [|[[] v'] c]; [done|].
    simpl in Ef. injection Ef as <- _. apply (Hi (tt, v')). by left.
  - unfold mbind, M_bind in E.
    destruct (call_api Api.keys w) as [[keys|e] w2]; [|done].
    destruct (collect _ keys w2) as [[os'|e] w3] eqn:Ec; [|done].
    injection E as <- _. by eapply collect_hydrated_empty.
Qed.

End OctopusReads.

(** ** Repeated reads *)

(** C7, as the code has it.  On the dataset endpoint, whose [get] has its
    own [lru_cache]: after a [get(key)] that returned, and any reads in
    between that ask [get] for fewer than [maxsize] (32) keys other than
    [key], [get(key)] returns the same object, of the same identity, and
    does not call the server.  On the ontology endpoint, whose [get]
    scans the cached [items]: after a [get(key)] that returned, reads
    change nothing and [get(key)] returns the same object. *)
Theorem repeated_get_returns_cached_object :
  (∀ (w : DataSetEndpoint.t) key d w1 rs,
     DataSetEndpoint.get key w = (Ok d, w1) →
     (size (DataSetEndpoint.keys_read rs ∖ {[key]}) < maxsize)%nat →
     ∃ w3,
       DataSetEndpoint.get key (DataSetEndpoint.run_reads rs w1)
       = (Ok d, w3) ∧
       DataSetEndpoint.api w3
       = DataSetEndpoint.api (DataSetEndpoint.run_reads rs w1) ∧
       DataSetEndpoint.next_oid w3
       = DataSetEndpoint.next_oid (DataSetEndpoint.run_reads rs w1)) ∧
  (∀ (w : OntologyEndpoint.t) key o w1 rs,
     OntologyEndpoint.get key w = (Ok o, w1) →
     OntologyEndpoint.run_reads rs w1 = w1 ∧
     OntologyEndpoint.get key w1 = (Ok o, w1)).
Proof.
  split.
  - intros. by eapply dataset_get_again.
  - intros. by eapply ontology_get_again.
Qed.

Lemma repeated_get_returns_cached_object_witness :
  let rs := DataSetEndpoint.Items
            :: (DataSetEndpoint.Get <$> (Z.of_nat <$> seq 1 31)) in
  (∃ w1 w3,
     DataSetEndpoint.get 0 (DataSetEndpoint.sample 33)
     = (Ok (DataSetEndpoint.mk_dataset 0 (DataSetEndpoint.sample_blob 0)),
        w1) ∧
     DataSetEndpoint.get 0 (DataSetEndpoint.run_reads rs w1)
     = (Ok (DataSetEndpoint.mk_dataset 0 (DataSetEndpoint.sample_blob 0)),
        w3) ∧
     DataSetEndpoint.api w3
     = DataSetEndpoint.api (DataSetEndpoint.run_reads rs w1) ∧
     DataSetEndpoint.next_oid w3
     = DataSetEndpoint.next_oid (DataSetEndpoint.run_reads rs w1)) ∧
  (∃ w1,
     OntologyEndpoint.get 1 (OntologyEndpoint.sample 2)
     = (Ok (mkOntology 1 true (Some 1)), w1) ∧
     OntologyEndpoint.run_reads
       [OntologyEndpoint.Items; OntologyEndpoint.Get 0] w1 = w1 ∧
     OntologyEndpoint.get 1 w1 = (Ok (mkOntology 1 true (Some 1)), w1)).
Proof.
  intros rs. destruct repeated_get_returns_cached_object as [Hd Ho]. split.
  - exists (DataSetEndpoint.get 0 (DataSetEndpoint.sample 33)).2.
    destruct (Hd (DataSetEndpoint.sample 33) 0
                (DataSetEndpoint.mk_dataset 0 (DataSetEndpoint.sample_blob 0))
                (DataSetEndpoint.get 0 (DataSetEndpoint.sample 33)).2 rs)
      as (w3 & Hget & Hapi & Hoid).
    + reflexivity.
    + apply Nat.ltb_lt. by vm_compute.
    + exists w3. split; [reflexivity|]. by split_and!.
  - exists (OntologyEndpoint.get 1 (OntologyEndpoint.sample 2)).2.
    split; [reflexivity|].
    apply (Ho (OntologyEndpoint.sample 2)). reflexivity.
Defined.

(** * Further properties of the code *)

(** ** The range checks of the modeling properties *)

Section RangeFacts.

Import Octopus.

Lemma run_checks_Ok_inv d cs :
  run_checks d cs = Ok tt →
  ∀ name a b i x, (name, (a, b, i)) ∈ cs → d !! name = Some x →
                  in_range x a b i = Ok true.
Proof.
  induction cs as [|[n [[a0 b0] i0]] cs IH]; intros Hrun name a b i x Hin Hx.
  - by apply elem_of_nil in Hin.
  - simpl in Hrun. unfold mbind, result_bind in Hrun.
    destruct (prop_in_range d n a0 b0 i0) as [[]|e] eqn:Hp; [|done].
    apply elem_of_cons in Hin as [Heq|Hin]; [|by eapply IH].
    simplify_eq. unfold prop_in_range in Hp. rewrite Hx in Hp.
    unfold mbind, result_bind in Hp.
    by destruct (in_range _ _ _ _) as [[]|].
Qed.

Lemma Qlt_negb_le (p q : Q) : negb (Qle_bool q p) = true ↔ (p < q)%Q.
Proof.
  rewrite negb_true_iff. split.
  - intros E. apply Qnot_le_lt. intros Hle. apply Qle_bool_iff in Hle.
    congruence.
  - intros Hlt. destruct (Qle_bool q p) eqn:E; [|done].
    apply Qle_bool_iff in E. by apply Qlt_not_le in Hlt.
Qed.

Lemma in_range_count x :
  in_range x zero inf false = Ok true ↔ positive_finite x.
Proof.
  unfold in_range, positive_finite, py_cmp, zero, inf, mbind, result_bind.
  destruct x as [z|[q| | |]|s|]; simpl; try (split; [done|tauto]).
  - rewrite <- Qlt_negb_le. change (inject_Z 0) with 0%Q.
    by destruct (negb _).
  - rewrite <- Qlt_negb_le. change (inject_Z 0) with 0%Q.
    by destruct (negb _).
Qed.

Lemma in_range_weight x :
  in_range x zero one true = Ok true ↔ unit_weight x.
Proof.
  unfold in_range, unit_weight, py_cmp, zero, one, mbind, result_bind.
  destruct x as [z|[q| | |]|s|]; simpl; try (split; [done|tauto]).
  - rewrite <- !Qle_bool_iff.
    change (inject_Z 0) with 0%Q. change (inject_Z 1) with 1%Q.
    destruct (Qle_bool 0 _); simpl; [|naive_solver].
    split; [intros [= ->]; done|intros [_ ->]; done].
  - rewrite <- !Qle_bool_iff.
    change (inject_Z 0) with 0%Q. change (inject_Z 1) with 1%Q.
    destruct (Qle_bool 0 _); simpl; [|naive_solver].
    split; [intros [= ->]; done|intros [_ ->]; done].
Qed.

Ltac listed_prop H :=
  simpl in H; rewrite !elem_of_cons, elem_of_nil in H;
  repeat destruct H as [H|H]; try done.

(** X1.  On a dict, [check_modeling_props] returns without raising
    exactly when each of the four count properties that is present holds
    a finite number above zero and each of the three weight properties
    that is present holds a number between 0 and 1, both bounds included.
    A count of [0] or of [inf], a [nan] and a value that is not a number
    are refused. *)
Theorem check_modeling_props_accepts_exactly_ranges
    (o : t) (d : gmap string pyval) :
  modeling_props o = MPDict d →
  (check_modeling_props o = Ok tt ↔
   (∀ name x, name ∈ count_props → d !! name = Some x →
              positive_finite x) ∧
   (∀ name x, name ∈ weight_props → d !! name = Some x → unit_weight x)).
Proof.
  intros Hd. unfold check_modeling_props. rewrite Hd. split.
  - intros Hrun. split; intros name x Hname Hx.
    + apply in_range_count.
      eapply (run_checks_Ok_inv _ _ Hrun name); [|done].
      unfold count_props in Hname. unfold checked_props.
      listed_prop Hname; subst name; rewrite !elem_of_cons; tauto.
    + apply in_range_weight.
      eapply (run_checks_Ok_inv _ _ Hrun name); [|done].
      unfold weight_props in Hname. unfold checked_props.
      listed_prop Hname; subst name; rewrite !elem_of_cons; tauto.
  - intros [Hc Hw]. apply run_checks_in_range.
    intros name a b i x Hin Hx. unfold checked_props in Hin.
    listed_prop Hin; simplify_eq;
      first [ apply in_range_count; eapply Hc; [|done];
              unfold count_props; rewrite !elem_of_cons; tauto
            | apply in_range_weight; eapply Hw; [|done];
              unfold weight_props; rewrite !elem_of_cons; tauto ].
Qed.

Lemma check_modeling_props_accepts_exactly_ranges_witness :
  let d : gmap string pyval :=
    {[ "numSemanticTypes" := VInt 4; "sizeWeight" := VFloat (Fin 1) ]} in
  let o := mk None false None None (Some "") (Some "") "randomForest"
              "NoResampling" 10 10 (MPDict d) None in
  modeling_props o = MPDict d ∧
  (check_modeling_props o = Ok tt ↔
   (∀ name x, name ∈ count_props → d !! name = Some x →
              positive_finite x) ∧
   (∀ name x, name ∈ weight_props → d !! name = Some x → unit_weight x)).
Proof.
  intros d o. split; [reflexivity|].
  apply (check_modeling_props_accepts_exactly_ranges o d). reflexivity.
Defined.

Lemma run_checks_app d cs1 cs2 :
  run_checks d (cs1 ++ cs2)%list
  = run_checks d cs1 ≫= λ _, run_checks d cs2.
Proof.
  induction cs1 as [|[n [[a b] i]] cs1 IH]; simpl; [done|].
  unfold mbind, result_bind in *.
  destruct (prop_in_range d n a b i); [|done]. apply IH.
Qed.

(** X2.  The checks run in the order of the source and stop at the first
    property that fails: when the properties checked before [name] pass,
    a value of [name] outside its range raises [ValueError] with the
    message that names [name] and the range, and a value of [name] that
    is not a number raises [TypeError], whatever the properties checked
    later hold. *)
Theorem check_modeling_props_reports_first_violation
    (o : t) (d : gmap string pyval)
    (pre post : list (string * (pyval * pyval * bool)))
    (name : string) (a b : pyval) (inclusive : bool) (x : pyval) :
  modeling_props o = MPDict d →
  checked_props = (pre ++ (name, (a, b, inclusive)) :: post)%list →
  (∀ name' a' b' i' x',
     (name', (a', b', i')) ∈ pre → d !! name' = Some x' →
     in_range x' a' b' i' = Ok true) →
  d !! name = Some x →
  (in_range x a b inclusive = Ok false →
   check_modeling_props o
   = Raise (ValueError (range_message name a b inclusive))) ∧
  (as_num x = None → check_modeling_props o = Raise unorderable).
Proof.
  intros Hd Hsplit Hpre Hx. unfold check_modeling_props.
  rewrite Hd, Hsplit, run_checks_app.
  rewrite (run_checks_in_range d pre Hpre). simpl.
  unfold prop_in_range. rewrite Hx.
  split.
  - intros ->. done.
  - intros Hnum. unfold in_range, py_cmp.
    destruct inclusive; simpl; rewrite Hnum;
      by destruct (as_num a).
Qed.

Lemma check_modeling_props_reports_first_violation_witness :
  let d : gmap string pyval :=
    {[ "mappingBranchFactor" := VInt 5; "topkSteinerTrees" := VInt 0;
       "sizeWeight" := VInt 2 ]} in
  let o := mk None false None None (Some "") (Some "") "randomForest"
              "NoResampling" 10 10 (MPDict d) None in
  check_modeling_props o
  = Raise (ValueError
             ("Modeling property topkSteinerTrees should be in range "
              +:+ "0 < topkSteinerTrees < inf")).
Proof.
  intros d o.
  apply (check_modeling_props_reports_first_violation o d
           [("mappingBranchFactor", (zero, inf, false));
            ("numCandidateMappings", (zero, inf, false))]
           [("numSemanticTypes", (zero, inf, false));
            ("confidenceWeight", (zero, one, true));
            ("coherenceWeight", (zero, one, true));
            ("sizeWeight", (zero, one, true))]
           "topkSteinerTrees" zero inf false (VInt 0)).
  - reflexivity.
  - reflexivity.
  - intros name' a' b' i' x' Hin Hx'.
    listed_prop Hin; simplify_eq; vm_compute in Hx'; simplify_eq;
      reflexivity.
  - reflexivity.
  - reflexivity.
Defined.

End RangeFacts.

(** ** The local list operations and [update] *)

Section ListFacts.

Import Octopus.

Lemma list_remove_first {A} `{EqDecision A} (x : A) (l1 l2 : list A) :
  x ∉ l1 → list_remove x (l1 ++ x :: l2)%list = Some (l1 ++ l2)%list.
Proof.
  induction l1 as [|y l1 IH]; simpl; intros Hx.
  - by rewrite decide_True.
  - apply not_elem_of_cons in Hx as [Hne Hx].
    rewrite decide_False by done. by rewrite IH.
Qed.

Lemma list_remove_Some {A} `{EqDecision A} (x : A) (l l' : list A) :
  list_remove x l = Some l' →
  ∃ l1 l2, l = (l1 ++ x :: l2)%list ∧ (x ∉ l1) ∧ l' = (l1 ++ l2)%list.
Proof.
  revert l'. induction l as [|y l IH]; simpl; intros l' Hr; [done|].
  destruct (decide (y = x)) as [->|Hne].
  - injection Hr as <-. exists [], l. split_and!; [done| |done].
    apply not_elem_of_nil.
  - destruct (list_remove x l) as [l0|] eqn:E; [|done].
    injection Hr as <-. destruct (IH l0 eq_refl) as (l1 & l2 & -> & Hx & ->).
    exists (y :: l1), l2. split_and!; [done| |done].
    apply not_elem_of_cons. by split.
Qed.

(** X3.  [remove] of an SSD (of an ontology) that the list holds drops
    its first occurrence, keeps the others in their order and clears
    [stored]; and [remove] returns only when the list held the value. *)
Theorem remove_drops_first_occurrence (o : t) :
  (∀ s l1 l2, ssds o = Some (l1 ++ s :: l2)%list → s ∉ l1 →
     remove (OSSD s) o
     = (set_ssds (Some (l1 ++ l2)%list) (set_stored false o), Ok tt)) ∧
  (∀ x l1 l2, ontologies o = Some (l1 ++ x :: l2)%list → x ∉ l1 →
     remove (OOntology x) o
     = (set_ontologies (Some (l1 ++ l2)%list) (set_stored false o), Ok tt)) ∧
  (∀ s o', remove (OSSD s) o = (o', Ok tt) →
     ∃ l, ssds o = Some l ∧ s ∈ l ∧ stored o' = false ∧
          ontologies o' = ontologies o) ∧
  (∀ x o', remove (OOntology x) o = (o', Ok tt) →
     ∃ l, ontologies o = Some l ∧ x ∈ l ∧ stored o' = false ∧
          ssds o' = ssds o).
Proof.
  split_and!.
  - intros s l1 l2 Hl Hs. unfold remove. cbn [ssds set_stored].
    rewrite Hl. by rewrite list_remove_first.
  - intros x l1 l2 Hl Hx. unfold remove. cbn [ontologies set_stored].
    rewrite Hl. by rewrite list_remove_first.
  - intros s o'. unfold remove. cbn [ssds set_stored].
    destruct (ssds o) as [l|] eqn:El; [|done].
    destruct (list_remove s l) as [l'|] eqn:Er; [|done].
    intros [= <-]. exists l. split_and!; try done.
    apply list_remove_Some in Er as (l1 & l2 & -> & _ & _).
    set_solver.
  - intros x o'. unfold remove. cbn [ontologies set_stored].
    destruct (ontologies o) as [l|] eqn:El; [|done].
    destruct (list_remove x l) as [l'|] eqn:Er; [|done].
    intros [= <-]. exists l. split_and!; try done.
    apply list_remove_Some in Er as (l1 & l2 & -> & _ & _).
    set_solver.
Qed.

Lemma remove_drops_first_occurrence_witness :
  let s0 := mkSSD 0 true (Some 1) in
  let s1 := mkSSD 1 true (Some 2) in
  let o := mk (Some 4) true (Some [s0; s1; s0]) (Some [])
              (Some "o") (Some "") "randomForest" "NoResampling" 10 10
              MPNone (Some 2) in
  remove (OSSD s1) o
  = (set_ssds (Some [s0; s0]) (set_stored false o), Ok tt) ∧
  remove (OSSD s0) o
  = (set_ssds (Some [s1; s0]) (set_stored false o), Ok tt).
Proof.
  intros s0 s1 o. destruct (remove_drops_first_occurrence o) as (Hssd & _).
  split.
  - apply (Hssd s1 [s0] [s0]); [reflexivity|].
    intros Hin%list_elem_of_singleton. discriminate Hin.
  - apply (Hssd s0 [] [s1; s0]); [reflexivity|apply not_elem_of_nil].
Defined.

(** X4.  [add] and then [remove] of the same SSD, on an octopus whose
    [ssds] is a list: both calls return and [stored] is [False].  When
    the list did not hold the SSD, the octopus is as before but for
    [stored]; when it did, it is the earlier occurrence that goes, and
    the SSD that was added stays at the end. *)
Theorem add_then_remove_round_trip (o : t) (s : SSD) (l : list SSD) :
  ssds o = Some l →
  ∃ o1 o2,
    add (OSSD s) o = (o1, Ok tt) ∧ remove (OSSD s) o1 = (o2, Ok tt) ∧
    stored o2 = false ∧
    (s ∉ l → o2 = set_stored false o) ∧
    (∀ l1 l2, l = (l1 ++ s :: l2)%list → s ∉ l1 →
              ssds o2 = Some (l1 ++ l2 ++ [s])%list).
Proof.
  intros Hl. unfold add. cbn [ssds set_stored]. rewrite Hl.
  exists (set_ssds (Some (l ++ [s])%list) (set_stored false o)).
  destruct (decide (s ∈ l)) as [Hin|Hnot].
  - apply list_elem_of_split_l in Hin as (l1 & l2 & -> & Hs).
    eexists. split; [done|]. unfold remove. cbn [ssds set_ssds set_stored].
    rewrite <- app_assoc. simpl. rewrite list_remove_first by done.
    split_and!; [done|done|intros Hn; set_solver|].
    intros l1' l2' Heq Hs'.
    assert (l1' = l1) as ->.
    { clear -Heq Hs Hs'. revert l1' Heq Hs'.
      induction l1 as [|y l1 IH]; intros [|y' l1'] Heq Hs'; simpl in *.
      - done.
      - simplify_eq. set_solver.
      - simplify_eq. set_solver.
      - simplify_eq. f_equal. apply IH; set_solver. }
    apply app_inv_head in Heq. by simplify_eq.
  - eexists. split; [done|]. unfold remove. cbn [ssds set_ssds set_stored].
    rewrite list_remove_first by done. rewrite app_nil_r.
    split_and!; try done.
    + intros _. destruct o; simpl in *. by subst.
    + intros l1 l2 -> _. set_solver.
Qed.

Lemma add_then_remove_round_trip_witness :
  let o := mk (Some 4) true (Some [mkSSD 0 true (Some 1)]) (Some [])
              (Some "o") (Some "") "randomForest" "NoResampling" 10 10
              MPNone (Some 2) in
  let s := mkSSD 1 false None in
  ∃ o1 o2,
    add (OSSD s) o = (o1, Ok tt) ∧ remove (OSSD s) o1 = (o2, Ok tt) ∧
    stored o2 = false ∧
    (s ∉ [mkSSD 0 true (Some 1)] → o2 = set_stored false o) ∧
    (∀ l1 l2, [mkSSD 0 true (Some 1)] = (l1 ++ s :: l2)%list → s ∉ l1 →
              ssds o2 = Some (l1 ++ l2 ++ [s])%list).
Proof.
  intros o s. apply (add_then_remove_round_trip o s [mkSSD 0 true (Some 1)]).
  reflexivity.
Defined.

Lemma mapM_Ok {A B} (f : A → result B) (l : list A) (l' : list B) :
  mapM f l = Ok l' ↔ Forall2 (λ x y, f x = Ok y) l l'.
Proof.
  revert l'. induction l as [|x l IH]; intros l'; simpl.
  - split.
    + intros [= <-]. constructor.
    + by inversion 1.
  - split.
    + destruct (f x) as [y|] eqn:Ef; cbn; [|done].
      destruct (mapM f l) as [ys|] eqn:Em; cbn; [|done].
      intros [= <-]. constructor; [done|]. by apply IH.
    + inversion 1 as [|? y ? ys Hf Hrest]; subst. rewrite Hf. cbn.
      apply IH in Hrest. by rewrite Hrest.
Qed.

Lemma mapM_Raise {A B} (f : A → result B) (l : list A) e :
  mapM f l = Raise e →
  ∃ pre x post, l = (pre ++ x :: post)%list ∧
                (∀ y, y ∈ pre → is_ok (f y) = true) ∧ f x = Raise e.
Proof.
  induction l as [|x l IH]; simpl; [done|].
  destruct (f x) as [y|e'] eqn:Ef; cbn.
  - destruct (mapM f l) as [ys|e'] eqn:Em; cbn; [done|].
    intros [= ->]. destruct (IH eq_refl) as (pre & x' & post & -> & Hpre & Hx).
    exists (x :: pre), x', post. split_and!; [done| |done].
    intros y' [->|Hy]%elem_of_cons; [by rewrite Ef|by apply Hpre].
  - intros [= ->]. exists [], x, l. split_and!; [done| |done].
    by intros y' ?%elem_of_nil.
Qed.

(** X5.  [update], called with its six arguments, returns exactly when
    every SSD and every ontology named in the blob and the model named in
    it are returned by their endpoints, and the object it leaves is a
    function of the blob and of what the endpoints returned: stored, with
    the id, the name and the description of the blob, the SSDs and the
    ontologies in the order of the blob, the parameters of the model and
    the modeling properties of the blob.  Nothing of the state before the
    call remains. *)
Theorem update_overwrites_every_attribute
    (j : json) (model_get : Z → result Model)
    (ontology_get : Z → result Ontology) (ssd_get : Z → result SSD)
    (o o' : t) :
  update (state_args j model_get ontology_get ssd_get) o = (o', Ok tt) ↔
  ∃ ss os m,
    Forall2 (λ k s, ssd_get k = Ok s) (j_ssds j) ss ∧
    Forall2 (λ k x, ontology_get k = Ok x) (j_ontologies j) os ∧
    model_get (j_lobsterID j) = Ok m ∧
    o' = mk (Some (j_id j)) true (Some ss) (Some os) (Some (j_name j))
            (Some (j_description j)) (m_model_type m)
            (m_resampling_strategy m) (m_num_bags m) (m_bag_size m)
            (j_modelingProps j) (Some (j_lobsterID j)).
Proof.
  unfold update, state_args, gets, ssd_get_of, ontology_get_of. split.
  - destruct (mapM ssd_get (j_ssds j)) as [ss|] eqn:Es; [|done].
    destruct (mapM ontology_get (j_ontologies j)) as [os|] eqn:Eo; [|done].
    destruct (model_get (j_lobsterID j)) as [m|] eqn:Em; [|done].
    intros [= <-]. exists ss, os, m.
    split_and!; [by apply mapM_Ok|by apply mapM_Ok|done|done].
  - intros (ss & os & m & Hs%mapM_Ok & Ho%mapM_Ok & Hm & ->).
    by rewrite Hs, Ho, Hm.
Qed.

Lemma update_overwrites_every_attribute_witness :
  let j := mk_json 7 "trained" "" [1] [2] 3 MPNone in
  let ssd_get := λ k : Z, Ok (mkSSD 0 true (Some k)) in
  let ontology_get := λ k : Z, Ok (mkOntology 1 true (Some k)) in
  let model_get := λ _ : Z, Ok (mk_model "randomForest" "Bagging" 5 6) in
  let o' := mk (Some 7) true (Some [mkSSD 0 true (Some 1)])
               (Some [mkOntology 1 true (Some 2)]) (Some "trained")
               (Some "") "randomForest" "Bagging" 5 6 MPNone (Some 3) in
  update (state_args j model_get ontology_get ssd_get) fresh = (o', Ok tt) ∧
  update (state_args j model_get ontology_get ssd_get) o' = (o', Ok tt).
Proof.
  intros j ssd_get ontology_get model_get o'.
  split; [reflexivity|].
  apply (update_overwrites_every_attribute j model_get ontology_get ssd_get
           o' o').
  apply (update_overwrites_every_attribute j model_get ontology_get ssd_get
           fresh o').
  reflexivity.
Defined.

(** X6.  An [update] that raises leaves the object half updated: it is
    marked stored and bears the id and the name of the blob, while the
    model type, the resampling strategy, the bagging parameters and the
    modeling properties are those of before the call.  The exception is
    that of the endpoint that failed, and what had been fetched before
    is assigned: nothing when an SSD failed, the SSDs when an ontology
    failed, the SSDs, the ontologies and the model id when the model
    failed. *)
Theorem update_failure_is_partial
    (j : json) (model_get : Z → result Model)
    (ontology_get : Z → result Ontology) (ssd_get : Z → result SSD)
    (o o' : t) (e : exn) :
  update (state_args j model_get ontology_get ssd_get) o = (o', Raise e) →
  stored o' = true ∧ id o' = Some (j_id j) ∧ name o' = Some (j_name j) ∧
  model_type o' = model_type o ∧
  resampling_strategy o' = resampling_strategy o ∧
  num_bags o' = num_bags o ∧ bag_size o' = bag_size o ∧
  modeling_props o' = modeling_props o ∧
  ((∃ k, k ∈ j_ssds j ∧ ssd_get k = Raise e ∧
         ssds o' = ssds o ∧ ontologies o' = ontologies o ∧
         model_id o' = model_id o) ∨
   (∃ k ss, k ∈ j_ontologies j ∧ ontology_get k = Raise e ∧
            Forall2 (λ k s, ssd_get k = Ok s) (j_ssds j) ss ∧
            ssds o' = Some ss ∧ ontologies o' = ontologies o ∧
            model_id o' = model_id o) ∨
   (∃ ss os, model_get (j_lobsterID j) = Raise e ∧
             Forall2 (λ k s, ssd_get k = Ok s) (j_ssds j) ss ∧
             Forall2 (λ k x, ontology_get k = Ok x) (j_ontologies j) os ∧
             ssds o' = Some ss ∧ ontologies o' = Some os ∧
             model_id o' = Some (j_lobsterID j))).
Proof.
  unfold update, state_args, gets, ssd_get_of, ontology_get_of.
  destruct (mapM ssd_get (j_ssds j)) as [ss|e1] eqn:Es.
  - destruct (mapM ontology_get (j_ontologies j)) as [os|e2] eqn:Eo.
    + destruct (model_get (j_lobsterID j)) as [m|e3] eqn:Em; [done|].
      intros [= <- <-]. split_and!; try done.
      right; right. exists ss, os.
      split_and!; [done|by apply mapM_Ok|by apply mapM_Ok|done..].
    + intros [= <- <-]. split_and!; try done.
      right; left.
      apply mapM_Raise in Eo as (pre & k & post & Hl & _ & Hk).
      exists k, ss. split_and!; try done; [|by apply mapM_Ok].
      rewrite Hl. set_solver.
  - intros [= <- <-]. split_and!; try done.
    left. apply mapM_Raise in Es as (pre & k & post & Hl & _ & Hk).
    exists k. split_and!; try done. rewrite Hl. set_solver.
Qed.

Lemma update_failure_is_partial_witness :
  let j := mk_json 7 "trained" "" [1; 2] [] 3 MPNone in
  let ssd_get := λ k : Z,
    if bool_decide (k = 1) then Ok (mkSSD 0 true (Some 1))
    else Raise (ServerError "not found") in
  let ontology_get := λ k : Z, Ok (mkOntology 0 true (Some k)) in
  let model_get := λ _ : Z, Ok (mk_model "randomForest" "NoResampling" 5 5) in
  ∃ o',
    update (state_args j model_get ontology_get ssd_get) fresh
    = (o', Raise (ServerError "not found")) ∧
    stored o' = true ∧ id o' = Some 7 ∧ ssds o' = None.
Proof.
  intros j ssd_get ontology_get model_get.
  eexists. split; [reflexivity|].
  destruct (update_failure_is_partial j model_get ontology_get ssd_get
              fresh _ (ServerError "not found") eq_refl)
    as (Hs & Hi & _).
  split_and!; [exact Hs|exact Hi|reflexivity].
Defined.

End ListFacts.

(** ** The graph that the converter builds *)

Section KarmaMore.

Import Karma.

Variable get_label : string → string.
Variable get_prefix : string → string.

#[local] Arguments Karma.link_step : simpl never.
#[local] Arguments Karma.node_step : simpl never.

Local Abbreviation node_step := (Karma.node_step get_label get_prefix).
Local Abbreviation link_step := (Karma.link_step get_label get_prefix).
Local Abbreviation initial_data := (Karma.initial_data get_label get_prefix).
Local Abbreviation node_loop := (Karma.node_loop get_label get_prefix).
Local Abbreviation link_loop := (Karma.link_loop get_label get_prefix).
Local Abbreviation convert_karma_graph :=
  (Karma.convert_karma_graph get_label get_prefix).

(** A loop that returns ran its body on every element, and a loop that
    raises does so in its body. *)
Lemma for_each_Ok_elem {A B} (body : B → A → result B) b l b' x :
  for_each body b l = Ok b' → x ∈ l → ∃ b1 b2, body b1 x = Ok b2.
Proof.
  revert b. induction l as [|y l IH]; intros b; simpl.
  - by intros _ ?%elem_of_nil.
  - destruct (body b y) as [b1|] eqn:E; simpl; [|done].
    intros Hrun [->|Hx]%elem_of_cons; [by eauto|by eapply IH].
Qed.

Lemma for_each_Raise {A B} (body : B → A → result B) b l e :
  for_each body b l = Raise e → ∃ b1 x, x ∈ l ∧ body b1 x = Raise e.
Proof.
  revert b. induction l as [|y l IH]; intros b; simpl; [done|].
  destruct (body b y) as [b1|e'] eqn:E; simpl.
  - intros (b2 & x & Hx & Hb)%IH. exists b2, x. split; [by right|done].
  - intros [= ->]. exists b, y. split; [by left|done].
Qed.

Lemma node_step_raises st n e :
  node_step st n = Raise e → e = KeyError "label".
Proof.
  destruct st as [[c m] g]. unfold Karma.node_step, Karma.initial_data.
  unfold Karma.label_uri.
  destruct (is_internal n); simpl; [|done].
  destruct (n_label_uri n); simpl; [done|]. by intros [= <-].
Qed.

Lemma bind_raises {A B} (m : result A) (k : A → result B) e :
  m ≫= k = Raise e → m = Raise e ∨ ∃ a, m = Ok a ∧ k a = Raise e.
Proof.
  unfold mbind, result_bind.
  destruct m as [a|e']; intros H; [right; by exists a|].
  injection H as ->. by left.
Qed.

Lemma node_attrs_raises n g e :
  node_attrs n g = Raise e → e = KeyError (pretty n).
Proof. unfold node_attrs. destruct (g_node g !! n); by intros [= <-]. Qed.

Lemma update_node_raises n f g e :
  update_node n f g = Raise e → e = KeyError (pretty n).
Proof.
  unfold update_node.
  intros [H|(d & _ & H)]%bind_raises; [by apply node_attrs_raises in H|done].
Qed.

Lemma propagate_raises u v label g e :
  propagate u v label g = Raise e → ∃ key, e = KeyError key.
Proof.
  unfold propagate.
  intros [H|(? & _ & [H|(? & _ & [H|(? & _ & [H|(? & _ & [H|(? & _ & H)]
    %bind_raises)]%bind_raises)]%bind_raises)]%bind_raises)]%bind_raises;
    first [apply node_attrs_raises in H|apply update_node_raises in H];
    by eexists.
Qed.

Lemma link_step_raises nm st l e :
  link_step nm st l = Raise e → (∃ key, e = KeyError key) ∨ e = unpack_error.
Proof.
  destruct st as [[c m] g]. unfold Karma.link_step.
  destruct (split separator (l_id l)) as [|s [|uri [|t [|]]]];
    try (intros [= <-]; by right).
  unfold getitem.
  destruct (nm !! s) as [u|]; simpl; [|intros [= <-]; left; by eexists].
  destruct (nm !! t) as [v|]; simpl; [|intros [= <-]; left; by eexists].
  destruct (is_terminal l); simpl; [|done].
  intros [H|(? & _ & H)]%bind_raises; [|done].
  left. by eapply propagate_raises.
Qed.

Lemma node_loop_dom ns c m g c' m' g' j :
  for_each node_step (c, m, g) ns = Ok (c', m', g') →
  is_Some (g_node g' !! j) ↔
  is_Some (g_node g !! j) ∨ (c ≤ j < c + length ns)%nat.
Proof.
  revert c m g. induction ns as [|n ns IH]; intros c m g; simpl.
  - intros [= _ _ <-]. split; [by left|]. intros [|]; [done|lia].
  - destruct (node_step (c, m, g) n) as [st1|] eqn:E; simpl; [|done].
    apply node_step_inv in E as (d & Hd & ->).
    intros Hrun. rewrite (IH _ _ _ Hrun). simpl.
    destruct (decide (j = c)) as [->|Hne].
    + rewrite lookup_insert_eq. split; [intros _; right; lia|].
      intros _. left. by eexists.
    + rewrite lookup_insert_ne by done.
      split; (intros [|]; [by left|right; lia]).
Qed.

Lemma link_loop_dom nm ls c m g c' m' g' j :
  for_each (link_step nm) (c, m, g) ls = Ok (c', m', g') →
  is_Some (g_node g' !! j) ↔ is_Some (g_node g !! j).
Proof.
  revert c m g. induction ls as [|l ls IH]; intros c m g; simpl.
  - by intros [= _ _ <-].
  - destruct (link_step nm (c, m, g) l) as [[[c1 m1] g1]|] eqn:E; simpl;
      [|done].
    intros Hrun. rewrite (IH _ _ _ Hrun).
    by eapply link_step_dom.
Qed.

(** The link loop leaves alone a node that no terminal link points at. *)
Lemma link_loop_untouched nm ls c m g c' m' g' v :
  for_each (link_step nm) (c, m, g) ls = Ok (c', m', g') →
  (∀ l t, l ∈ ls → propagates_to t l → nm !! t ≠ Some v) →
  g_node g' !! v = g_node g !! v.
Proof.
  revert c m g. induction ls as [|l ls IH]; intros c m g; simpl.
  - by intros [= _ _ <-].
  - destruct (link_step nm (c, m, g) l) as [st1|] eqn:E; simpl; [|done].
    apply link_step_inv in E
      as (s & uri & t & u & v' & g1 & Hsplit & _ & Ht & -> & _ & Hg).
    intros Hrun Hnot.
    rewrite (IH _ _ _ Hrun); [|intros l' t' Hl'; apply Hnot; by right].
    destruct (is_terminal l) eqn:Hterm.
    + destruct Hg as (src & old & Hu & Hv & ->).
      rewrite lookup_insert_ne; [done|]. intros ->.
      apply (Hnot l t); [by left| |done].
      split; [done|]. unfold target_of. by rewrite Hsplit.
    + by rewrite Hg.
Qed.

(** The edges that the link loop adds. *)
Lemma link_loop_edges nm ls c m g c' m' g' :
  for_each (link_step nm) (c, m, g) ls = Ok (c', m', g') →
  length (g_edges g') = (length (g_edges g) + length ls)%nat ∧
  (∀ j, (j < length (g_edges g))%nat → g_edges g' !! j = g_edges g !! j) ∧
  (∀ j l, ls !! j = Some l →
     ∃ s uri t u v,
       split separator (l_id l) = [s; uri; t] ∧
       nm !! s = Some u ∧ nm !! t = Some v ∧
       g_edges g' !! (length (g_edges g) + j)%nat
       = Some (mk_edge u v (c + j)
                 (mk_link_data (l_id l) (l_type l) (l_weight l)
                               (get_label uri) (get_prefix uri)))).
Proof.
  revert c m g. induction ls as [|l ls IH]; intros c m g; simpl.
  - intros [= _ _ <-]. split_and!; [lia|done|]. by intros j l ?.
  - destruct (link_step nm (c, m, g) l) as [st1|] eqn:E; simpl; [|done].
    apply link_step_inv in E
      as (s & uri & t & u & v & g1 & Hsplit & Hs & Ht & -> & Hedges & _).
    intros Hrun. destruct (IH _ _ _ Hrun) as (Hlen & Hold & Hnew).
    rewrite Hedges in Hlen, Hold, Hnew. rewrite length_app in Hlen, Hold, Hnew.
    simpl in Hlen, Hold, Hnew.
    split_and!.
    + lia.
    + intros j Hj. rewrite Hold by lia. by rewrite lookup_app_l.
    + intros [|j] l' Hl'; simpl in Hl'.
      * injection Hl' as <-. exists s, uri, t, u, v.
        split_and!; try done.
        rewrite Nat.add_0_r, Hold by lia.
        rewrite lookup_app_r by lia. by rewrite Nat.sub_diag, Nat.add_0_r.
      * destruct (Hnew j l' Hl') as (s' & uri' & t' & u' & v' & ? & ? & ? & He).
        exists s', uri', t', u', v'. split_and!; try done.
        replace (length (g_edges g) + S j)%nat
          with (length (g_edges g) + 1 + j)%nat by lia.
        by replace (c + S j)%nat with (S (c + j)) by lia.
Qed.

(** X7.  [convert_karma_graph] returns exactly on the inputs of the shape
    it is written for ([well_formed]: an internal node carries its URI, a
    link identifier splits in three and names two nodes).  On any other
    input it raises a [KeyError] or the [ValueError] of the unpacking of
    an identifier that does not split in three. *)
Theorem conversion_returns_iff_well_formed (data : kdata) :
  (is_ok (convert_karma_graph data) = true ↔ well_formed data) ∧
  (∀ e, convert_karma_graph data = Raise e →
        (∃ key, e = KeyError key) ∨ e = unpack_error).
Proof.
  split; [split|].
  - destruct (convert_karma_graph data) as [[[g nm] lm]|] eqn:E; [|done].
    intros _. apply convert_inv in E as (n & g0 & c & Hnodes & Hlinks).
    unfold Karma.node_loop in Hnodes. unfold Karma.link_loop in Hlinks.
    split.
    + intros node Hin Hint.
      destruct (for_each_Ok_elem _ _ _ _ _ Hnodes Hin)
        as ([[c1 m1] g1] & st & Hstep).
      apply node_step_inv in Hstep as (d & Hd & _).
      unfold Karma.initial_data, Karma.label_uri in Hd. rewrite Hint in Hd.
      by destruct (n_label_uri node).
    + intros l Hin.
      destruct (for_each_Ok_elem _ _ _ _ _ Hlinks Hin)
        as ([[c1 m1] g1] & st & Hstep).
      apply link_step_inv in Hstep
        as (s & uri & t & u & v & g2 & Hsplit & Hs & Ht & _).
      exists s, t. unfold source_of, target_of. rewrite Hsplit.
      split_and!; try done.
      * destruct (index_loop_sound n_id node_step
                    (node_step_index get_label get_prefix) _ _ _ _ _
                    _ _ s u Hnodes Hs) as [[_ Hpos]|[? _]]; [|done].
        by eapply list_elem_of_lookup_2.
      * destruct (index_loop_sound n_id node_step
                    (node_step_index get_label get_prefix) _ _ _ _ _
                    _ _ t v Hnodes Ht) as [[_ Hpos]|[? _]]; [|done].
        by eapply list_elem_of_lookup_2.
  - intros [Hnodes Hlinks].
    destruct (node_loop_total get_label get_prefix (nodes data)
                (O, ∅, empty_graph) Hnodes) as [[[n nm] g0] Hrun].
    destruct (link_loop_total get_label get_prefix nm (links data)
                (O, ∅, g0)) as [[[c lm] g] Hl].
    + intros id j Hj. simpl.
      destruct (node_loop_attrs _ _ _ _ _ _ _ _ Hrun Hj)
        as (? & d & _ & _ & _ & ->).
      by eexists.
    + intros l Hl. destruct (Hlinks l Hl) as (s & t & Hs & Ht & Hsin & Htin).
      exists s, t. split_and!; try done.
      * eapply (index_loop_total n_id node_step
                  (node_step_index get_label get_prefix)); eauto.
      * eapply (index_loop_total n_id node_step
                  (node_step_index get_label get_prefix)); eauto.
    + unfold Karma.convert_karma_graph, Karma.node_loop, Karma.link_loop.
      rewrite Hrun. simpl. by rewrite Hl.
  - intros e. unfold Karma.convert_karma_graph, Karma.node_loop,
      Karma.link_loop.
    destruct (for_each node_step _ (nodes data)) as [[[n nm] g0]|e1] eqn:En;
      simpl.
    + destruct (for_each (link_step nm) _ (links data)) as [[[c lm] g]|e2]
        eqn:El; simpl; [done|].
      intros [= ->].
      apply for_each_Raise in El as (st & l & _ & Hstep).
      by eapply link_step_raises.
    + intros [= ->].
      apply for_each_Raise in En as (st & node & _ & Hstep).
      left. exists "label". by eapply node_step_raises.
Qed.

(** X8.  After a conversion that returns, the graph has one edge for each
    link, in the order of the array: the edge of the link at position [j]
    goes from the index of its source to the index of its target, has the
    key [j] and carries the identifier, the type and the weight of the
    link with the label and the prefix of its URI.  The keys of the edges
    are pairwise distinct, also when two links bear the same
    identifier. *)
Theorem edges_follow_links
    (data : kdata) (g : graph) (nm lm : gmap string nat) :
  convert_karma_graph data = Ok (g, nm, lm) →
  length (g_edges g) = length (links data) ∧
  (∀ j l, links data !! j = Some l →
     ∃ s uri t u v,
       split separator (l_id l) = [s; uri; t] ∧
       nm !! s = Some u ∧ nm !! t = Some v ∧
       g_edges g !! j
       = Some (mk_edge u v j
                 (mk_link_data (l_id l) (l_type l) (l_weight l)
                               (get_label uri) (get_prefix uri)))) ∧
  NoDup (e_key <$> g_edges g).
Proof.
  intros (n & g0 & c & Hnodes & Hlinks)%convert_inv.
  unfold Karma.node_loop in Hnodes. unfold Karma.link_loop in Hlinks.
  destruct (node_loop_graph _ _ _ _ _ _ _ _ _ Hnodes) as (Hg0 & _ & _).
  destruct (link_loop_edges _ _ _ _ _ _ _ _ Hlinks) as (Hlen & _ & Hnew).
  rewrite Hg0 in Hlen, Hnew. simpl in Hlen, Hnew.
  assert (∀ j l, links data !! j = Some l →
     ∃ s uri t u v,
       split separator (l_id l) = [s; uri; t] ∧
       nm !! s = Some u ∧ nm !! t = Some v ∧
       g_edges g !! j
       = Some (mk_edge u v j
                 (mk_link_data (l_id l) (l_type l) (l_weight l)
                               (get_label uri) (get_prefix uri)))) as Hedges.
  { intros j l Hj. destruct (Hnew j l Hj) as (s & uri & t & u & v & H).
    by exists s, uri, t, u, v. }
  split_and!; [done|done|].
  apply NoDup_alt. intros i j k Hi Hj.
  rewrite list_lookup_fmap in Hi, Hj.
  destruct (g_edges g !! i) as [ei|] eqn:Ei; [|done].
  destruct (g_edges g !! j) as [ej|] eqn:Ej; [|done].
  simpl in Hi, Hj.
  destruct (lookup_lt_is_Some_2 (links data) i) as [li Hli].
  { rewrite <- Hlen. by eapply lookup_lt_Some. }
  destruct (lookup_lt_is_Some_2 (links data) j) as [lj Hlj].
  { rewrite <- Hlen. by eapply lookup_lt_Some. }
  destruct (Hedges i li Hli) as (? & ? & ? & ? & ? & _ & _ & _ & Hei).
  destruct (Hedges j lj Hlj) as (? & ? & ? & ? & ? & _ & _ & _ & Hej).
  rewrite Ei in Hei. rewrite Ej in Hej. simplify_eq. by simpl in *.
Qed.

(** X9.  After a conversion that returns, the nodes of the graph are the
    positions of the node array.  The node at position [i] is a
    [ClassNode] when the array has an [InternalNode] there and a
    [DataNode] otherwise, whatever the links do, and it has the
    attributes it was created with unless a terminal link names a target
    whose index is [i]. *)
Theorem nodes_follow_array
    (data : kdata) (g : graph) (nm lm : gmap string nat) :
  convert_karma_graph data = Ok (g, nm, lm) →
  (∀ i, is_Some (g_node g !! i) ↔ (i < length (nodes data))%nat) ∧
  (∀ i node, nodes data !! i = Some node →
     ∃ d d0,
       g_node g !! i = Some d ∧ initial_data node = Ok d0 ∧
       nd_type d = (if is_internal node then "ClassNode" else "DataNode") ∧
       ((∀ l t, l ∈ links data → propagates_to t l → nm !! t ≠ Some i) →
        d = d0)).
Proof.
  intros (n & g0 & c & Hnodes & Hlinks)%convert_inv.
  unfold Karma.node_loop in Hnodes. unfold Karma.link_loop in Hlinks.
  split.
  - intros i. rewrite (link_loop_dom _ _ _ _ _ _ _ _ i Hlinks).
    rewrite (node_loop_dom _ _ _ _ _ _ _ i Hnodes). simpl.
    rewrite lookup_empty. split.
    + intros [[? ?]|?]; [done|lia].
    + intros ?. right. lia.
  - intros i node Hi.
    destruct (node_loop_graph _ _ _ _ _ _ _ _ _ Hnodes) as (_ & _ & Hinit).
    destruct (Hinit i node Hi) as (d0 & Hd0 & Hg0). simpl in Hg0.
    assert (is_Some (g_node g !! i)) as [d Hd].
    { rewrite (link_loop_dom _ _ _ _ _ _ _ _ i Hlinks). by eexists. }
    exists d, d0. split_and!; [done|done| |].
    + destruct (link_loop_kind _ _ _ _ _ _ _ _ _ _ _ _ Hlinks Hd)
        as (d1 & Hd1 & <-).
      rewrite Hg0 in Hd1. injection Hd1 as <-.
      unfold Karma.initial_data in Hd0.
      destruct (is_internal node); simpl in Hd0.
      * destruct (label_uri node); simpl in Hd0; [|done].
        by injection Hd0 as <-.
      * by injection Hd0 as <-.
    + intros Hnot.
      rewrite (link_loop_untouched _ _ _ _ _ _ _ _ i Hlinks Hnot) in Hd.
      rewrite Hg0 in Hd. by injection Hd.
Qed.

End KarmaMore.

(** ** Link identifiers *)

Section LinkIds.

Import Karma.

Lemma string_app_cons c a b : String c a +:+ b = String c (a +:+ b).
Proof. done. Qed.

Lemma string_app_nil_l a : "" +:+ a = a.
Proof. done. Qed.

Lemma string_app_nil_r a : a +:+ "" = a.
Proof. induction a as [|c a IH]; [done|]. by rewrite string_app_cons, IH. Qed.

Lemma string_app_assoc a b c : (a +:+ b) +:+ c = a +:+ b +:+ c.
Proof.
  induction a as [|x a IH]; [done|]. by rewrite !string_app_cons, IH.
Qed.

Lemma string_prefix_nil r : String.prefix "" r = true.
Proof. by destruct r. Qed.

(** A separator at the head of what is left to read ends the piece. *)
Lemma split_go_separator cur r :
  split_go separator 0 cur (separator +:+ r)
  = cur :: split_go separator 0 "" r.
Proof.
  unfold separator.
  change ("---" +:+ r) with (String "-" (String "-" (String "-" r))).
  simpl. by rewrite string_prefix_nil.
Qed.

Lemma string_prefix_cons a s1 b s2 :
  String.prefix (String a s1) (String b s2)
  = if ascii_dec a b then String.prefix s1 s2 else false.
Proof. done. Qed.

Lemma occurs_cons sep c a :
  occurs sep (String c a) = String.prefix sep (String c a) || occurs sep a.
Proof. done. Qed.

Lemma split_go_step sep cur c s :
  split_go sep 0 cur (String c s)
  = if String.prefix sep (String c s)
    then cur :: split_go sep (Nat.pred (String.length sep)) "" s
    else split_go sep 0 (cur +:+ String c "") s.
Proof. done. Qed.

Lemma delimited_cons c a : delimited (String c a) = true → delimited a = true.
Proof.
  unfold delimited. rewrite !andb_true_iff, !negb_true_iff, occurs_cons.
  intros [[_ Ho]%orb_false_iff He]. split; [done|].
  by destruct a as [|c' a].
Qed.

Lemma delimited_no_match c a r :
  delimited (String c a) = true →
  String.prefix separator (String c a +:+ separator +:+ r) = false.
Proof.
  unfold delimited. rewrite !andb_true_iff, !negb_true_iff, occurs_cons.
  intros [[Hp _]%orb_false_iff He]. unfold separator in *.
  rewrite string_app_cons, string_prefix_cons. rewrite string_prefix_cons in Hp.
  destruct (ascii_dec "-" c) as [<-|]; [|done].
  destruct a as [|c2 a]; [done|].
  rewrite string_app_cons, string_prefix_cons. rewrite string_prefix_cons in Hp.
  destruct (ascii_dec "-" c2) as [<-|]; [|done].
  destruct a as [|c3 a]; [done|].
  rewrite string_app_cons, string_prefix_cons. rewrite string_prefix_cons in Hp.
  destruct (ascii_dec "-" c3) as [<-|]; [|done].
  by rewrite string_prefix_nil in Hp.
Qed.

Lemma split_go_delimited a cur r :
  delimited a = true →
  split_go separator 0 cur (a +:+ separator +:+ r)
  = (cur +:+ a) :: split_go separator 0 "" r.
Proof.
  revert cur. induction a as [|c a IH]; intros cur Hd.
  - by rewrite string_app_nil_l, string_app_nil_r, split_go_separator.
  - pose proof (delimited_no_match c a r Hd) as Hno.
    rewrite string_app_cons in *. rewrite split_go_step, Hno.
    rewrite IH by (by eapply delimited_cons).
    by rewrite string_app_assoc.
Qed.

Lemma split_go_no_separator t cur :
  occurs separator t = false → split_go separator 0 cur t = [cur +:+ t].
Proof.
  revert cur. induction t as [|c t IH]; intros cur Ho.
  - by rewrite string_app_nil_r.
  - rewrite occurs_cons in Ho. apply orb_false_iff in Ho as [Hp Ho].
    rewrite split_go_step, Hp. rewrite IH by done.
    by rewrite string_app_assoc.
Qed.

(** X10.  A link identifier written [source---uri---target] is read back
    as these three parts when the source and the URI hold no separator
    and do not end with a dash, and the target holds no separator: the
    link then goes from [source] to [target]. *)
Theorem link_id_names_its_ends (l : klink) (s uri t : string) :
  l_id l = link_id s uri t →
  delimited s = true → delimited uri = true →
  occurs separator t = false →
  split separator (l_id l) = [s; uri; t] ∧
  source_of l = Some s ∧ target_of l = Some t.
Proof.
  intros Hid Hs Huri Ht.
  assert (split separator (l_id l) = [s; uri; t]) as Hsplit.
  { rewrite Hid. unfold split, link_id.
    rewrite split_go_delimited by done.
    rewrite split_go_delimited by done.
    by rewrite split_go_no_separator. }
  unfold source_of, target_of. by rewrite Hsplit.
Qed.

Lemma link_id_names_its_ends_witness :
  let l := mk_klink "n1---http://www.w3.org/2000/01/rdf-schema#label---n2"
                    "DataPropertyLink" 1%Q in
  split separator (l_id l)
  = ["n1"; "http://www.w3.org/2000/01/rdf-schema#label"; "n2"] ∧
  source_of l = Some "n1" ∧ target_of l = Some "n2".
Proof.
  intros l.
  apply (link_id_names_its_ends l "n1"
           "http://www.w3.org/2000/01/rdf-schema#label" "n2");
    reflexivity.
Defined.

(** A source that ends with a dash is cut short. *)
Lemma dash_before_separator_moves_the_cut :
  link_id "a-" "u" "t" = "a----u---t" ∧
  split separator (link_id "a-" "u" "t") = ["a"; "-u"; "t"].
Proof. done. Qed.

End LinkIds.

(** ** The dataset endpoint and the server *)

Section StoreFacts.

Context {J : Type}.

Lemma lookup_store_is_Some key (s : list (Z * J)) :
  key ∈ s.*1 → is_Some (Api.lookup_store key s).
Proof.
  unfold Api.lookup_store. induction s as [|[k j] s IH]; simpl.
  - by intros ?%elem_of_nil.
  - intros [->|Hin]%elem_of_cons.
    + rewrite bool_decide_eq_true_2 by done. by eexists.
    + destruct (bool_decide (k = key)); [by eexists|by apply IH].
Qed.

Lemma lookup_store_elem key (s : list (Z * J)) j :
  Api.lookup_store key s = Some j → (key, j) ∈ s.
Proof.
  unfold Api.lookup_store. induction s as [|[k j'] s IH]; simpl; [done|].
  destruct (bool_decide (k = key)) eqn:E.
  - apply bool_decide_eq_true in E as ->. intros [= ->]. by left.
  - intros H. right. by apply IH.
Qed.

Lemma lookup_store_app key (s1 s2 : list (Z * J)) :
  key ∉ s1.*1 →
  Api.lookup_store key (s1 ++ s2)%list = Api.lookup_store key s2.
Proof.
  unfold Api.lookup_store. induction s1 as [|[k j] s1 IH]; simpl; [done|].
  intros [Hne Hnot]%not_elem_of_cons.
  rewrite bool_decide_eq_false_2 by done. by apply IH.
Qed.

Lemma fresh_key_above (s : list (Z * J)) k :
  k ∈ s.*1 → k < Api.fresh_key s.
Proof.
  unfold Api.fresh_key. induction s as [|[k' j] s IH]; simpl.
  - by intros ?%elem_of_nil.
  - intros [->|Hin]%elem_of_cons; [lia|]. specialize (IH Hin). lia.
Qed.

Lemma fresh_key_fresh (s : list (Z * J)) : Api.fresh_key s ∉ s.*1.
Proof. intros Hin%fresh_key_above. lia. Qed.

Lemma lookup_store_filter_ne key k (s : list (Z * J)) :
  k ≠ key →
  Api.lookup_store k (filter (λ e, e.1 ≠ key) s) = Api.lookup_store k s.
Proof.
  intros Hne. unfold Api.lookup_store.
  induction s as [|[k' j] s IH]; [done|].
  rewrite filter_cons. simpl. destruct (decide (k' ≠ key)) as [Hk|Hk]; simpl.
  - destruct (bool_decide (k' = k)); [done|]. exact IH.
  - apply dec_stable in Hk as ->.
    by rewrite bool_decide_eq_false_2 by done.
Qed.

Lemma fmap_fst_filter_ne key (s : list (Z * J)) :
  (filter (λ e, e.1 ≠ key) s).*1 = filter (λ k, k ≠ key) s.*1.
Proof.
  induction s as [|[k j] s IH]; [done|].
  rewrite fmap_cons, !filter_cons. simpl.
  destruct (decide (k ≠ key)); simpl; [f_equal|]; exact IH.
Qed.

End StoreFacts.

Section DataSetMore.

Import DataSetEndpoint.

(** The body of the loop of [items]. *)
Local Abbreviation listed :=
  (λ k, j ← call_api (Api.item k); new_dataset j).

Lemma M_bind_Ok {W A B} (m : M W A) (k : A → M W B) w a w' :
  m w = (Ok a, w') → (m ≫= k) w = k a w'.
Proof. intros Hm. unfold mbind, M_bind. by rewrite Hm. Qed.

Lemma listed_step k w j :
  Api.lookup_store k (Api.store (api w)) = Some j →
  listed k w
  = (Ok (mk_dataset (next_oid w) j),
     mk (Api.mk (Api.store (api w)) (Api.trace (api w) ++ [Api.Item k])%list)
        (files w) (S (next_oid w)) (items_cache w) (get_cache w)
        (columns_cache w)).
Proof.
  intros Hj. unfold mbind, M_bind, call_api, Api.item. by rewrite Hj.
Qed.

(** The loop of [items] over keys that the server holds: one call and one
    new object for each key. *)
Lemma collect_listed keys w :
  (∀ k, k ∈ keys → k ∈ (Api.store (api w)).*1) →
  ∃ ds,
    collect listed keys w
    = (Ok ds,
       mk (Api.mk (Api.store (api w))
                  (Api.trace (api w) ++ (Api.Item <$> keys))%list)
          (files w) (next_oid w + length keys)%nat (items_cache w)
          (get_cache w) (columns_cache w)) ∧
    length ds = length keys ∧
    (∀ i k, keys !! i = Some k →
       ∃ j, Api.lookup_store k (Api.store (api w)) = Some j ∧
            ds !! i = Some (mk_dataset (next_oid w + i)%nat j)).
Proof.
  revert w. induction keys as [|k keys IH]; intros w Hkeys.
  - exists []. simpl. split_and!; [|done|done].
    unfold mret, M_ret. destruct w as [[s tr] ? ? ? ? ?]; simpl.
    by rewrite app_nil_r, Nat.add_0_r.
  - destruct (lookup_store_is_Some k (Api.store (api w))) as [j Hj];
      [apply Hkeys; by left|].
    set (w1 := mk (Api.mk (Api.store (api w))
                          (Api.trace (api w) ++ [Api.Item k])%list)
                  (files w) (S (next_oid w)) (items_cache w) (get_cache w)
                  (columns_cache w)).
    destruct (IH w1) as (ds & Hrun & Hlen & Hds).
    { intros k' Hk'. apply Hkeys. by right. }
    exists (mk_dataset (next_oid w) j :: ds).
    split_and!.
    + simpl. erewrite M_bind_Ok by (by apply listed_step).
      fold w1. erewrite M_bind_Ok by exact Hrun.
      unfold mret, M_ret. f_equal. subst w1. simpl.
      rewrite <- app_assoc. simpl. do 2 f_equal. lia.
    + simpl. by rewrite Hlen.
    + intros [|i] k' Hi; simpl in Hi.
      * injection Hi as <-. exists j. split; [done|].
        by rewrite Nat.add_0_r.
      * destruct (Hds i k' Hi) as (j' & Hj' & Hd). exists j'.
        split; [done|]. simpl. rewrite Hd. subst w1. simpl.
        do 2 f_equal. lia.
Qed.

(** [items] when nothing is cached. *)
Lemma items_cold w :
  items_cache w = [] →
  ∃ ds,
    items w
    = (Ok ds,
       mk (Api.mk (Api.store (api w))
                  (Api.trace (api w)
                   ++ Api.Keys :: (Api.Item <$> (Api.store (api w)).*1))%list)
          (files w) (next_oid w + length (Api.store (api w)))%nat
          [(tt, ds)] (get_cache w) (columns_cache w)) ∧
    length ds = length (Api.store (api w)) ∧
    (∀ i k, (Api.store (api w)).*1 !! i = Some k →
       ∃ j, Api.lookup_store k (Api.store (api w)) = Some j ∧
            ds !! i = Some (mk_dataset (next_oid w + i)%nat j)).
Proof.
  intros Hcold.
  set (w0 := mk (Api.mk (Api.store (api w))
                        (Api.trace (api w) ++ [Api.Keys])%list)
                (files w) (next_oid w) (items_cache w) (get_cache w)
                (columns_cache w)).
  destruct (collect_listed (Api.store (api w)).*1 w0)
    as (ds & Hrun & Hlen & Hds); [done|].
  exists ds. split_and!.
  - unfold items, cached. rewrite Hcold. simpl.
    erewrite (M_bind_Ok (call_api Api.keys)) by reflexivity.
    change (set_api (Api.log Api.Keys (api w)) w) with w0.
    rewrite Hrun. simpl. rewrite Hcold. unfold set_items_cache.
    simpl. rewrite <- app_assoc, length_fmap. done.
  - by rewrite Hlen, length_fmap.
  - done.
Qed.

Lemma items_warm w ds rest :
  items_cache w = (tt, ds) :: rest → items w = (Ok ds, w).
Proof.
  intros Hc. unfold items, cached. rewrite Hc. simpl.
  rewrite <- Hc. by destruct w.
Qed.

(** X12.  [items] with nothing cached asks the server for its keys and
    then for the blob of each key, in the order of the keys: it returns
    one new object for each key, with the blob of that key, and leaves
    the store of the server and the cache of [get] as they are.  A second
    call returns the same objects and calls nothing. *)
Theorem items_lists_the_server_once (w : t) :
  items_cache w = [] →
  ∃ ds w1,
    items w = (Ok ds, w1) ∧
    length ds = length (Api.store (api w)) ∧
    (∀ i k, (Api.store (api w)).*1 !! i = Some k →
       ∃ j, Api.lookup_store k (Api.store (api w)) = Some j ∧
            ds !! i = Some (mk_dataset (next_oid w + i)%nat j)) ∧
    Api.trace (api w1)
    = (Api.trace (api w)
       ++ Api.Keys :: (Api.Item <$> (Api.store (api w)).*1))%list ∧
    Api.store (api w1) = Api.store (api w) ∧
    get_cache w1 = get_cache w ∧
    items w1 = (Ok ds, w1).
Proof.
  intros Hcold. destruct (items_cold w Hcold) as (ds & Hrun & Hlen & Hds).
  eexists ds, _. split; [exact Hrun|]. by split_and!.
Qed.

Lemma items_lists_the_server_once_witness :
  items_cache (sample 2) = [] ∧
  ∃ ds w1,
    items (sample 2) = (Ok ds, w1) ∧
    length ds = length (Api.store (api (sample 2))) ∧
    (∀ i k, (Api.store (api (sample 2))).*1 !! i = Some k →
       ∃ j, Api.lookup_store k (Api.store (api (sample 2))) = Some j ∧
            ds !! i = Some (mk_dataset (next_oid (sample 2) + i)%nat j)) ∧
    Api.trace (api w1)
    = (Api.trace (api (sample 2))
       ++ Api.Keys :: (Api.Item <$> (Api.store (api (sample 2))).*1))%list ∧
    Api.store (api w1) = Api.store (api (sample 2)) ∧
    get_cache w1 = get_cache (sample 2) ∧
    items w1 = (Ok ds, w1).
Proof.
  split; [reflexivity|].
  apply (items_lists_the_server_once (sample 2)). reflexivity.
Defined.

(** *** The cache of [get] stays within its size *)

Lemma after_call_bounded {K V} `{Countable K} (k : K) (r : option V)
    (c : cache K V) :
  (length c ≤ maxsize)%nat ∧ NoDup (c.*1) →
  (length (after_call k r c) ≤ maxsize)%nat ∧ NoDup ((after_call k r c).*1).
Proof.
  intros [Hlen Hnd]. unfold after_call.
  destruct (find k c) as [[v rest]|] eqn:Ef.
  - destruct (find_Some_keys _ _ _ _ Ef Hnd) as (Hk & Hnd' & _ & Hlt).
    split; [simpl; lia|]. simpl. by apply NoDup_cons.
  - destruct r as [v'|]; [|done]. split.
    + rewrite length_take. lia.
    + rewrite fmap_take. eapply sublist_NoDup; [|apply sublist_take].
      simpl. apply NoDup_cons. split; [|done]. by apply find_None.
Qed.

Lemma keeps_upload filename description :
  keeps_get_cache (upload filename description).
Proof.
  apply keeps_decache. intros w.
  destruct (List.find _ (files w)) as [[f cols]|]; [|done].
  apply (keeps_bind (call_api _) new_dataset);
    [apply keeps_call_api|apply keeps_new_dataset].
Qed.

(** X11.  Whatever calls are made on a dataset endpoint (reads, uploads
    and removals, returning or raising), the cache of [get] never holds
    more than 32 entries, and never two entries for one key. *)
Theorem get_cache_stays_bounded
    (a : Api.t blob) (fs : list (string * list Column)) (os : list op) :
  (length (get_cache (run_ops os (init a fs))) ≤ maxsize)%nat ∧
  NoDup (get_cache (run_ops os (init a fs))).*1.
Proof.
  assert (∀ w, (length (get_cache w) ≤ maxsize)%nat ∧ NoDup (get_cache w).*1 →
               (length (get_cache (run_ops os w)) ≤ maxsize)%nat ∧
               NoDup (get_cache (run_ops os w)).*1) as Hinv.
  { induction os as [|o os IH]; intros w Hw; [done|].
    change (run_ops (o :: os) w) with (run_ops os (run_op o w)).
    apply IH. destruct o as [[key| |]|f d|tgt]; simpl.
    - rewrite get_get_cache. by apply after_call_bounded.
    - by rewrite keeps_items.
    - by rewrite keeps_columns.
    - by rewrite keeps_upload.
    - by rewrite keeps_remove. }
  apply Hinv. simpl. split; [lia|constructor].
Qed.

(** X13.  An [upload] that returned has made one post and has left the
    cache of [items] empty, whatever it held before.  The next [items]
    therefore asks the server again: it lists a dataset with the JSON of
    the uploaded one, and the object that [upload] returned is not among
    the listed objects. *)
Theorem uploaded_dataset_is_listed
    (w : t) (filename : string) (description : option string)
    (d : DataSet) (w1 : t) :
  upload filename description w = (Ok d, w1) →
  Api.trace (api w1) = (Api.trace (api w) ++ [Api.Post])%list ∧
  items_cache w1 = [] ∧
  ∃ ds w2 d',
    items w1 = (Ok ds, w2) ∧
    d' ∈ ds ∧ ds_json d' = ds_json d ∧ d ∉ ds.
Proof.
  unfold upload, decache. simpl.
  destruct (List.find _ (files w)) as [[f cols]|] eqn:Ef; [|done].
  unfold mbind, M_bind, call_api, Api.post, new_dataset. simpl.
  intros [= <- <-]. simpl. split_and!; [done|done|].
  set (j := mk_blob (Api.fresh_key (Api.store (api w)))
                    (default "" description) cols).
  set (w1 := mk _ _ _ _ _ _).
  destruct (items_cold w1 eq_refl) as (ds & Hrun & Hlen & Hds).
  subst w1. simpl in *.
  rewrite length_app in Hlen. simpl in Hlen.
  destruct (Hds (length (Api.store (api w)))
              (Api.fresh_key (Api.store (api w)))) as (j' & Hj' & Hd).
  { rewrite fmap_app. rewrite lookup_app_r by (by rewrite length_fmap).
    by rewrite length_fmap, Nat.sub_diag. }
  rewrite lookup_store_app in Hj' by apply fresh_key_fresh.
  unfold Api.lookup_store in Hj'. simpl in Hj'.
  rewrite bool_decide_eq_true_2 in Hj' by done. injection Hj' as <-.
  eexists ds, _, _. split; [exact Hrun|]. split_and!.
  - apply list_elem_of_lookup. eexists. exact Hd.
  - done.
  - intros [i Hi]%list_elem_of_lookup.
    assert (i < length ds)%nat as Hlt by (by eapply lookup_lt_Some).
    destruct (lookup_lt_is_Some_2
                ((Api.store (api w)
                  ++ [(Api.fresh_key (Api.store (api w)), j)])%list.*1) i)
      as [k Hk].
    { rewrite length_fmap, length_app. simpl. lia. }
    destruct (Hds i k Hk) as (j0 & _ & Hd0).
    rewrite Hi in Hd0. injection Hd0 as Hoid _. lia.
Qed.

(** The listing is cached before the upload, and read again after it. *)
Lemma uploaded_dataset_is_listed_witness :
  let w0 := init (sample_server 1) [("people.csv", [mk_column 7 "name"])] in
  let w := (items w0).2 in
  ∃ d w1,
    items_cache w = [(tt, [mk_dataset 0 (sample_blob 0)])] ∧
    upload "people.csv" None w = (Ok d, w1) ∧
    Api.trace (api w1) = (Api.trace (api w) ++ [Api.Post])%list ∧
    items_cache w1 = [] ∧
    ∃ ds w2 d',
      items w1 = (Ok ds, w2) ∧
      d' ∈ ds ∧ ds_json d' = ds_json d ∧ d ∉ ds.
Proof.
  intros w0 w.
  exists (mk_dataset 1 (mk_blob 1 "" [mk_column 7 "name"])),
         (upload "people.csv" None w).2.
  split; [reflexivity|]. split; [reflexivity|].
  apply (uploaded_dataset_is_listed w "people.csv" None). reflexivity.
Defined.

Lemma consistent_filter key s :
  consistent s → consistent (filter (λ e, e.1 ≠ key) s).
Proof. intros Hc k j [_ Hin]%list_elem_of_filter. by apply Hc. Qed.

(** The identifiers that [items] lists on a consistent server are the keys
    of the server. *)
Lemma items_cold_ids w ds w1 :
  items_cache w = [] → consistent (Api.store (api w)) →
  items w = (Ok ds, w1) → ds_id <$> ds = (Api.store (api w)).*1.
Proof.
  intros Hcold Hcons Hrun.
  destruct (items_cold w Hcold) as (ds' & Hrun' & Hlen & Hds).
  rewrite Hrun in Hrun'. injection Hrun' as <- _.
  apply list_eq_same_length with (length ds);
    [by rewrite length_fmap|by rewrite length_fmap|].
  intros i x y Hi Hx Hy.
  destruct (Hds i y Hy) as (j & Hj & Hd).
  rewrite list_lookup_fmap, Hd in Hx. simpl in Hx. injection Hx as <-.
  unfold ds_id. simpl. apply Hcons. by apply lookup_store_elem.
Qed.

Lemma remove_by_key_state key w w1 :
  remove (ByKey key) w = (Ok tt, w1) →
  is_Some (Api.lookup_store key (Api.store (api w))) ∧
  w1 = mk (Api.mk (filter (λ e, e.1 ≠ key) (Api.store (api w)))
                  (Api.trace (api w) ++ [Api.Delete (Some key)])%list)
          (files w) (next_oid w) [] (get_cache w) (columns_cache w).
Proof.
  unfold remove, decache, _apply, call_api, Api.delete. simpl.
  destruct (Api.lookup_store key (Api.store (api w))) as [j|] eqn:Hj; [|done].
  intros [= <-]. split; [by eexists|done].
Qed.

(** X14.  On a server whose blobs carry their keys, a [remove(key)] that
    returned found the key on the server, and the next [items] lists the
    datasets of the other keys, in the order of the server, and none with
    the id [key]. *)
Theorem removed_dataset_is_not_listed (w : t) (key : Z) (w1 : t) :
  consistent (Api.store (api w)) →
  remove (ByKey key) w = (Ok tt, w1) →
  key ∈ (Api.store (api w)).*1 ∧
  ∃ ds w2,
    items w1 = (Ok ds, w2) ∧
    ds_id <$> ds = filter (λ k, k ≠ key) (Api.store (api w)).*1 ∧
    (key ∉ ds_id <$> ds).
Proof.
  intros Hcons [[j Hj] ->]%remove_by_key_state. split.
  { apply lookup_store_elem in Hj. apply list_elem_of_fmap.
    by exists (key, j). }
  set (w1 := mk _ _ _ _ _ _).
  destruct (items_cold w1 eq_refl) as (ds & Hrun & _).
  assert (ds_id <$> ds = filter (λ k, k ≠ key) (Api.store (api w)).*1) as Hids.
  { rewrite (items_cold_ids w1 ds _ eq_refl) by
      (done || by apply consistent_filter).
    subst w1. simpl. apply fmap_fst_filter_ne. }
  eexists ds, _. split; [exact Hrun|]. split; [done|].
  rewrite Hids. by intros [? _]%list_elem_of_filter.
Qed.

Lemma sample_consistent n : consistent (Api.store (api (sample n))).
Proof. intros k j (i & [= -> ->] & _)%list_elem_of_fmap. done. Qed.

Lemma removed_dataset_is_not_listed_witness :
  ∃ w1 ds w2,
    remove (ByKey 1) (sample 3) = (Ok tt, w1) ∧
    items w1 = (Ok ds, w2) ∧
    ds_id <$> ds = [0; 2].
Proof.
  destruct (removed_dataset_is_not_listed (sample 3) 1
              (remove (ByKey 1) (sample 3)).2)
    as (_ & ds & w2 & Hrun & Hids & _).
  - apply sample_consistent.
  - reflexivity.
  - exists (remove (ByKey 1) (sample 3)).2, ds, w2.
    split; [reflexivity|]. split; [exact Hrun|]. exact Hids.
Defined.

(** X15.  [get] does not look at what [items] has listed: after a first
    [items], [get key] for a key of the server that its own cache does
    not hold calls the server once more and returns a new object, which
    has the JSON of a listed dataset and is none of the listed
    objects. *)
Theorem get_builds_its_own_object (w : t) (key : Z) :
  items_cache w = [] → key ∉ (get_cache w).*1 →
  key ∈ (Api.store (api w)).*1 →
  ∃ ds w1 d w2,
    items w = (Ok ds, w1) ∧ get key w1 = (Ok d, w2) ∧
    Api.trace (api w2) = (Api.trace (api w1) ++ [Api.Item key])%list ∧
    ds_json d ∈ ds_json <$> ds ∧ d ∉ ds.
Proof.
  intros Hcold Hmiss Hkey.
  destruct (items_cold w Hcold) as (ds & Hrun & Hlen & Hds).
  destruct (lookup_store_is_Some key _ Hkey) as [j Hj].
  eexists ds, _, (mk_dataset (next_oid w + length (Api.store (api w))) j), _.
  split; [exact Hrun|]. rewrite get_unfold. simpl.
  apply find_None in Hmiss. rewrite Hmiss.
  unfold fetch, mbind, M_bind, call_api, Api.item, new_dataset. simpl.
  rewrite Hj. simpl. split_and!; [done|done| |].
  - apply list_elem_of_fmap in Hkey as ([k j0] & -> & Hin).
    apply list_elem_of_lookup in Hin as [i Hi].
    destruct (Hds i k) as (j' & Hj' & Hd).
    { by rewrite list_lookup_fmap, Hi. }
    simpl in Hj. rewrite Hj in Hj'. injection Hj' as <-.
    apply list_elem_of_fmap. eexists. split; [|by eapply list_elem_of_lookup_2].
    done.
  - intros [i Hi]%list_elem_of_lookup.
    assert (i < length ds)%nat as Hlt by (by eapply lookup_lt_Some).
    destruct (lookup_lt_is_Some_2 ((Api.store (api w)).*1) i) as [k Hk].
    { rewrite length_fmap. lia. }
    destruct (Hds i k Hk) as (j0 & _ & Hd0).
    rewrite Hi in Hd0. injection Hd0 as Hoid _. lia.
Qed.

Lemma get_builds_its_own_object_witness :
  ∃ ds w1 d w2,
    items (sample 2) = (Ok ds, w1) ∧ get 1 w1 = (Ok d, w2) ∧
    Api.trace (api w2) = (Api.trace (api w1) ++ [Api.Item 1])%list ∧
    ds_json d ∈ ds_json <$> ds ∧ d ∉ ds.
Proof.
  apply (get_builds_its_own_object (sample 2) 1).
  - reflexivity.
  - apply not_elem_of_nil.
  - apply list_elem_of_fmap. exists (1, sample_blob 1).
    split; [reflexivity|]. right. left.
Defined.

(** *** The column index *)

Lemma column_index_snoc cols x :
  column_index (cols ++ [x]) = <[col_id x := x]> (column_index cols).
Proof. unfold column_index. by rewrite foldl_snoc. Qed.

Lemma column_index_lookup cols c :
  column_index cols !! c = last (columns_with c cols).
Proof.
  unfold columns_with.
  induction cols as [|x cols IH] using rev_ind; [done|].
  rewrite column_index_snoc, filter_app.
  destruct (decide (col_id x = c)) as [<-|Hne].
  - rewrite lookup_insert_eq. rewrite filter_cons_True by done.
    by rewrite filter_nil, last_snoc.
  - rewrite lookup_insert_ne by done. rewrite filter_cons_False by done.
    by rewrite filter_nil, app_nil_r.
Qed.

Lemma elem_of_concat {A} (x : A) (ls : list (list A)) :
  x ∈ concat ls ↔ ∃ l, x ∈ l ∧ l ∈ ls.
Proof.
  induction ls as [|l0 ls IH]; simpl.
  - split; [by intros ?%elem_of_nil|].
    by intros (l & _ & ?%elem_of_nil).
  - rewrite elem_of_app, IH. split.
    + intros [?|(l & ? & ?)].
      * exists l0. split; [done|by left].
      * exists l. split; [done|by right].
    + intros (l & Hx & [->|Hl]%elem_of_cons); [by left|right; eauto].
Qed.

(** X16.  [columns], when it is not cached, indexes the columns of the
    datasets that [items] returns: an identifier is mapped to the last
    column that bears it in the order of the list, every column of every
    listed dataset has its identifier in the index, and a second call
    returns the same index from the cache. *)
Theorem columns_index_the_listed_datasets
    (w : t) (idx : gmap Z Column) (w1 : t) :
  columns_cache w = [] →
  columns w = (Ok idx, w1) →
  ∃ ds w0,
    items w = (Ok ds, w0) ∧
    (∀ c, idx !! c = last (columns_with c (concat (ds_columns <$> ds)))) ∧
    (∀ d x, d ∈ ds → x ∈ ds_columns d → is_Some (idx !! col_id x)) ∧
    columns w1 = (Ok idx, w1).
Proof.
  intros Hcold. unfold columns at 1, cached. rewrite Hcold. simpl.
  unfold mbind, M_bind.
  destruct (items w) as [[ds|e] w0] eqn:Hitems; [|done].
  unfold mret, M_ret. intros [= <- <-].
  exists ds, w0. split; [done|]. split_and!.
  - intros c. apply column_index_lookup.
  - intros d x Hd Hx. rewrite column_index_lookup.
    assert (x ∈ columns_with (col_id x) (concat (ds_columns <$> ds))) as Hin.
    { apply list_elem_of_filter. split; [done|].
      apply elem_of_concat. exists (ds_columns d). split; [done|].
      apply list_elem_of_fmap. by exists d. }
    apply last_is_Some. intros Hnil. rewrite Hnil in Hin.
    by apply elem_of_nil in Hin.
  - unfold columns, cached. simpl. by destruct w0.
Qed.

Lemma columns_index_the_listed_datasets_witness :
  ∃ idx w1 ds w0,
    columns (sample 2) = (Ok idx, w1) ∧
    items (sample 2) = (Ok ds, w0) ∧
    (∀ c, idx !! c = last (columns_with c (concat (ds_columns <$> ds)))) ∧
    (∀ d x, d ∈ ds → x ∈ ds_columns d → is_Some (idx !! col_id x)) ∧
    columns w1 = (Ok idx, w1).
Proof.
  assert (is_ok (columns (sample 2)).1 = true) as Hok by reflexivity.
  destruct (columns (sample 2)) as [[idx|e] w1] eqn:E; [|discriminate Hok].
  destruct (columns_index_the_listed_datasets (sample 2) idx w1 eq_refl E)
    as (ds & w0 & H).
  by exists idx, w1, ds, w0.
Defined.

End DataSetMore.

(** *** A [get] that raises *)

Section DataSetFailures.

Import DataSetEndpoint.

Lemma fetch_raises key w e w1 :
  fetch key w = (Raise e, w1) →
  Api.lookup_store key (Api.store (api w)) = None ∧
  e = ServerError "not found" ∧
  w1 = set_api (Api.log (Api.Item key) (api w)) w.
Proof.
  unfold fetch, mbind, M_bind, call_api, Api.item.
  destruct (Api.lookup_store key (Api.store (api w))); [done|].
  by intros [= <- <-].
Qed.

(** X25.  A [get] that raises stores nothing: the key was not on the
    server, the cache of [get] and the store of the server are as before
    and one call has been made; the next [get] for the key asks the
    server again and raises the same exception. *)
Theorem failed_get_is_not_cached (w : t) (key : Z) (e : exn) (w1 : t) :
  get key w = (Raise e, w1) →
  (key ∉ (Api.store (api w)).*1) ∧
  get_cache w1 = get_cache w ∧
  Api.store (api w1) = Api.store (api w) ∧
  Api.trace (api w1) = (Api.trace (api w) ++ [Api.Item key])%list ∧
  ∃ w2, get key w1 = (Raise e, w2) ∧
        Api.trace (api w2) = (Api.trace (api w1) ++ [Api.Item key])%list.
Proof.
  rewrite get_unfold.
  destruct (find key (get_cache w)) as [[v rest]|] eqn:Ef; [done|].
  destruct (fetch key w) as [[v|e'] w'] eqn:Hf; [done|].
  intros [= -> ->]. apply fetch_raises in Hf as (Hnone & -> & ->).
  split_and!; try done.
  - intros Hin%lookup_store_is_Some. rewrite Hnone in Hin.
    by destruct Hin.
  - eexists. rewrite get_unfold. simpl. rewrite Ef.
    unfold fetch, mbind, M_bind, call_api, Api.item. simpl.
    rewrite Hnone. done.
Qed.

Lemma failed_get_is_not_cached_witness :
  ∃ w1 w2,
    get 5 (sample 2) = (Raise (ServerError "not found"), w1) ∧
    get_cache w1 = [] ∧
    get 5 w1 = (Raise (ServerError "not found"), w2) ∧
    Api.trace (api w2) = [Api.Item 5; Api.Item 5].
Proof.
  destruct (failed_get_is_not_cached (sample 2) 5 (ServerError "not found")
              (get 5 (sample 2)).2 eq_refl)
    as (_ & Hc & _ & Ht & w2 & Hget & Ht2).
  exists (get 5 (sample 2)).2, w2.
  split; [reflexivity|]. split; [exact Hc|]. split; [exact Hget|].
  rewrite Ht2, Ht. reflexivity.
Defined.

End DataSetFailures.

(** ** The ontology endpoint and the server *)

Section OntologyMore.

Import OntologyEndpoint.

(** The body of the loop of [items]. *)
Local Abbreviation listed :=
  (λ k, call_api (Api.owl_file k);;
        j ← call_api (Api.item k);
        new_ontology j).

Lemma ontology_listed_step k w j :
  Api.lookup_store k (Api.store (api w)) = Some j →
  listed k w
  = (Ok (mkOntology (next_oid w) true (Some (b_id j))),
     mk (Api.mk (Api.store (api w))
                (Api.trace (api w) ++ [Api.OwlFile k; Api.Item k])%list)
        (S (next_oid w)) (items_cache w)).
Proof.
  intros Hj. unfold mbind, M_bind, call_api, Api.owl_file, Api.item.
  rewrite Hj. simpl. rewrite Hj. unfold new_ontology. simpl.
  unfold Api.log. simpl. by rewrite <- app_assoc.
Qed.

Lemma ontology_collect_listed keys w :
  (∀ k, k ∈ keys → k ∈ (Api.store (api w)).*1) →
  ∃ os,
    collect listed keys w
    = (Ok os,
       mk (Api.mk (Api.store (api w))
                  (Api.trace (api w) ++ listing keys)%list)
          (next_oid w + length keys)%nat (items_cache w)) ∧
    length os = length keys ∧
    (∀ i k, keys !! i = Some k →
       ∃ j, Api.lookup_store k (Api.store (api w)) = Some j ∧
            os !! i
            = Some (mkOntology (next_oid w + i)%nat true (Some (b_id j)))).
Proof.
  revert w. induction keys as [|k keys IH]; intros w Hkeys.
  - exists []. simpl. split_and!; [|done|done].
    unfold mret, M_ret, listing. destruct w as [[s tr] ? ?]; simpl.
    by rewrite app_nil_r, Nat.add_0_r.
  - destruct (lookup_store_is_Some k (Api.store (api w))) as [j Hj];
      [apply Hkeys; by left|].
    set (w1 := mk (Api.mk (Api.store (api w))
                          (Api.trace (api w)
                           ++ [Api.OwlFile k; Api.Item k])%list)
                  (S (next_oid w)) (items_cache w)).
    destruct (IH w1) as (os & Hrun & Hlen & Hos).
    { intros k' Hk'. apply Hkeys. by right. }
    exists (mkOntology (next_oid w) true (Some (b_id j)) :: os).
    split_and!.
    + simpl. erewrite M_bind_Ok by (by apply ontology_listed_step).
      fold w1. erewrite M_bind_Ok by exact Hrun.
      unfold mret, M_ret. f_equal. subst w1. simpl.
      rewrite <- app_assoc. unfold listing. simpl. do 2 f_equal. lia.
    + simpl. by rewrite Hlen.
    + intros [|i] k' Hi; simpl in Hi.
      * injection Hi as <-. exists j. split; [done|].
        by rewrite Nat.add_0_r.
      * destruct (Hos i k' Hi) as (j' & Hj' & Ho). exists j'.
        split; [done|]. simpl. rewrite Ho. subst w1. simpl.
        do 2 f_equal. lia.
Qed.

Lemma ontology_items_cold w :
  items_cache w = [] →
  ∃ os,
    items w
    = (Ok os,
       mk (Api.mk (Api.store (api w))
                  (Api.trace (api w)
                   ++ Api.Keys :: listing (Api.store (api w)).*1)%list)
          (next_oid w + length (Api.store (api w)))%nat [(tt, os)]) ∧
    length os = length (Api.store (api w)) ∧
    (∀ i k, (Api.store (api w)).*1 !! i = Some k →
       ∃ j, Api.lookup_store k (Api.store (api w)) = Some j ∧
            os !! i
            = Some (mkOntology (next_oid w + i)%nat true (Some (b_id j)))).
Proof.
  intros Hcold.
  set (w0 := mk (Api.mk (Api.store (api w))
                        (Api.trace (api w) ++ [Api.Keys])%list)
                (next_oid w) (items_cache w)).
  destruct (ontology_collect_listed (Api.store (api w)).*1 w0)
    as (os & Hrun & Hlen & Hos); [done|].
  exists os. split_and!.
  - unfold items, cached. rewrite Hcold. simpl.
    erewrite (M_bind_Ok (call_api Api.keys)) by reflexivity.
    change (set_api (Api.log Api.Keys (api w)) w) with w0.
    rewrite Hrun. simpl. rewrite Hcold. unfold set_items_cache.
    simpl. rewrite <- app_assoc, length_fmap. done.
  - by rewrite Hlen, length_fmap.
  - done.
Qed.

(** On a consistent server the identifiers that [items] lists are the keys
    of the server, and every listed ontology is stored. *)
Lemma ontology_items_ids w os w1 :
  items_cache w = [] → consistent (Api.store (api w)) →
  items w = (Ok os, w1) →
  onto_id <$> os = Some <$> (Api.store (api w)).*1 ∧
  (∀ o, o ∈ os → onto_stored o = true).
Proof.
  intros Hcold Hcons Hrun.
  destruct (ontology_items_cold w Hcold) as (os' & Hrun' & Hlen & Hos).
  rewrite Hrun in Hrun'. injection Hrun' as <- _. split.
  - apply list_eq_same_length with (length os);
      [by rewrite !length_fmap, Hlen|by rewrite length_fmap|].
    intros i x y Hi Hx Hy.
    rewrite list_lookup_fmap in Hy.
    destruct ((Api.store (api w)).*1 !! i) as [k|] eqn:Hk; [|done].
    simpl in Hy. injection Hy as <-.
    destruct (Hos i k Hk) as (j & Hj & Ho).
    rewrite list_lookup_fmap, Ho in Hx. simpl in Hx. injection Hx as <-.
    f_equal. apply Hcons. by apply lookup_store_elem.
  - intros o [i Hi]%list_elem_of_lookup.
    destruct (lookup_lt_is_Some_2 ((Api.store (api w)).*1) i) as [k Hk].
    { rewrite length_fmap, <- Hlen. by eapply lookup_lt_Some. }
    destruct (Hos i k Hk) as (j & _ & Ho). rewrite Hi in Ho.
    by injection Ho as ->.
Qed.

Lemma find_by_id_Some (os : list Ontology) key o :
  List.find (λ o, bool_decide (onto_id o = Some key)) os = Some o →
  o ∈ os ∧ onto_id o = Some key.
Proof.
  intros [Hin Hid]%find_some. split; [by apply list_elem_of_In|].
  by apply bool_decide_eq_true in Hid.
Qed.

Lemma find_by_id_None (os : list Ontology) key :
  List.find (λ o, bool_decide (onto_id o = Some key)) os = None ↔
  Some key ∉ onto_id <$> os.
Proof.
  induction os as [|o os IH]; simpl.
  - split; [intros _; apply not_elem_of_nil|done].
  - destruct (bool_decide (onto_id o = Some key)) eqn:E.
    + apply bool_decide_eq_true in E. split; [done|].
      intros Hnot. destruct Hnot. rewrite E. by left.
    + apply bool_decide_eq_false in E. rewrite IH.
      rewrite not_elem_of_cons. naive_solver.
Qed.

(** X17.  On an ontology endpoint with nothing cached, in front of a
    server whose blobs carry their keys: [get key] returns a stored
    ontology with the id [key] when the server holds the key, and raises
    the exception of an ontology that does not exist when it does not.
    In both cases it has listed the whole server: the keys, then the file
    and the blob of each key. *)
Theorem ontology_get_returns_what_the_server_holds (w : t) (key : Z) :
  items_cache w = [] → consistent (Api.store (api w)) →
  (key ∈ (Api.store (api w)).*1 →
   ∃ o w1, get key w = (Ok o, w1) ∧ onto_id o = Some key ∧
           onto_stored o = true) ∧
  (key ∉ (Api.store (api w)).*1 →
   ∃ w1, get key w = (Raise does_not_exist, w1)) ∧
  (∀ r w1, get key w = (r, w1) →
     Api.trace (api w1)
     = (Api.trace (api w)
        ++ Api.Keys :: listing (Api.store (api w)).*1)%list).
Proof.
  intros Hcold Hcons.
  destruct (ontology_items_cold w Hcold) as (os & Hrun & Hlen & Hos).
  destruct (ontology_items_ids w os _ Hcold Hcons Hrun) as [Hids Hstored].
  unfold get. split_and!.
  - intros Hkey. erewrite M_bind_Ok by exact Hrun.
    destruct (List.find _ os) as [o|] eqn:Ef.
    + apply find_by_id_Some in Ef as [Hin Hid].
      eexists o, _. split; [done|]. split; [done|by apply Hstored].
    + apply find_by_id_None in Ef. destruct Ef. rewrite Hids.
      apply list_elem_of_fmap. by exists key.
  - intros Hkey. erewrite M_bind_Ok by exact Hrun.
    destruct (List.find _ os) as [o|] eqn:Ef; [|by eexists].
    apply find_by_id_Some in Ef as [Hin Hid]. destruct Hkey.
    assert (Some key ∈ onto_id <$> os) as Hk.
    { apply list_elem_of_fmap. by exists o. }
    rewrite Hids in Hk.
    by apply list_elem_of_fmap in Hk as (k & [= ->] & Hk).
  - intros r w1. erewrite M_bind_Ok by exact Hrun.
    destruct (List.find _ os) as [o|]; by intros [= _ <-].
Qed.

Lemma ontology_sample_consistent n :
  consistent (Api.store (api (sample n))).
Proof. intros k j (i & [= -> ->] & _)%list_elem_of_fmap. done. Qed.

Lemma ontology_get_returns_what_the_server_holds_witness :
  (∃ o w1, get 1 (sample 2) = (Ok o, w1) ∧ onto_id o = Some 1 ∧
           onto_stored o = true) ∧
  (∃ w1, get 5 (sample 2) = (Raise does_not_exist, w1)).
Proof.
  destruct (ontology_get_returns_what_the_server_holds (sample 2) 1
              eq_refl (ontology_sample_consistent 2)) as (Hin & _ & _).
  destruct (ontology_get_returns_what_the_server_holds (sample 2) 5
              eq_refl (ontology_sample_consistent 2)) as (_ & Hout & _).
  split.
  - apply Hin. apply list_elem_of_fmap. exists (1, mk_blob 1 "").
    split; [reflexivity|]. right. left.
  - apply Hout. intros (e & He & Hin')%list_elem_of_fmap.
    apply list_elem_of_fmap in Hin' as (i & -> & Hi%elem_of_seq).
    simpl in He. lia.
Defined.

Lemma ontology_remove_by_key_state key w w1 :
  remove (ByKey key) w = (Ok tt, w1) →
  is_Some (Api.lookup_store key (Api.store (api w))) ∧
  w1 = mk (Api.mk (filter (λ e, e.1 ≠ key) (Api.store (api w)))
                  (Api.trace (api w) ++ [Api.Delete (Some key)])%list)
          (next_oid w) [].
Proof.
  unfold remove, decache, _apply, call_api, Api.delete. simpl.
  destruct (Api.lookup_store key (Api.store (api w))) as [j|] eqn:Hj; [|done].
  intros [= <-]. split; [by eexists|done].
Qed.

(** X18.  On the ontology endpoint a removal is seen by [get], which
    scans [items]: after a [remove(key)] that returned, [items] lists no
    ontology with the id [key] and [get key] raises the exception of an
    ontology that does not exist. *)
Theorem removed_ontology_is_gone (w : t) (key : Z) (w1 : t) :
  consistent (Api.store (api w)) →
  remove (ByKey key) w = (Ok tt, w1) →
  ∃ os w2,
    items w1 = (Ok os, w2) ∧ (Some key ∉ onto_id <$> os) ∧
    get key w1 = (Raise does_not_exist, w2).
Proof.
  intros Hcons [_ ->]%ontology_remove_by_key_state.
  set (w1 := mk _ _ _).
  assert (consistent (Api.store (api w1))) as Hcons1.
  { intros k j [_ Hin]%list_elem_of_filter. by apply Hcons. }
  destruct (ontology_items_cold w1 eq_refl) as (os & Hrun & _).
  destruct (ontology_items_ids w1 os _ eq_refl Hcons1 Hrun) as [Hids _].
  assert (Some key ∉ onto_id <$> os) as Hgone.
  { rewrite Hids. intros (k & [= <-] & Hk)%list_elem_of_fmap.
    subst w1. simpl in Hk. rewrite fmap_fst_filter_ne in Hk.
    by apply list_elem_of_filter in Hk as [? _]. }
  eexists os, _. split; [exact Hrun|]. split; [done|].
  unfold get. erewrite M_bind_Ok by exact Hrun.
  apply find_by_id_None in Hgone. by rewrite Hgone.
Qed.

Lemma removed_ontology_is_gone_witness :
  consistent (Api.store (api (sample 2))) ∧
  ∃ w1 os w2,
    remove (ByKey 1) (sample 2) = (Ok tt, w1) ∧
    items w1 = (Ok os, w2) ∧ (Some 1 ∉ onto_id <$> os) ∧
    get 1 w1 = (Raise does_not_exist, w2).
Proof.
  split; [apply ontology_sample_consistent|].
  destruct (removed_ontology_is_gone (sample 2) 1
              (remove (ByKey 1) (sample 2)).2
              (ontology_sample_consistent 2) eq_refl) as (os & w2 & H).
  by exists (remove (ByKey 1) (sample 2)).2, os, w2.
Defined.

End OntologyMore.

(** ** The octopus endpoint *)

Section OctopusEndpointMore.

Import OctopusEndpoint.

Lemma check_ssds_first ss1 s ss2 :
  (∀ x, x ∈ ss1 → ssd_stored x = true) → ssd_stored s = false →
  check_ssds (ss1 ++ s :: ss2) = Raise (ssd_not_stored s).
Proof.
  intros Hpre Hs. induction ss1 as [|x ss1 IH]; simpl.
  - by rewrite Hs.
  - rewrite (Hpre x) by (by left). simpl. apply IH.
    intros y Hy. apply Hpre. by right.
Qed.

Lemma check_ontologies_first os1 x os2 :
  (∀ y, y ∈ os1 → onto_stored y = true) → onto_stored x = false →
  check_ontologies (os1 ++ x :: os2) = Raise (ontology_not_stored x).
Proof.
  intros Hpre Hx. induction os1 as [|y os1 IH]; simpl.
  - by rewrite Hx.
  - rewrite (Hpre y) by (by left). simpl. apply IH.
    intros z Hz. apply Hpre. by right.
Qed.

(** X19.  [upload] checks the SSDs in their order and then the
    ontologies: the exception names the first SSD that is not stored; the
    ontologies are looked at only when every SSD is stored, and then the
    first ontology that is not stored is named.  An octopus whose [ssds]
    is [None] raises [TypeError], and an argument that is no [Octopus]
    fails the assertion.  In all four cases nothing is sent to the server
    and the octopus is left as it is, while the cache of [items] has been
    cleared. *)
Theorem upload_names_first_unstored (w : t) (o : Octopus.t) :
  (∀ ss1 s ss2,
     Octopus.ssds o = Some (ss1 ++ s :: ss2)%list →
     (∀ x, x ∈ ss1 → ssd_stored x = true) → ssd_stored s = false →
     upload (AnOctopus o) w
     = (Raise (ssd_not_stored s), Some o, set_items_cache [] w)) ∧
  (∀ ss os1 x os2,
     Octopus.ssds o = Some ss → (∀ s, s ∈ ss → ssd_stored s = true) →
     Octopus.ontologies o = Some (os1 ++ x :: os2)%list →
     (∀ y, y ∈ os1 → onto_stored y = true) → onto_stored x = false →
     upload (AnOctopus o) w
     = (Raise (ontology_not_stored x), Some o, set_items_cache [] w)) ∧
  (Octopus.ssds o = None →
   upload (AnOctopus o) w
   = (Raise not_iterable, Some o, set_items_cache [] w)) ∧
  (∀ x, upload (NotAnOctopus x) w
        = (Raise AssertionError, None, set_items_cache [] w)).
Proof.
  split_and!.
  - intros ss1 s ss2 Hss Hpre Hs. unfold upload, check_dependencies.
    rewrite Hss. by rewrite check_ssds_first.
  - intros ss os1 x os2 Hss Hstored Hos Hpre Hx.
    unfold upload, check_dependencies. rewrite Hss, Hos.
    rewrite check_ssds_stored by done. simpl.
    by rewrite check_ontologies_first.
  - intros Hnone. unfold upload, check_dependencies. by rewrite Hnone.
  - done.
Qed.

Lemma upload_names_first_unstored_witness :
  let s1 := mkSSD 0 true (Some 1) in
  let s2 := mkSSD 1 false None in
  let s3 := mkSSD 2 false None in
  let o := Octopus.mk None false (Some [s1; s2; s3]) (Some [])
             (Some "octopus") (Some "") "randomForest" "NoResampling"
             10 10 MPNone None in
  let w := init (Api.mk [] []) in
  upload (AnOctopus o) w
  = (Raise (ssd_not_stored s2), Some o, set_items_cache [] w) ∧
  Api.trace (api (set_items_cache [] w)) = [].
Proof.
  intros s1 s2 s3 o w. split; [|reflexivity].
  destruct (upload_names_first_unstored w o) as (Hssd & _).
  apply (Hssd [s1] s2 [s3]); [reflexivity| |reflexivity].
  intros x Hx. apply list_elem_of_singleton in Hx as ->. reflexivity.
Defined.

End OctopusEndpointMore.

Section OctopusReadsMore.

Import OctopusEndpoint.

Variable model_types sampling : list string.
Hypothesis default_model_type : "randomForest" ∈ model_types.
Hypothesis default_sampling : "NoResampling" ∈ sampling.

Lemma hydrated_arity blob :
  hydrated model_types sampling blob = Raise Octopus.update_arity.
Proof.
  unfold hydrated, Octopus.init. simpl.
  rewrite !bool_decide_eq_true_2 by done. done.
Qed.

Lemma M_bind_Raise {W A B} (m : M W A) (k : A → M W B) w e w' :
  m w = (Raise e, w') → (m ≫= k) w = (Raise e, w').
Proof. intros Hm. unfold mbind, M_bind. by rewrite Hm. Qed.

Lemma hydrate_step k w j :
  Api.lookup_store k (Api.store (api w)) = Some j →
  (blob ← call_api (Api.item k); pure (hydrated model_types sampling blob)) w
  = (Raise Octopus.update_arity, set_api (Api.log (Api.Item k) (api w)) w).
Proof.
  intros Hj. unfold mbind, M_bind, call_api, Api.item. rewrite Hj.
  unfold pure. by rewrite hydrated_arity.
Qed.

(** X20.  With enum tables that hold the defaults of the constructor, on
    an octopus endpoint with nothing cached: [items] returns the empty
    tuple when the server holds no octopus; when the server holds one,
    [items] raises the [TypeError] of [update] after it has asked for the
    keys and for the first blob, and caches nothing; and [get], with its
    own cache empty, returns for no key. *)
Theorem octopus_listing_stops_at_first_blob (w : t) :
  items_cache w = [] →
  (Api.store (api w) = [] →
   ∃ w1, items model_types sampling w = (Ok [], w1)) ∧
  (∀ k j rest, Api.store (api w) = (k, j) :: rest →
     ∃ w1, items model_types sampling w = (Raise Octopus.update_arity, w1) ∧
           Api.trace (api w1)
           = (Api.trace (api w) ++ [Api.Keys; Api.Item k])%list ∧
           items_cache w1 = []) ∧
  (get_cache w = [] →
   ∀ key, is_ok (get model_types sampling key w).1 = false).
Proof.
  intros Hcold. split_and!.
  - intros Hempty. unfold items, cached. rewrite Hcold. simpl.
    erewrite (M_bind_Ok (call_api Api.keys)) by reflexivity.
    rewrite Hempty. simpl. by eexists.
  - intros k j rest Hstore. unfold items, cached. rewrite Hcold. simpl.
    erewrite (M_bind_Ok (call_api Api.keys)) by reflexivity.
    rewrite Hstore. simpl.
    erewrite M_bind_Raise; cycle 1.
    { apply (hydrate_step k _ j). simpl. rewrite Hstore.
      unfold Api.lookup_store. simpl.
      by rewrite bool_decide_eq_true_2. }
    eexists. split; [done|]. simpl. rewrite <- app_assoc. by split.
  - intros Hget key. apply octopus_get_never_returns; [done|].
    rewrite Hcold. by intros e ?%elem_of_nil.
Qed.

End OctopusReadsMore.

Lemma octopus_listing_stops_at_first_blob_witness :
  let j := Octopus.mk_json 0 "stored" "" [] [] 0 MPNone in
  let w := OctopusEndpoint.init (Api.mk [(0, j)] []) in
  ∃ w1,
    OctopusEndpoint.items Octopus.default_model_types
      Octopus.default_sampling_strategies w
    = (Raise Octopus.update_arity, w1) ∧
    Api.trace (OctopusEndpoint.api w1) = [Api.Keys; Api.Item 0] ∧
    OctopusEndpoint.items_cache w1 = [].
Proof.
  intros j w.
  destruct (octopus_listing_stops_at_first_blob
              Octopus.default_model_types Octopus.default_sampling_strategies
              (list_elem_of_here _ _) (list_elem_of_here _ _) w eq_refl)
    as (_ & Hstop & _).
  apply (Hstop 0 j []). reflexivity.
Defined.

(** ** The pattern table *)

Section SortFacts.

Import Patterns.

Context {A : Type} (le : A → A → bool).

Lemma insert_by_Permutation x l : insert_by le x l ≡ₚ x :: l.
Proof.
  induction l as [|y l IH]; simpl; [done|].
  destruct (le x y); [done|]. rewrite IH. apply Permutation_swap.
Qed.

Lemma sort_by_Permutation l : sort_by le l ≡ₚ l.
Proof.
  induction l as [|x l IH]; simpl; [done|].
  by rewrite insert_by_Permutation, IH.
Qed.

Hypothesis le_total : ∀ x y, le x y = true ∨ le y x = true.
Hypothesis le_trans : ∀ x y z, le x y = true → le y z = true → le x z = true.

Lemma insert_by_sorted x l :
  StronglySorted (λ a b, le a b = true) l →
  StronglySorted (λ a b, le a b = true) (insert_by le x l).
Proof.
  induction 1 as [|y l Hl IH Hy]; simpl.
  - repeat constructor.
  - destruct (le x y) eqn:Hxy.
    + constructor; [by constructor|]. constructor; [done|].
      eapply Forall_impl; [exact Hy|]. intros z Hz. by eapply le_trans.
    + constructor; [done|]. rewrite insert_by_Permutation.
      constructor; [|done]. destruct (le_total x y); congruence.
Qed.

Lemma sort_by_sorted l : StronglySorted (λ a b, le a b = true) (sort_by le l).
Proof.
  induction l as [|x l IH]; simpl; [constructor|]. by apply insert_by_sorted.
Qed.

End SortFacts.

Section StableFacts.

Import Patterns.

Context {A K : Type} `{EqDecision K} (le : A → A → bool) (key : A → K).
Hypothesis le_key : ∀ x y, key x = key y → le x y = true.

(** An element is inserted before the elements of its own key. *)
Lemma insert_by_stable x l k :
  filter (λ a, key a = k) (insert_by le x l)
  = filter (λ a, key a = k) (x :: l).
Proof.
  induction l as [|y l IH]; simpl; [done|].
  destruct (le x y) eqn:Hxy; [done|].
  assert (key x ≠ key y) as Hne.
  { intros Heq. apply le_key in Heq. congruence. }
  rewrite (filter_cons _ y), IH, !filter_cons.
  destruct (decide (key y = k)) as [Hy|Hy];
    destruct (decide (key x = k)) as [Hx|Hx]; try done.
  congruence.
Qed.

Lemma sort_by_stable l k :
  filter (λ a, key a = k) (sort_by le l) = filter (λ a, key a = k) l.
Proof.
  induction l as [|x l IH]; simpl; [done|].
  by rewrite insert_by_stable, !filter_cons, IH.
Qed.

End StableFacts.

Section PatternFacts.

Import Karma. Import Patterns.

Lemma keys_le_refl a : keys_le a a = true.
Proof.
  induction a as [|x a IH]; simpl; [done|].
  by rewrite Nat.ltb_irrefl.
Qed.

Lemma keys_le_total a b : keys_le a b = true ∨ keys_le b a = true.
Proof.
  revert b. induction a as [|x a IH]; intros [|y b]; simpl; auto.
  destruct (x <? y)%nat eqn:Hxy; [by left|].
  destruct (y <? x)%nat eqn:Hyx; [by right|]. apply IH.
Qed.

Lemma keys_le_trans a b c :
  keys_le a b = true → keys_le b c = true → keys_le a c = true.
Proof.
  revert b c. induction a as [|x a IH]; intros [|y b] [|z c]; simpl;
    try done.
  destruct (x <? y)%nat eqn:Hxy; destruct (y <? z)%nat eqn:Hyz;
    destruct (x <? z)%nat eqn:Hxz; try done;
    destruct (y <? x)%nat eqn:Hyx; destruct (z <? y)%nat eqn:Hzy;
    destruct (z <? x)%nat eqn:Hzx; try done;
    rewrite ?Nat.ltb_lt, ?Nat.ltb_ge in *; try lia.
  apply IH.
Qed.

Lemma nat_leb_total x y : (x <=? y)%nat = true ∨ (y <=? x)%nat = true.
Proof. rewrite !Nat.leb_le. lia. Qed.

Lemma nat_leb_trans x y z :
  (x <=? y)%nat = true → (y <=? z)%nat = true → (x <=? z)%nat = true.
Proof. rewrite !Nat.leb_le. lia. Qed.

Lemma sorted_keys (edges : list nat) :
  StronglySorted le (sort_by Nat.leb edges).
Proof.
  pose proof (sort_by_sorted Nat.leb nat_leb_total nat_leb_trans edges) as Hs.
  induction Hs as [|x l Hl IH Hx]; constructor; [done|].
  eapply Forall_impl; [exact Hx|]. intros y Hy. by apply Nat.leb_le.
Qed.

(** The row that a line of [graphs.json] gives. *)
Lemma graph_row_Some el proc r :
  graph_row el proc = Some r →
  ∃ edges,
    entries el []
      (split "," (remove_char "{" (remove_char "}"
                                     (gl_variable_mapping proc))))
    = Some edges ∧
    r = mk_row (gl_id proc) (gl_support proc) (length edges)
               (sort_by Nat.leb edges).
Proof.
  unfold graph_row. destruct (entries _ _ _) as [edges|]; [|done].
  intros [= <-]. by exists edges.
Qed.

(** X22.  The rows of the pattern table are sorted by their lists of edge
    keys.  In each row [num_edges] is the length of the list of edge
    keys, and this list ascends.  There is one row for each line of
    [graphs.json], with the id and the support of the line, and the rows
    with the same list of edge keys come in the order of the file. *)
Theorem pattern_rows_sorted_and_stable
    (align_edges : list edge) (edges_j : list edge_line)
    (graph_j : list graph_line) (rows : list row) :
  pattern_rows align_edges edges_j graph_j = Some rows →
  StronglySorted rows_le rows ∧
  Forall (λ r, r_num_edges r = length (r_edge_keys r) ∧
               StronglySorted le (r_edge_keys r)) rows ∧
  ∃ rows0,
    Forall2 (λ proc r, r_pattern r = gl_id proc ∧
                       r_support r = gl_support proc) graph_j rows0 ∧
    rows ≡ₚ rows0 ∧
    (∀ ks, rows_with ks rows = rows_with ks rows0).
Proof.
  unfold pattern_rows. simpl.
  destruct (mapM _ graph_j) as [rows0|] eqn:Hrows; [|done].
  simpl. intros [= <-]. apply mapM_Some in Hrows.
  split_and!.
  - apply (sort_by_sorted (λ x y, keys_le (r_edge_keys x) (r_edge_keys y))).
    + intros x y. apply keys_le_total.
    + intros x y z. apply keys_le_trans.
  - rewrite sort_by_Permutation. clear -Hrows.
    induction Hrows as [|proc r gj rs Hr _ IH]; constructor; [|done].
    apply graph_row_Some in Hr as (edges & _ & ->). simpl. split.
    + by rewrite sort_by_Permutation.
    + apply sorted_keys.
  - exists rows0. split_and!.
    + clear -Hrows.
      induction Hrows as [|proc r gj rs Hr _ IH]; constructor; [|done].
      by apply graph_row_Some in Hr as (edges & _ & ->).
    + apply sort_by_Permutation.
    + intros ks. unfold rows_with. apply sort_by_stable.
      intros x y ->. apply keys_le_refl.
Qed.

(** *** The lookup tables *)

Lemma uri_lookup_snoc es e :
  uri_lookup (es ++ [e]) = <[ld_alignId (e_data e) := e_key e]> (uri_lookup es).
Proof. unfold uri_lookup. by rewrite foldl_snoc. Qed.

(** An alignment identifier is looked up to the key of the last edge that
    bears it. *)
Lemma uri_lookup_last es a :
  uri_lookup es !! a
  = e_key <$> last (filter (λ e, ld_alignId (e_data e) = a) es).
Proof.
  induction es as [|e es IH] using rev_ind; [done|].
  rewrite uri_lookup_snoc, filter_app.
  destruct (decide (ld_alignId (e_data e) = a)) as [<-|Hne].
  - rewrite lookup_insert_eq. rewrite filter_cons_True by done.
    by rewrite filter_nil, last_snoc.
  - rewrite lookup_insert_ne by done. rewrite filter_cons_False by done.
    by rewrite filter_nil, app_nil_r.
Qed.

Lemma filter_none {X} (P : X → Prop) `{∀ x, Decision (P x)} (l : list X) :
  (∀ x, x ∈ l → ¬ P x) → filter P l = [].
Proof.
  induction l as [|x l IH]; intros Hl; [done|].
  rewrite filter_cons_False by (apply Hl; by left).
  apply IH. intros z Hz. apply Hl. by right.
Qed.

Lemma filter_NoDup_fmap {X Y} `{EqDecision Y} (f : X → Y) (l : list X) y :
  NoDup (f <$> l) → (length (filter (λ x, f x = y) l) ≤ 1)%nat.
Proof.
  induction l as [|x l IH]; simpl; [lia|].
  intros [Hx Hnd]%NoDup_cons. rewrite filter_cons.
  destruct (decide (f x = y)) as [<-|Hne]; [|by apply IH].
  simpl. assert (filter (λ x0, f x0 = f x) l = []) as ->; [|simpl; lia].
  apply filter_none. intros z Hz Heq.
  apply Hx. apply list_elem_of_fmap. by exists z.
Qed.

Lemma uri_lookup_Permutation es es' :
  NoDup ((λ e, ld_alignId (e_data e)) <$> es) → es' ≡ₚ es →
  uri_lookup es' = uri_lookup es.
Proof.
  intros Hnd Hperm. apply map_eq. intros a. rewrite !uri_lookup_last.
  pose proof (filter_NoDup_fmap _ es a Hnd) as Hlen.
  assert (filter (λ e, ld_alignId (e_data e) = a) es'
          ≡ₚ filter (λ e, ld_alignId (e_data e) = a) es) as Hf
    by (by rewrite Hperm).
  destruct (filter _ es) as [|e [|e' l]]; simpl in Hlen; [| |lia].
  - by apply Permutation_nil_r in Hf as ->.
  - by apply Permutation_singleton_r in Hf as ->.
Qed.

End PatternFacts.

Section PatternLinks.

Import Karma. Import Patterns.

Variable get_label : string → string.
Variable get_prefix : string → string.

#[local] Arguments Karma.link_step : simpl never.

Local Abbreviation link_step := (Karma.link_step get_label get_prefix).
Local Abbreviation node_step := (Karma.node_step get_label get_prefix).
Local Abbreviation convert_karma_graph :=
  (Karma.convert_karma_graph get_label get_prefix).

Lemma link_loop_uri_lookup nm ls c m g c' m' g' :
  for_each (link_step nm) (c, m, g) ls = Ok (c', m', g') →
  uri_lookup (g_edges g) = m →
  uri_lookup (g_edges g') = m' ∧
  (λ e, ld_alignId (e_data e)) <$> g_edges g'
  = (((λ e, ld_alignId (e_data e)) <$> g_edges g) ++ (l_id <$> ls))%list.
Proof.
  revert c m g. induction ls as [|l ls IH]; intros c m g; simpl.
  - intros [= _ <- <-] Hm. by rewrite app_nil_r.
  - destruct (link_step nm (c, m, g) l) as [st1|] eqn:E; simpl; [|done].
    apply link_step_inv in E
      as (s & uri & t & u & v & g1 & _ & _ & _ & -> & Hedges & _).
    intros Hrun Hm. destruct (IH _ _ _ Hrun) as [Hlook Hids].
    + by rewrite Hedges, uri_lookup_snoc, Hm.
    + split; [done|]. rewrite Hids, Hedges, fmap_app. simpl.
      by rewrite <- app_assoc.
Qed.

Lemma convert_uri_lookup data g nm lm :
  convert_karma_graph data = Ok (g, nm, lm) →
  uri_lookup (g_edges g) = lm ∧
  (λ e, ld_alignId (e_data e)) <$> g_edges g = l_id <$> links data.
Proof.
  intros (n & g0 & c & Hnodes & Hlinks)%convert_inv.
  unfold Karma.node_loop in Hnodes. unfold Karma.link_loop in Hlinks.
  destruct (node_loop_graph _ _ _ _ _ _ _ _ _ Hnodes) as (Hg0 & _ & _).
  destruct (link_loop_uri_lookup _ _ _ _ _ _ _ _ Hlinks) as [Hlook Hids].
  { by rewrite Hg0. }
  split; [done|]. by rewrite Hids, Hg0.
Qed.

(** X21.  The table [uri_lookup] that [get_patterns] fills from the edges
    of the alignment graph is the link table of the conversion.  When the
    link identifiers are pairwise distinct, this holds in whatever order
    the graph yields its edges. *)
Theorem uri_lookup_is_link_table
    (data : kdata) (g : graph) (nm lm : gmap string nat) :
  convert_karma_graph data = Ok (g, nm, lm) →
  uri_lookup (g_edges g) = lm ∧
  (NoDup (l_id <$> links data) →
   ∀ align_edges, align_edges ≡ₚ g_edges g → uri_lookup align_edges = lm).
Proof.
  intros [Hlook Hids]%convert_uri_lookup. split; [done|].
  intros Hnd es Hperm. rewrite <- Hlook.
  apply uri_lookup_Permutation; [|done]. by rewrite Hids.
Qed.

(** The keys of [edge_lines] come from the lines of [edges.json]. *)
Lemma edge_lines_Some ul lines p k :
  edge_lines ul lines !! p = Some k →
  ∃ proc, proc ∈ lines ∧ el_id proc = p ∧ ul !! el_alignId proc = Some k.
Proof.
  unfold edge_lines.
  induction lines as [|proc lines IH] using rev_ind; [done|].
  rewrite foldl_snoc.
  destruct (ul !! el_alignId proc) as [key|] eqn:Hkey.
  - destruct (decide (el_id proc = p)) as [<-|Hne].
    + rewrite lookup_insert_eq. intros [= <-]. exists proc.
      split; [set_solver|done].
    + rewrite lookup_insert_ne by done. intros (proc' & ? & ? & ?)%IH.
      exists proc'. split; [set_solver|done].
  - intros (proc' & ? & ? & ?)%IH. exists proc'. split; [set_solver|done].
Qed.

(** The edges that the entries of a variable mapping add. *)
Lemma entries_Some el edges l edges' k :
  entries el edges l = Some edges' → k ∈ edges' →
  k ∈ edges ∨ ∃ p, el !! p = Some k.
Proof.
  revert edges. induction l as [|e l IH]; intros edges; simpl.
  - intros [= <-]. by left.
  - destruct (entry_step el edges e) as [edges1|] eqn:Hstep; simpl; [|done].
    intros Hrun Hk. destruct (IH _ Hrun Hk) as [Hin|?]; [|by right].
    unfold entry_step in Hstep.
    destruct (split "=" (strip e)) as [|pos0 rest]; [done|].
    destruct (String.prefix "__e" pos0); [|injection Hstep as <-; by left].
    destruct rest as [|pos1 rest]; [done|].
    destruct (el !! pos1) as [key|] eqn:Hkey;
      [|injection Hstep as <-; by left].
    injection Hstep as <-.
    apply elem_of_app in Hin as [?|Hlast%list_elem_of_singleton];
      [by left|subst; right; by exists pos1].
Qed.

(** X23.  Every edge key in the pattern table is the position, in the
    link array of the alignment, of a link whose identifier is the
    alignment identifier of a line of [edges.json]. *)
Theorem edge_keys_are_link_positions
    (data : kdata) (g : graph) (nm lm : gmap string nat)
    (edges_j : list edge_line) (graph_j : list graph_line)
    (rows : list row) :
  convert_karma_graph data = Ok (g, nm, lm) →
  pattern_rows (g_edges g) edges_j graph_j = Some rows →
  ∀ r k, r ∈ rows → k ∈ r_edge_keys r →
    ∃ proc link,
      proc ∈ edges_j ∧ links data !! k = Some link ∧
      l_id link = el_alignId proc.
Proof.
  intros Hconv Hrows r k Hr Hk.
  destruct (convert_uri_lookup _ _ _ _ Hconv) as [Hlook _].
  apply convert_inv in Hconv as (n & g0 & c & _ & Hlinks).
  unfold Karma.link_loop in Hlinks.
  unfold pattern_rows in Hrows. simpl in Hrows. rewrite Hlook in Hrows.
  destruct (mapM _ graph_j) as [rows0|] eqn:Hmap; [|done].
  simpl in Hrows. injection Hrows as <-.
  rewrite sort_by_Permutation in Hr.
  apply mapM_Some in Hmap.
  apply list_elem_of_lookup in Hr as [i Hi].
  destruct (Forall2_lookup_r _ _ _ _ _ Hmap Hi) as (proc0 & _ & Hrow).
  apply graph_row_Some in Hrow as (edges & Hentries & ->). simpl in Hk.
  rewrite sort_by_Permutation in Hk.
  destruct (entries_Some _ _ _ _ _ Hentries Hk) as [?%elem_of_nil|[p Hp]];
    [done|].
  apply edge_lines_Some in Hp as (proc & Hproc & _ & Hlm).
  destruct (index_loop_sound l_id (link_step nm)
              (link_step_index get_label get_prefix nm)
              _ _ _ _ _ _ _ _ k Hlinks Hlm) as [[_ Hpos]|[? _]]; [|done].
  rewrite Nat.sub_0_r, list_lookup_fmap in Hpos.
  destruct (links data !! k) as [link|] eqn:Hlink; [|done].
  simpl in Hpos. injection Hpos as Hid. by exists proc, link.
Qed.

End PatternLinks.

(** *** An entry without value, and the table on examples *)

Section PatternAbort.

Import Karma. Import Patterns.

Lemma split_no_occurrence sep t :
  occurs sep t = false → split sep t = [t].
Proof.
  unfold split.
  assert (∀ cur, occurs sep t = false → split_go sep 0 cur t = [cur +:+ t])
    as Hgo.
  { induction t as [|c t IH]; intros cur Ho.
    - by rewrite string_app_nil_r.
    - rewrite occurs_cons in Ho. apply orb_false_iff in Ho as [Hp Ho].
      rewrite split_go_step, Hp. rewrite IH by done.
      by rewrite string_app_assoc. }
  intros Ho. by rewrite Hgo.
Qed.

Lemma entry_step_abort el edges e :
  String.prefix "__e" (strip e) = true → occurs "=" (strip e) = false →
  entry_step el edges e = None.
Proof.
  intros Hp Ho. unfold entry_step.
  rewrite (split_no_occurrence "=" (strip e) Ho). by rewrite Hp.
Qed.

Lemma entries_abort el edges l e :
  e ∈ l →
  String.prefix "__e" (strip e) = true → occurs "=" (strip e) = false →
  entries el edges l = None.
Proof.
  intros Hin Hp Ho. revert edges.
  induction l as [|e' l IH]; intros edges; [by apply elem_of_nil in Hin|].
  simpl. apply elem_of_cons in Hin as [<-|Hin].
  - by rewrite entry_step_abort.
  - destruct (entry_step el edges e'); simpl; [by apply IH|done].
Qed.

Lemma mapM_None_elem {X Y} (f : X → option Y) (l : list X) x :
  x ∈ l → f x = None → mapM f l = None.
Proof.
  intros Hin Hx. destruct (mapM f l) as [k|] eqn:E; [|done].
  apply mapM_Some in E.
  apply list_elem_of_lookup in Hin as [i Hi].
  destruct (Forall2_lookup_l _ _ _ _ _ E Hi) as (y & _ & Hy). congruence.
Qed.

(** X24.  An entry of a variable mapping that starts with [__e] and
    holds no [=] stops [get_patterns] with the [IndexError] of [pos[1]],
    whatever the other entries and the other lines are: no table is
    composed. *)
Theorem entry_without_value_aborts
    (align_edges : list edge) (edges_j : list edge_line)
    (graph_j : list graph_line) (proc : graph_line) (e : string) :
  proc ∈ graph_j →
  e ∈ split "," (remove_char "{" (remove_char "}"
                                    (gl_variable_mapping proc))) →
  String.prefix "__e" (strip e) = true →
  occurs "=" (strip e) = false →
  pattern_rows align_edges edges_j graph_j = None.
Proof.
  intros Hproc He Hp Ho. unfold pattern_rows. simpl.
  rewrite (mapM_None_elem _ graph_j proc); [done|done|].
  unfold graph_row. by rewrite (entries_abort _ _ _ e).
Qed.

Lemma entry_without_value_aborts_witness :
  pattern_rows [] sample_edges_j
    (sample_graph_j ++ [mk_graph_line 3 5 "{__v0=n1, __e0}"]) = None.
Proof.
  apply (entry_without_value_aborts [] sample_edges_j _
           (mk_graph_line 3 5 "{__v0=n1, __e0}") " __e0").
  - apply elem_of_app. right. by left.
  - right. left.
  - reflexivity.
  - reflexivity.
Defined.

End PatternAbort.

Section GraphExamples.

Import Karma. Import Patterns.

(** Names the result of a conversion that returns. *)
Ltac converted data :=
  let H := fresh "Hok" in
  assert (is_ok (convert_karma_graph spec_get_label spec_get_prefix data)
          = true) as H by reflexivity;
  destruct (convert_karma_graph spec_get_label spec_get_prefix data)
    as [[[g nm] lm]|e] eqn:E; [clear H|discriminate H].

Lemma uri_lookup_is_link_table_witness :
  ∃ g nm lm,
    convert_karma_graph spec_get_label spec_get_prefix sample_alignment
    = Ok (g, nm, lm) ∧
    uri_lookup (g_edges g) = lm ∧
    lm !! "n1---ex:worksFor---n3" = Some 1%nat.
Proof.
  converted sample_alignment. exists g, nm, lm. split; [done|].
  destruct (uri_lookup_is_link_table spec_get_label spec_get_prefix
              sample_alignment g nm lm E) as [Hlook _].
  split; [exact Hlook|].
  assert (returned (convert_karma_graph spec_get_label spec_get_prefix
                      sample_alignment)
          = Some (g, nm, lm)) as Hr by (by rewrite E).
  assert ((λ r, r.2 !! "n1---ex:worksFor---n3")
            <$> returned (convert_karma_graph spec_get_label spec_get_prefix
                            sample_alignment)
          = Some (Some 1%nat)) as Hv by reflexivity.
  rewrite Hr in Hv. simpl in Hv. by injection Hv.
Defined.

Lemma pattern_rows_sorted_and_stable_witness :
  let align_edges :=
    [mk_edge 0 1 0 (mk_link_data "a" "t" 1%Q "" "");
     mk_edge 0 2 1 (mk_link_data "b" "t" 1%Q "" "")] in
  let edges_j := [mk_edge_line "7" "b"; mk_edge_line "8" "a"] in
  let graph_j :=
    [mk_graph_line 1 12 "{__e0=7, __v0=n1, __e1=8}";
     mk_graph_line 2 30 "{__v0=n1, __e0=8}";
     mk_graph_line 3 4 "{__e0=8, __v0=n2}"] in
  let rows :=
    [mk_row 2 30 1 [0%nat]; mk_row 3 4 1 [0%nat];
     mk_row 1 12 2 [0%nat; 1%nat]] in
  pattern_rows align_edges edges_j graph_j = Some rows ∧
  StronglySorted rows_le rows ∧
  rows_with [0%nat] rows = [mk_row 2 30 1 [0%nat]; mk_row 3 4 1 [0%nat]].
Proof.
  intros align_edges edges_j graph_j rows.
  split; [reflexivity|].
  destruct (pattern_rows_sorted_and_stable align_edges edges_j graph_j rows
              eq_refl) as (Hsorted & _ & _).
  split; [exact Hsorted|reflexivity].
Defined.

Lemma edge_keys_are_link_positions_witness :
  ∃ g nm lm rows,
    convert_karma_graph spec_get_label spec_get_prefix sample_alignment
    = Ok (g, nm, lm) ∧
    pattern_rows (g_edges g) sample_edges_j sample_graph_j = Some rows ∧
    ∀ r k, r ∈ rows → k ∈ r_edge_keys r →
      ∃ proc link,
        proc ∈ sample_edges_j ∧ links sample_alignment !! k = Some link ∧
        l_id link = el_alignId proc.
Proof.
  converted sample_alignment.
  assert (match convert_karma_graph spec_get_label spec_get_prefix
                  sample_alignment with
          | Ok (g, _, _) =>
              pattern_rows (g_edges g) sample_edges_j sample_graph_j
          | Raise _ => None
          end
          = Some [mk_row 2 30 1 [0%nat]; mk_row 1 12 2 [0%nat; 1%nat]])
    as Hrows by reflexivity.
  rewrite E in Hrows.
  exists g, nm, lm, [mk_row 2 30 1 [0%nat]; mk_row 1 12 2 [0%nat; 1%nat]].
  split; [done|]. split; [done|].
  exact (edge_keys_are_link_positions spec_get_label spec_get_prefix
           sample_alignment g nm lm sample_edges_j sample_graph_j _
           E Hrows).
Defined.

(** The graph of the example of the spec. *)
Lemma edges_follow_links_witness :
  ∃ g nm lm,
    convert_karma_graph spec_get_label spec_get_prefix person_example
    = Ok (g, nm, lm) ∧
    length (g_edges g) = length (links person_example) ∧
    NoDup (e_key <$> g_edges g).
Proof.
  converted person_example. exists g, nm, lm. split; [done|].
  destruct (edges_follow_links spec_get_label spec_get_prefix
              person_example g nm lm E) as (Hlen & _ & Hnd).
  by split.
Defined.

Lemma nodes_follow_array_witness :
  ∃ g nm lm,
    convert_karma_graph spec_get_label spec_get_prefix person_example
    = Ok (g, nm, lm) ∧
    (∀ i, is_Some (g_node g !! i) ↔ (i < length (nodes person_example))%nat).
Proof.
  converted person_example. exists g, nm, lm. split; [done|].
  by destruct (nodes_follow_array spec_get_label spec_get_prefix
                 person_example g nm lm E) as (Hdom & _).
Defined.

End GraphExamples.
